(** * CHERI-MIPS capability coprocessor helpers: a shallow embedding

    The development follows [target/mips/op_helper_cheri.c] (the capability
    instruction helpers) and the MIPS gdb stub, its capability part and
    its integer registers.
    Integers of the C code are [Z] with the wrap-around written out,
    bit masks use [Z.land]/[Z.lor]/[Z.shiftl], the capability register
    file is a list indexed by register number, and a helper that may leave
    through [do_raise_c2_exception] returns an [outcome].

    Left out: the counters compiled under DO_CHERI_STATISTICS (the choice
    of the histogram bucket is modelled), the logging, the asserts that
    exist in debug builds only ([tcg_debug_assert], [cheri_debug_assert]),
    the build with out-of-band "magic" 128-bit capabilities, and the
    helpers that need parts of the CPU state that are not in the two
    files: the hardware-register and coprocessor-0 moves, the linked
    loads, the load of a capability from memory, and the checks of the
    branch target and of the program counter. *)

From Stdlib Require Import ZArith Lia Bool List.
From stdpp Require Import base option list gmap.

Local Open Scope Z_scope.

(** ** Machine integers *)

Definition UINT64_MAX : Z := 2 ^ 64 - 1.

(** Truncation of a mathematical integer to [uint64_t]. *)
Definition wrap64 (x : Z) : Z := x mod 2 ^ 64.

(** A C scalar used as a condition. *)
Definition nonzero (x : Z) : bool := negb (x =? 0).

(** ** The capability register *)

(** Modelled from the spec: [cap_register_t] is declared in cpu.h; the
    helpers only name its fields.  The fields are those of the data model
    (tag, base, 65-bit top, offset = cursor - base, permissions, user
    permissions, object type, cached pesbt word) under the names the
    helpers use. *)
Record cap_register : Type := mkCap {
  cr_tag : bool;
  cr_base : Z;
  _cr_top : Z;
  cr_offset : Z;
  cr_perms : Z;
  cr_uperms : Z;
  cr_otype : Z;
  cr_pesbt_xored_for_mem : Z
}.

Definition set_cr_tag (t : bool) (c : cap_register) : cap_register :=
  mkCap t (cr_base c) (_cr_top c) (cr_offset c) (cr_perms c) (cr_uperms c)
        (cr_otype c) (cr_pesbt_xored_for_mem c).

Definition set_cr_base (b : Z) (c : cap_register) : cap_register :=
  mkCap (cr_tag c) b (_cr_top c) (cr_offset c) (cr_perms c) (cr_uperms c)
        (cr_otype c) (cr_pesbt_xored_for_mem c).

Definition set_cr_top (t : Z) (c : cap_register) : cap_register :=
  mkCap (cr_tag c) (cr_base c) t (cr_offset c) (cr_perms c) (cr_uperms c)
        (cr_otype c) (cr_pesbt_xored_for_mem c).

Definition set_cr_offset (o : Z) (c : cap_register) : cap_register :=
  mkCap (cr_tag c) (cr_base c) (_cr_top c) o (cr_perms c) (cr_uperms c)
        (cr_otype c) (cr_pesbt_xored_for_mem c).

Definition set_cr_perms (p : Z) (c : cap_register) : cap_register :=
  mkCap (cr_tag c) (cr_base c) (_cr_top c) (cr_offset c) p (cr_uperms c)
        (cr_otype c) (cr_pesbt_xored_for_mem c).

Definition set_cr_uperms (p : Z) (c : cap_register) : cap_register :=
  mkCap (cr_tag c) (cr_base c) (_cr_top c) (cr_offset c) (cr_perms c) p
        (cr_otype c) (cr_pesbt_xored_for_mem c).

Definition set_cr_otype (t : Z) (c : cap_register) : cap_register :=
  mkCap (cr_tag c) (cr_base c) (_cr_top c) (cr_offset c) (cr_perms c)
        (cr_uperms c) t (cr_pesbt_xored_for_mem c).

(** Modelled from the spec: [null_capability] (cpu.h) is the capability
    with all fields zero and the tag clear. *)
Definition null_capability : cap_register :=
  mkCap false 0 0 0 0 0 0 0.

(** Modelled from the spec: [cap_get_cursor] (cpu.h); the cursor is
    base + offset modulo 2^64. *)
Definition cap_get_cursor (c : cap_register) : Z := wrap64 (cr_base c + cr_offset c).

(** Modelled from the spec: [cap_get_base] (cpu.h). *)
Definition cap_get_base (c : cap_register) : Z := cr_base c.

(** Modelled from the spec: [cap_get_offset] (cpu.h). *)
Definition cap_get_offset (c : cap_register) : Z := cr_offset c.

(** Modelled from the spec: [cap_get_top65] (cpu.h), the top with all its
    65 bits. *)
Definition cap_get_top65 (c : cap_register) : Z := _cr_top c.

(** Modelled from the spec: [cap_get_length65] (cpu.h), the length with
    all its 65 bits. *)
Definition cap_get_length65 (c : cap_register) : Z := _cr_top c - cr_base c.

(** Modelled from the spec: [cap_get_top] (cpu.h), the 64-bit accessor,
    which gives [UINT64_MAX] for 2^64. *)
Definition cap_get_top (c : cap_register) : Z := Z.min (cap_get_top65 c) UINT64_MAX.

(** Modelled from the spec: [cap_get_length] (cpu.h), the 64-bit accessor,
    which gives [UINT64_MAX] for 2^64. *)
Definition cap_get_length (c : cap_register) : Z := Z.min (cap_get_length65 c) UINT64_MAX.

(** Modelled from the spec: [cap_is_in_bounds] (cpu.h);
    [in_bounds(cap, addr, nbytes)] is [base <= addr /\ addr + nbytes <= top],
    with the 65-bit top. *)
Definition cap_is_in_bounds (c : cap_register) (addr num_bytes : Z) : bool :=
  (cap_get_base c <=? addr) && (addr + num_bytes <=? cap_get_top65 c).

(** ** Constants of cpu.h *)

(** The permission bits, masks, object-type constants and sizes are macros
    of cpu.h; the helpers only name them, so they are parameters here.  The
    three [case] labels of the switch in [check_cap] are distinct, as C
    demands of case labels, a capability occupies at least one byte, and
    the unsealed otype is neither a user type nor the sentry type (the
    sealing taxonomy is a partition). *)
Class Constants : Type := {
  CAP_PERM_GLOBAL : Z;
  CAP_PERM_EXECUTE : Z;
  CAP_PERM_LOAD : Z;
  CAP_PERM_STORE : Z;
  CAP_PERM_LOAD_CAP : Z;
  CAP_PERM_STORE_CAP : Z;
  CAP_PERM_STORE_LOCAL : Z;
  CAP_PERM_SEAL : Z;
  CAP_PERM_CCALL : Z;
  CAP_PERM_UNSEAL : Z;
  CAP_ACCESS_SYS_REGS : Z;
  CAP_PERMS_ALL : Z;
  CAP_UPERMS_ALL : Z;
  CAP_UPERMS_SHFT : Z;
  CAP_MAX_UPERM : Z;
  CAP_OTYPE_UNSEALED : Z;
  CAP_OTYPE_SENTRY : Z;
  CAP_MAX_SEALED_OTYPE : Z;
  CHERI_CAP_SIZE : Z;
  EXCP_INST_NOTAVAIL : Z;
  case_EXECUTE_LOAD : CAP_PERM_EXECUTE <> CAP_PERM_LOAD;
  case_EXECUTE_STORE : CAP_PERM_EXECUTE <> CAP_PERM_STORE;
  case_LOAD_STORE : CAP_PERM_LOAD <> CAP_PERM_STORE;
  CHERI_CAP_SIZE_pos : 0 < CHERI_CAP_SIZE;
  otype_unsealed_above_sealed : CAP_MAX_SEALED_OTYPE < CAP_OTYPE_UNSEALED;
  otype_unsealed_not_sentry : CAP_OTYPE_UNSEALED <> CAP_OTYPE_SENTRY
}.

(** ** Exceptions *)

(** The capability cause codes the helpers raise, those of
    [cp2_fault_causestr] first. *)
Inductive CP2Cause : Type :=
| CP2Ca_NONE
| CP2Ca_LENGTH
| CP2Ca_TAG
| CP2Ca_SEAL
| CP2Ca_TYPE
| CP2Ca_CALL
| CP2Ca_RETURN
| CP2Ca_USRDEFINE
| CP2Ca_INEXACT
| CP2Ca_GLOBAL
| CP2Ca_PERM_EXE
| CP2Ca_PERM_LD
| CP2Ca_PERM_ST
| CP2Ca_PERM_LD_CAP
| CP2Ca_PERM_ST_CAP
| CP2Ca_PERM_ST_LC_CAP
| CP2Ca_PERM_SEAL
| CP2Ca_ACCESS_SYS_REGS
| CP2Ca_PERM_CCALL
| CP2Ca_PERM_UNSEAL.

(** What a helper can leave with: a coprocessor-2 exception naming the
    offending capability register ([do_raise_c2_exception]), one without
    a register ([do_raise_c2_exception_noreg]), an address error of
    coprocessor 0 ([do_raise_c0_exception] with AdEL or AdES and the bad
    address), or the debug exception. *)
Inductive exception : Type :=
| C2E (cause : CP2Cause) (reg : nat)
| C2E_noreg (cause : CP2Cause)
| EXCP_AdEL (badvaddr : Z)
| EXCP_AdES (badvaddr : Z)
| EXCP_DEBUG.

(** ** The architectural state *)

Record CHWR_t : Type := mkCHWR {
  DDC : cap_register;
  UserTlsCap : cap_register;
  PrivTlsCap : cap_register;
  KR1C : cap_register;
  KR2C : cap_register;
  KCC : cap_register;
  KDC : cap_register;
  EPCC : cap_register;
  ErrorEPCC : cap_register
}.

Record TCState : Type := mkTC {
  _CGPR : list cap_register;
  CHWR : CHWR_t;
  PCC : cap_register;
  CapBranchTarget : cap_register
}.

(** Tag memory and data memory are reached through [env] in the C code
    ([cheri_tag_set(env, ...)], [cpu_stq_data_ra(env, ...)]), so they are
    fields of the state here: [tagmem] is the set of tagged
    capability-sized lines, [memory] maps the address of a 64-bit word to
    its value. *)
Record CPUMIPSState : Type := mkEnv {
  active_tc : TCState;
  CP2_CapCause : Z;
  CP0_BadVAddr : Z;
  error_code : Z;
  statcounters_imprecise_setbounds : Z;
  statcounters_unrepresentable_caps : Z;
  statcounters_cap_write : Z;
  statcounters_cap_write_tagged : Z;
  tagmem : gset Z;
  memory : gmap Z Z
}.

Definition set_CGPR (l : list cap_register) (tc : TCState) : TCState :=
  mkTC l (CHWR tc) (PCC tc) (CapBranchTarget tc).

Definition set_active_tc (tc : TCState) (env : CPUMIPSState) : CPUMIPSState :=
  mkEnv tc (CP2_CapCause env) (CP0_BadVAddr env) (error_code env)
        (statcounters_imprecise_setbounds env)
        (statcounters_unrepresentable_caps env)
        (statcounters_cap_write env) (statcounters_cap_write_tagged env)
        (tagmem env) (memory env).

Definition set_BadVAddr (a : Z) (env : CPUMIPSState) : CPUMIPSState :=
  mkEnv (active_tc env) (CP2_CapCause env) a (error_code env)
        (statcounters_imprecise_setbounds env)
        (statcounters_unrepresentable_caps env)
        (statcounters_cap_write env) (statcounters_cap_write_tagged env)
        (tagmem env) (memory env).

Definition set_error_code (e : Z) (env : CPUMIPSState) : CPUMIPSState :=
  mkEnv (active_tc env) (CP2_CapCause env) (CP0_BadVAddr env) e
        (statcounters_imprecise_setbounds env)
        (statcounters_unrepresentable_caps env)
        (statcounters_cap_write env) (statcounters_cap_write_tagged env)
        (tagmem env) (memory env).

Definition set_imprecise_setbounds (n : Z) (env : CPUMIPSState) : CPUMIPSState :=
  mkEnv (active_tc env) (CP2_CapCause env) (CP0_BadVAddr env) (error_code env)
        n (statcounters_unrepresentable_caps env)
        (statcounters_cap_write env) (statcounters_cap_write_tagged env)
        (tagmem env) (memory env).

Definition set_unrepresentable_caps (n : Z) (env : CPUMIPSState) : CPUMIPSState :=
  mkEnv (active_tc env) (CP2_CapCause env) (CP0_BadVAddr env) (error_code env)
        (statcounters_imprecise_setbounds env) n
        (statcounters_cap_write env) (statcounters_cap_write_tagged env)
        (tagmem env) (memory env).

Definition set_cap_write (n : Z) (env : CPUMIPSState) : CPUMIPSState :=
  mkEnv (active_tc env) (CP2_CapCause env) (CP0_BadVAddr env) (error_code env)
        (statcounters_imprecise_setbounds env)
        (statcounters_unrepresentable_caps env)
        n (statcounters_cap_write_tagged env)
        (tagmem env) (memory env).

Definition set_cap_write_tagged (n : Z) (env : CPUMIPSState) : CPUMIPSState :=
  mkEnv (active_tc env) (CP2_CapCause env) (CP0_BadVAddr env) (error_code env)
        (statcounters_imprecise_setbounds env)
        (statcounters_unrepresentable_caps env)
        (statcounters_cap_write env) n
        (tagmem env) (memory env).

Definition set_tagmem (t : gset Z) (env : CPUMIPSState) : CPUMIPSState :=
  mkEnv (active_tc env) (CP2_CapCause env) (CP0_BadVAddr env) (error_code env)
        (statcounters_imprecise_setbounds env)
        (statcounters_unrepresentable_caps env)
        (statcounters_cap_write env) (statcounters_cap_write_tagged env)
        t (memory env).

Definition set_memory (m : gmap Z Z) (env : CPUMIPSState) : CPUMIPSState :=
  mkEnv (active_tc env) (CP2_CapCause env) (CP0_BadVAddr env) (error_code env)
        (statcounters_imprecise_setbounds env)
        (statcounters_unrepresentable_caps env)
        (statcounters_cap_write env) (statcounters_cap_write_tagged env)
        (tagmem env) m.

(** The result of running a helper: it returns, it leaves through an
    exception (a longjmp out of the instruction, with the state as it is
    at that point), or an [assert] of the C code fails. *)
Inductive outcome (A : Type) : Type :=
| Ok (a : A)
| Trap (e : exception) (env : CPUMIPSState)
| AssertFail.

Arguments Ok {A} a.
Arguments Trap {A} e env.
Arguments AssertFail {A}.

#[global] Instance outcome_ret : MRet outcome := fun A a => Ok a.

#[global] Instance outcome_bind : MBind outcome := fun A B k m =>
  match m with
  | Ok a => k a
  | Trap e env => Trap e env
  | AssertFail => AssertFail
  end.

(** ** Register file accessors *)

(** [_CGPR[n]].  The register numbers of an instruction are five bits
    wide; an index beyond the file reads as the null capability here. *)
Definition CGPR_at (tc : TCState) (n : nat) : cap_register :=
  default null_capability (_CGPR tc !! n).

(** Modelled from the spec: [get_readonly_capreg] (cpu.h); register
    index 0 reads as the null capability. *)
Definition get_readonly_capreg (tc : TCState) (num : nat) : cap_register :=
  match num with
  | O => null_capability
  | _ => CGPR_at tc num
  end.

(** Modelled from the spec: [get_capreg_0_is_ddc] (cpu.h); register
    index 0 stands for DDC. *)
Definition get_capreg_0_is_ddc (tc : TCState) (num : nat) : cap_register :=
  match num with
  | O => DDC (CHWR tc)
  | _ => get_readonly_capreg tc num
  end.

(** Modelled from the spec: [update_capreg] (cpu.h); register index 0
    being the null register, a write to it leaves the file as it is. *)
Definition update_capreg (tc : TCState) (num : nat) (newval : cap_register) : TCState :=
  match num with
  | O => tc
  | _ => set_CGPR (<[num := newval]> (_CGPR tc)) tc
  end.

(** [update_capreg(&env->active_tc, num, &newval)]. *)
Definition write_capreg (env : CPUMIPSState) (num : nat) (newval : cap_register)
  : CPUMIPSState :=
  set_active_tc (update_capreg (active_tc env) num newval) env.

(** ** The capability encoding *)

(** The helpers are compiled against one of the capability encodings; what
    they call from the encoding (cheri-compressed-cap and cpu.h) is a
    parameter here.  [CHERI_128] tells the
    compressed 128-bit build from the uncompressed 256-bit one (the
    out-of-band "magic" 128-bit build is left out).  [cc128_setbounds]
    returns the capability it has written through its first argument
    together with its [exact] result.  The two flags are the policy
    switches consulted when a capability becomes unrepresentable.

    Modelled from the spec: the two laws of [cap_mark_unrepresentable]
    (the tag is cleared and the cursor is the one asked for) and the law of
    [cc128_setbounds] (bounds reported exact are the requested ones). *)
Class Codec : Type := {
  CHERI_128 : bool;
  is_representable_cap : cap_register -> Z -> bool;
  is_representable_cap_when_sealed : cap_register -> Z -> bool;
  cap_mark_unrepresentable : Z -> cap_register -> cap_register;
  cc128_setbounds : cap_register -> Z -> Z -> cap_register * bool;
  cc128_is_representable_cap_exact : cap_register -> bool;
  compress_128cap : cap_register -> Z;
  compress_256cap : cap_register -> nat -> Z;
  cheri_c2e_on_unrepresentable : bool;
  cheri_debugger_on_unrepresentable : bool;
  mark_unrepresentable_tag : forall a c,
    cr_tag (cap_mark_unrepresentable a c) = false;
  mark_unrepresentable_cursor : forall a c,
    0 <= a <= UINT64_MAX ->
    cap_get_cursor (cap_mark_unrepresentable a c) = a;
  cc128_setbounds_exact : forall c cursor top r,
    cc128_setbounds c cursor top = (r, true) ->
    cr_base r = cursor /\ _cr_top r = top
}.

Section Model.

Context {K : Constants} {E : Codec}.

(** ** Sealing *)

(** Modelled from the spec: [cap_is_unsealed] (cpu.h), after the sealing
    taxonomy: the otype is the unsealed one. *)
Definition cap_is_unsealed (c : cap_register) : bool :=
  cr_otype c =? CAP_OTYPE_UNSEALED.

(** Modelled from the spec: [cap_is_sealed_entry] (cpu.h): the otype is
    that of a sentry. *)
Definition cap_is_sealed_entry (c : cap_register) : bool :=
  cr_otype c =? CAP_OTYPE_SENTRY.

(** Modelled from the spec: [cap_is_sealed_with_type] (cpu.h): the otype
    is a user type, within [0, CAP_MAX_SEALED_OTYPE]. *)
Definition cap_is_sealed_with_type (c : cap_register) : bool :=
  (0 <=? cr_otype c) && (cr_otype c <=? CAP_MAX_SEALED_OTYPE).

(** Modelled from the spec: [cap_set_unsealed] (cpu.h). *)
Definition cap_set_unsealed (c : cap_register) : cap_register :=
  set_cr_otype CAP_OTYPE_UNSEALED c.

(** Modelled from the spec: [cap_set_sealed] (cpu.h). *)
Definition cap_set_sealed (c : cap_register) (type : Z) : cap_register :=
  set_cr_otype type c.

(** [caps_have_same_type]. *)
Definition caps_have_same_type (cap1 cap2 : cap_register) : bool :=
  cr_otype cap1 =? cr_otype cap2.

(** [is_cap_sealed]: sealed with a type or sealed as a sentry. *)
Definition is_cap_sealed (cp : cap_register) : bool :=
  cap_is_sealed_with_type cp || cap_is_sealed_entry cp.

(** [perms & BIT] used as a condition. *)
Definition has_perm (c : cap_register) (bit : Z) : bool :=
  nonzero (Z.land (cr_perms c) bit).

(** ** Unrepresentable results *)

(** [_became_unrepresentable]: only the compressed build may get here; the
    other build asserts false. *)
Definition _became_unrepresentable (env : CPUMIPSState) (reg : nat)
  : outcome CPUMIPSState :=
  if CHERI_128 then
    let env1 :=
      set_unrepresentable_caps
        (wrap64 (statcounters_unrepresentable_caps env + 1)) env in
    if cheri_debugger_on_unrepresentable then Trap EXCP_DEBUG env1
    else if cheri_c2e_on_unrepresentable then Trap (C2E CP2Ca_INEXACT reg) env1
    else Ok env1
  else AssertFail.

(** ** Alignment *)

(** [align_of]: the low bits of an address that an access of the given
    size wants clear; 1 for a size it does not know. *)
Definition align_of (size addr : Z) : Z :=
  if size =? 1 then 0
  else if size =? 2 then Z.land addr 1
  else if size =? 4 then Z.land addr 3
  else if size =? 8 then Z.land addr 7
  else if size =? 16 then Z.land addr 15
  else if size =? 32 then Z.land addr 31
  else if size =? 64 then Z.land addr 63
  else if size =? 128 then Z.land addr 127
  else 1.

(** ** The check engine *)

(** The [switch (perm)] of [check_cap]: the cause for the three
    permissions it knows, nothing for any other value ([default: break]). *)
Definition check_cap_perm_cause (perm : Z) : option CP2Cause :=
  if perm =? CAP_PERM_EXECUTE then Some CP2Ca_PERM_EXE
  else if perm =? CAP_PERM_LOAD then Some CP2Ca_PERM_LD
  else if perm =? CAP_PERM_STORE then Some CP2Ca_PERM_ST
  else None.

(** The [do_exception] label of [check_cap]. *)
Definition check_cap_exception (env : CPUMIPSState) (cause : CP2Cause)
    (addr : Z) (regnum : nat) (instavail : bool) : outcome unit :=
  let env1 := set_BadVAddr addr env in
  let env2 :=
    if instavail then env1
    else set_error_code (Z.lor (error_code env1) EXCP_INST_NOTAVAIL) env1 in
  Trap (C2E cause regnum) env2.

(** [check_cap], with TYPE_CHECK_CHECK_CAP defined as in the file: after
    the bounds check the object type is compared with that of PCC, and a
    difference is an exception unless the register number is 0. *)
Definition check_cap (env : CPUMIPSState) (cr : cap_register) (perm addr : Z)
    (regnum : nat) (len : Z) (instavail : bool) : outcome unit :=
  if negb (cr_tag cr) then
    check_cap_exception env CP2Ca_TAG addr regnum instavail
  else if is_cap_sealed cr then
    check_cap_exception env CP2Ca_SEAL addr regnum instavail
  else
    match (if negb (Z.land (cr_perms cr) perm =? perm)
           then check_cap_perm_cause perm else None) with
    | Some cause => check_cap_exception env cause addr regnum instavail
    | None =>
        if negb (cap_is_in_bounds cr addr len) then
          check_cap_exception env CP2Ca_LENGTH addr regnum instavail
        else if negb (caps_have_same_type (PCC (active_tc env)) cr) then
          match regnum with
          | O => Ok tt
          | _ => check_cap_exception env CP2Ca_TYPE addr regnum instavail
          end
        else Ok tt
    end.

(** [check_ddc]: the check of a legacy load or store against DDC. *)
Definition check_ddc (env : CPUMIPSState) (perm ddc_offset len : Z)
    (instavail : bool) : outcome Z :=
  let ddc := DDC (CHWR (active_tc env)) in
  let addr := wrap64 (ddc_offset + cap_get_cursor ddc) in
  _ ← check_cap env ddc perm addr 0%nat len instavail;
  Ok addr.




(** The capability cause a run of a helper ends with, if it ends with
    one. *)
Definition raised_cause {A : Type} (r : outcome A) : option CP2Cause :=
  match r with
  | Trap (C2E cause _) _ => Some cause
  | _ => None
  end.

(** ** Permission helpers *)

(** Truncation to [uint32_t]. *)
Definition wrap32 (x : Z) : Z := x mod 2 ^ 32.

(** [helper_candperm]: CAndPerm, restrict permissions. *)
Definition helper_candperm (env : CPUMIPSState) (cd cb : nat) (rt : Z)
  : outcome CPUMIPSState :=
  let cbp := get_readonly_capreg (active_tc env) cb in
  if negb (cr_tag cbp) then Trap (C2E CP2Ca_TAG cb) env
  else if is_cap_sealed cbp then Trap (C2E CP2Ca_SEAL cb) env
  else
    let rt_perms := Z.land (wrap32 rt) CAP_PERMS_ALL in
    let rt_uperms :=
      Z.land (Z.shiftr (wrap32 rt) CAP_UPERMS_SHFT) CAP_UPERMS_ALL in
    let result :=
      set_cr_uperms (Z.land (cr_uperms cbp) rt_uperms)
        (set_cr_perms (Z.land (cr_perms cbp) rt_perms) cbp) in
    Ok (write_capreg env cd result).

(** [helper_ccheckperm]: CCheckPerm, raise an exception if the capability
    lacks a permission asked for. *)
Definition helper_ccheckperm (env : CPUMIPSState) (cs : nat) (rt : Z)
  : outcome CPUMIPSState :=
  let csp := get_readonly_capreg (active_tc env) cs in
  let rt_perms := Z.land (wrap32 rt) CAP_PERMS_ALL in
  let rt_uperms :=
    Z.land (Z.shiftr (wrap32 rt) CAP_UPERMS_SHFT) CAP_UPERMS_ALL in
  if negb (cr_tag csp) then Trap (C2E CP2Ca_TAG cs) env
  else if negb (Z.land (cr_perms csp) rt_perms =? rt_perms) then
    Trap (C2E CP2Ca_USRDEFINE cs) env
  else if negb (Z.land (cr_uperms csp) rt_uperms =? rt_uperms) then
    Trap (C2E CP2Ca_USRDEFINE cs) env
  else if nonzero (Z.shiftr rt (16 + CAP_MAX_UPERM)) then
    Trap (C2E CP2Ca_USRDEFINE cs) env
  else Ok env.

(** ** Branch helpers *)

(** [helper_cbez]: 1 when the register holds the null sentinel. *)
Definition helper_cbez (env : CPUMIPSState) (cb : nat) (offset : Z) : Z :=
  let cbp := get_readonly_capreg (active_tc env) cb in
  if (cr_base cbp =? 0) && negb (cr_tag cbp) && (cr_offset cbp =? 0)
  then 1 else 0.

(** [helper_cbnz]: the same test with the two results exchanged. *)
Definition helper_cbnz (env : CPUMIPSState) (cb : nat) (offset : Z) : Z :=
  let cbp := get_readonly_capreg (active_tc env) cb in
  if (cr_base cbp =? 0) && negb (cr_tag cbp) && (cr_offset cbp =? 0)
  then 0 else 1.

(** ** Pointer conversion and offset arithmetic *)

(** [helper_cfromptr]: CFromPtr, create a capability from a pointer;
    register 0 stands for DDC. *)
Definition helper_cfromptr (env : CPUMIPSState) (cd cb : nat) (rt : Z)
  : outcome CPUMIPSState :=
  let cbp := get_capreg_0_is_ddc (active_tc env) cb in
  if rt =? 0 then Ok (write_capreg env cd null_capability)
  else if negb (cr_tag cbp) then Trap (C2E CP2Ca_TAG cb) env
  else if is_cap_sealed cbp then Trap (C2E CP2Ca_SEAL cb) env
  else
    let result := set_cr_offset rt cbp in
    if negb (is_representable_cap cbp rt) then
      env1 ← _became_unrepresentable env cd;
      Ok (write_capreg env1 cd
            (cap_mark_unrepresentable (wrap64 (cr_base cbp + rt)) result))
    else Ok (write_capreg env cd result).

(** [cincoffset_impl]: CIncOffset, increase the offset. *)
Definition cincoffset_impl (env : CPUMIPSState) (cd cb : nat) (rt : Z)
  : outcome CPUMIPSState :=
  let cbp := get_readonly_capreg (active_tc env) cb in
  if cr_tag cbp && is_cap_sealed cbp && nonzero rt then
    Trap (C2E CP2Ca_SEAL cb) env
  else
    let cb_offset_plus_rt := wrap64 (cr_offset cbp + rt) in
    let result := set_cr_offset cb_offset_plus_rt cbp in
    if negb (is_representable_cap cbp cb_offset_plus_rt) then
      env1 ← (if cr_tag cbp then _became_unrepresentable env cd else Ok env);
      Ok (write_capreg env1 cd
            (cap_mark_unrepresentable
               (wrap64 (cr_base cbp + cb_offset_plus_rt)) result))
    else Ok (write_capreg env cd result).

(** [helper_cincoffset]. *)
Definition helper_cincoffset (env : CPUMIPSState) (cd cb : nat) (rt : Z)
  : outcome CPUMIPSState :=
  cincoffset_impl env cd cb rt.

(** [helper_csetoffset]: CSetOffset, set the cursor to an offset from the
    base. *)
Definition helper_csetoffset (env : CPUMIPSState) (cd cb : nat) (rt : Z)
  : outcome CPUMIPSState :=
  let cbp := get_readonly_capreg (active_tc env) cb in
  if cr_tag cbp && is_cap_sealed cbp then Trap (C2E CP2Ca_SEAL cb) env
  else
    let result := set_cr_offset rt cbp in
    if negb (is_representable_cap cbp rt) then
      env1 ← (if cr_tag cbp then _became_unrepresentable env cd else Ok env);
      Ok (write_capreg env1 cd
            (cap_mark_unrepresentable (wrap64 (cr_base cbp + rt)) result))
    else Ok (write_capreg env cd result).

(** ** Sealing helpers *)

(** [cseal_common].  The comparison of the cursor with -1 is one of
    [uint64_t] values, so -1 is [UINT64_MAX]. *)
Definition cseal_common (env : CPUMIPSState) (cd cs ct : nat)
    (conditional : bool) : outcome CPUMIPSState :=
  let csp := get_readonly_capreg (active_tc env) cs in
  let ctp := get_readonly_capreg (active_tc env) ct in
  let ct_base_plus_offset := cap_get_cursor ctp in
  if negb (cr_tag csp) then Trap (C2E CP2Ca_TAG cs) env
  else if negb (cr_tag ctp) then
    if conditional then Ok (write_capreg env cd csp)
    else Trap (C2E CP2Ca_TAG ct) env
  else if conditional && (cap_get_cursor ctp =? UINT64_MAX) then
    Ok (write_capreg env cd csp)
  else if is_cap_sealed csp then Trap (C2E CP2Ca_SEAL cs) env
  else if is_cap_sealed ctp then Trap (C2E CP2Ca_SEAL ct) env
  else if negb (has_perm ctp CAP_PERM_SEAL) then
    Trap (C2E CP2Ca_PERM_SEAL ct) env
  else if negb (cap_is_in_bounds ctp ct_base_plus_offset 1) then
    Trap (C2E CP2Ca_LENGTH ct) env
  else if CAP_MAX_SEALED_OTYPE <? ct_base_plus_offset then
    Trap (C2E CP2Ca_LENGTH ct) env
  else if negb (is_representable_cap_when_sealed csp (cap_get_offset csp)) then
    Trap (C2E CP2Ca_INEXACT cs) env
  else
    let result := cap_set_sealed csp (wrap32 ct_base_plus_offset) in
    Ok (write_capreg env cd result).

(** [helper_cseal]: CSeal. *)
Definition helper_cseal (env : CPUMIPSState) (cd cs ct : nat)
  : outcome CPUMIPSState :=
  cseal_common env cd cs ct false.

(** [helper_ccseal]: CCSeal, seal conditionally. *)
Definition helper_ccseal (env : CPUMIPSState) (cd cs ct : nat)
  : outcome CPUMIPSState :=
  cseal_common env cd cs ct true.

(** The capability [helper_cunseal] writes: [cs] with GLOBAL kept only if
    [ct] has it too, then unsealed. *)
Definition cunseal_result (csp ctp : cap_register) : cap_register :=
  let result :=
    if has_perm csp CAP_PERM_GLOBAL && has_perm ctp CAP_PERM_GLOBAL
    then set_cr_perms (Z.lor (cr_perms csp) CAP_PERM_GLOBAL) csp
    else set_cr_perms (Z.land (cr_perms csp) (Z.lnot CAP_PERM_GLOBAL)) csp in
  cap_set_unsealed result.

(** [helper_cunseal]: CUnseal, unseal a sealed capability. *)
Definition helper_cunseal (env : CPUMIPSState) (cd cs ct : nat)
  : outcome CPUMIPSState :=
  let csp := get_readonly_capreg (active_tc env) cs in
  let ctp := get_readonly_capreg (active_tc env) ct in
  let ct_cursor := cap_get_cursor ctp in
  if negb (cr_tag csp) then Trap (C2E CP2Ca_TAG cs) env
  else if negb (cr_tag ctp) then Trap (C2E CP2Ca_TAG ct) env
  else if cap_is_unsealed csp then Trap (C2E CP2Ca_SEAL cs) env
  else if negb (cap_is_unsealed ctp) then Trap (C2E CP2Ca_SEAL ct) env
  else if negb (ct_cursor =? cr_otype csp) || negb (cap_is_sealed_with_type csp)
  then Trap (C2E CP2Ca_TYPE ct) env
  else if negb (has_perm ctp CAP_PERM_UNSEAL) then
    Trap (C2E CP2Ca_PERM_UNSEAL ct) env
  else if negb (cap_is_in_bounds ctp ct_cursor 1) then
    Trap (C2E CP2Ca_LENGTH ct) env
  else if CAP_MAX_SEALED_OTYPE <=? ct_cursor then
    Trap (C2E CP2Ca_LENGTH ct) env
  else Ok (write_capreg env cd (cunseal_result csp ctp)).

(** ** Bounds *)

(** The three monotonicity asserts that close [do_setbounds], followed by
    the write of the result. *)
Definition setbounds_commit (env : CPUMIPSState) (cd : nat)
    (cbp result : cap_register) : outcome CPUMIPSState :=
  if negb (cr_base cbp <=? cr_base result) then AssertFail
  else if negb (cap_get_length65 result <=? cap_get_length65 cbp) then AssertFail
  else if negb (cap_get_top65 result <=? cap_get_top65 cbp) then AssertFail
  else Ok (write_capreg env cd result).

(** [do_setbounds].  [new_top] is computed in 128 bits and does not wrap;
    the compressed build goes through [cc128_setbounds], the other sets
    the bounds as requested. *)
Definition do_setbounds (must_be_exact : bool) (env : CPUMIPSState)
    (cd cb : nat) (length : Z) : outcome CPUMIPSState :=
  let cbp := get_readonly_capreg (active_tc env) cb in
  let cursor := cap_get_cursor cbp in
  let new_top := cursor + length in
  if negb (cr_tag cbp) then Trap (C2E CP2Ca_TAG cb) env
  else if is_cap_sealed cbp then Trap (C2E CP2Ca_SEAL cb) env
  else if cursor <? cr_base cbp then Trap (C2E CP2Ca_LENGTH cb) env
  else if UINT64_MAX <? new_top then Trap (C2E CP2Ca_LENGTH cb) env
  else if cap_get_top cbp <? new_top then Trap (C2E CP2Ca_LENGTH cb) env
  else if CHERI_128 then
    let '(result, exact) := cc128_setbounds cbp cursor new_top in
    let env1 :=
      if exact then env
      else set_imprecise_setbounds
             (wrap64 (statcounters_imprecise_setbounds env + 1)) env in
    if must_be_exact && negb exact then Trap (C2E CP2Ca_INEXACT cb) env1
    else if negb (cc128_is_representable_cap_exact result) then AssertFail
    else setbounds_commit env1 cd cbp result
  else
    let result := set_cr_offset 0 (set_cr_top new_top (set_cr_base cursor cbp)) in
    setbounds_commit env cd cbp result.

(** [helper_csetbounds]: CSetBounds. *)
Definition helper_csetbounds (env : CPUMIPSState) (cd cb : nat) (rt : Z)
  : outcome CPUMIPSState :=
  do_setbounds false env cd cb rt.

(** [helper_csetboundsexact]: CSetBoundsExact. *)
Definition helper_csetboundsexact (env : CPUMIPSState) (cd cb : nat) (rt : Z)
  : outcome CPUMIPSState :=
  do_setbounds true env cd cb rt.

(** ** Tag memory and data memory *)

(** Modelled from the spec: the tag memory of cheri_tagmem.c keeps one
    tag bit per aligned capability-sized line; [tag_line] is the number of
    the line an address falls in.  Address translation, and the TLB fault
    it may end in, are outside the model. *)
Definition tag_line (vaddr : Z) : Z := vaddr / CHERI_CAP_SIZE.

(** Modelled from the spec: [cheri_tag_get] (cheri_tagmem.c), the tag of
    the line of an address. *)
Definition cheri_tag_get (env : CPUMIPSState) (vaddr : Z) : bool :=
  bool_decide (tag_line vaddr ∈ tagmem env).

(** Modelled from the spec: [cheri_tag_set] (cheri_tagmem.c) sets the tag
    of the line of an address. *)
Definition cheri_tag_set (env : CPUMIPSState) (vaddr : Z) : CPUMIPSState :=
  set_tagmem ({[ tag_line vaddr ]} ∪ tagmem env) env.

(** Modelled from the spec: [cheri_tag_invalidate] (cheri_tagmem.c) clears
    the tag of every line that the bytes [vaddr, vaddr + size) overlap. *)
Definition cheri_tag_invalidate (env : CPUMIPSState) (vaddr size : Z)
  : CPUMIPSState :=
  set_tagmem
    (filter (fun l => ¬ (tag_line vaddr <= l <= tag_line (vaddr + size - 1)))
            (tagmem env))
    env.

(** Modelled from the spec: [cpu_stq_data_ra], the eight-byte store
    [stq(addr, value)] to memory. *)
Definition cpu_stq_data_ra (env : CPUMIPSState) (vaddr value : Z)
  : CPUMIPSState :=
  set_memory (<[ wrap64 vaddr := wrap64 value ]> (memory env)) env.

(** ** Capability store *)

(** [(int32_t)offset] for the [uint32_t] offset operand. *)
Definition int32_of_uint32 (x : Z) : Z :=
  if wrap32 x <? 2 ^ 31 then wrap32 x else wrap32 x - 2 ^ 32.

(** [get_csc_addr]: the checks of a capability store and the address it
    goes to; register 0 as [cb] stands for DDC. *)
Definition get_csc_addr (env : CPUMIPSState) (cs cb : nat) (rt offset : Z)
  : outcome Z :=
  let cbp := get_capreg_0_is_ddc (active_tc env) cb in
  let csp := get_readonly_capreg (active_tc env) cs in
  if negb (cr_tag cbp) then Trap (C2E CP2Ca_TAG cb) env
  else if is_cap_sealed cbp then Trap (C2E CP2Ca_SEAL cb) env
  else if negb (has_perm cbp CAP_PERM_STORE) then
    Trap (C2E CP2Ca_PERM_ST cb) env
  else if negb (has_perm cbp CAP_PERM_STORE_CAP) then
    Trap (C2E CP2Ca_PERM_ST_CAP cb) env
  else if negb (has_perm cbp CAP_PERM_STORE_LOCAL) && cr_tag csp
          && negb (has_perm csp CAP_PERM_GLOBAL) then
    Trap (C2E CP2Ca_PERM_ST_LC_CAP cb) env
  else
    let cursor := cap_get_cursor cbp in
    let addr := wrap64 (cursor + rt + int32_of_uint32 offset) in
    if negb (cap_is_in_bounds cbp addr CHERI_CAP_SIZE) then
      Trap (C2E CP2Ca_LENGTH cb) env
    else if nonzero (align_of CHERI_CAP_SIZE addr) then
      Trap (EXCP_AdES addr) env
    else Ok addr.

(** [store_cap_to_memory], in its compressed and its uncompressed
    variant: the tag of the line is set or invalidated first, then the
    words are stored. *)
Definition store_cap_to_memory (env : CPUMIPSState) (cs : nat) (vaddr : Z)
  : CPUMIPSState :=
  let csp := get_readonly_capreg (active_tc env) cs in
  let env1 := set_cap_write (wrap64 (statcounters_cap_write env + 1)) env in
  let env2 :=
    if cr_tag csp then
      cheri_tag_set
        (set_cap_write_tagged
           (wrap64 (statcounters_cap_write_tagged env1 + 1)) env1)
        vaddr
    else cheri_tag_invalidate env1 vaddr CHERI_CAP_SIZE in
  if CHERI_128 then
    let cursor := cap_get_cursor csp in
    let pesbt :=
      if cr_tag csp then compress_128cap csp
      else cr_pesbt_xored_for_mem csp in
    cpu_stq_data_ra (cpu_stq_data_ra env2 vaddr pesbt) (vaddr + 8) cursor
  else
    let mem_buffer := compress_256cap csp in
    cpu_stq_data_ra
      (cpu_stq_data_ra
         (cpu_stq_data_ra
            (cpu_stq_data_ra env2 (vaddr + 0) (mem_buffer 0%nat))
            (vaddr + 8) (mem_buffer 1%nat))
         (vaddr + 16) (mem_buffer 2%nat))
      (vaddr + 24) (mem_buffer 3%nat).

(** [helper_csc_without_tcg]: CSC, store a capability. *)
Definition helper_csc_without_tcg (env : CPUMIPSState) (cs cb : nat)
    (rt offset : Z) : outcome CPUMIPSState :=
  vaddr ← get_csc_addr env cs cb rt offset;
  Ok (store_cap_to_memory env cs vaddr).

(** ** The debugger's view of the capability registers *)

(** [stq_p] into the reply buffer of the gdb stub, which is addressed
    here by the byte offset of each 64-bit word stored into it. *)
Definition stq_p (mem_buf : gmap Z Z) (off v : Z) : gmap Z Z :=
  <[ off := wrap64 v ]> mem_buf.

(** [gdb_get_regl] for the 64-bit target: the value goes to the start of
    the buffer, the size returned is 8. *)
Definition gdb_get_regl (mem_buf : gmap Z Z) (val : Z) : gmap Z Z * Z :=
  (stq_p mem_buf 0 val, 8).

(** [gdb_get_capreg]: the words of a capability in the reply buffer, two
    in the compressed build and four in the uncompressed one. *)
Definition gdb_get_capreg (mem_buf : gmap Z Z) (cap : cap_register)
  : gmap Z Z * Z :=
  if CHERI_128 then
    let b0 := stq_p mem_buf 0
                (if cr_tag cap then compress_128cap cap
                 else cr_pesbt_xored_for_mem cap) in
    (stq_p b0 8 (cap_get_cursor cap), 16)
  else
    let memory_representation := compress_256cap cap in
    let b0 := stq_p mem_buf 0 (memory_representation 0%nat) in
    let b1 := stq_p b0 8 (memory_representation 1%nat) in
    let b2 := stq_p b1 16 (memory_representation 2%nat) in
    (stq_p b2 24 (memory_representation 3%nat), 32).

(** One turn of the loop [for (i = 1; i < 32; i++)] of register 43. *)
Definition cap_valid_step (tc : TCState) (cap_valid : Z) (i : nat) : Z :=
  if cr_tag (CGPR_at tc i) then Z.lor cap_valid (Z.shiftl 1 (Z.of_nat i))
  else cap_valid.

(** The bitset of register 43. *)
Definition cap_valid_bits (tc : TCState) : Z :=
  let cap_valid := 0 in
  let cap_valid :=
    if cr_tag (DDC (CHWR tc)) then Z.lor cap_valid 1 else cap_valid in
  let cap_valid := fold_left (cap_valid_step tc) (seq 1 31) cap_valid in
  if cr_tag (PCC tc) then Z.lor cap_valid (Z.shiftl 1 32) else cap_valid.

(** [mips_gdb_get_cheri_reg].  The C function receives the state by
    pointer; the state is returned next to the buffer and the size, so
    that what the read does to it can be stated. *)
Definition mips_gdb_get_cheri_reg (env : CPUMIPSState) (mem_buf : gmap Z Z)
    (n : Z) : CPUMIPSState * (gmap Z Z * Z) :=
  let tc := active_tc env in
  if n <? 32 then (env, gdb_get_capreg mem_buf (CGPR_at tc (Z.to_nat n)))
  else if n =? 32 then (env, gdb_get_capreg mem_buf (DDC (CHWR tc)))
  else if n =? 33 then (env, gdb_get_capreg mem_buf (PCC tc))
  else if n =? 34 then (env, gdb_get_capreg mem_buf (UserTlsCap (CHWR tc)))
  else if n =? 35 then (env, gdb_get_capreg mem_buf (PrivTlsCap (CHWR tc)))
  else if n =? 36 then (env, gdb_get_capreg mem_buf (KR1C (CHWR tc)))
  else if n =? 37 then (env, gdb_get_capreg mem_buf (KR2C (CHWR tc)))
  else if n =? 38 then (env, gdb_get_capreg mem_buf (KCC (CHWR tc)))
  else if n =? 39 then (env, gdb_get_capreg mem_buf (KDC (CHWR tc)))
  else if n =? 40 then (env, gdb_get_capreg mem_buf (EPCC (CHWR tc)))
  else if n =? 41 then (env, gdb_get_capreg mem_buf (ErrorEPCC (CHWR tc)))
  else if n =? 42 then (env, gdb_get_regl mem_buf (CP2_CapCause env))
  else if n =? 43 then (env, gdb_get_regl mem_buf (cap_valid_bits tc))
  else (env, (mem_buf, 0)).

(** ** Further instruction helpers *)

(** Writes to the fields that the helpers below assign. *)
Definition set_CHWR (h : CHWR_t) (tc : TCState) : TCState :=
  mkTC (_CGPR tc) h (PCC tc) (CapBranchTarget tc).

Definition set_DDC (c : cap_register) (h : CHWR_t) : CHWR_t :=
  mkCHWR c (UserTlsCap h) (PrivTlsCap h) (KR1C h) (KR2C h) (KCC h) (KDC h)
         (EPCC h) (ErrorEPCC h).

Definition set_CapBranchTarget (c : cap_register) (tc : TCState) : TCState :=
  mkTC (_CGPR tc) (CHWR tc) (PCC tc) c.

Definition set_CP2_CapCause (v : Z) (env : CPUMIPSState) : CPUMIPSState :=
  mkEnv (active_tc env) v (CP0_BadVAddr env) (error_code env)
        (statcounters_imprecise_setbounds env)
        (statcounters_unrepresentable_caps env)
        (statcounters_cap_write env) (statcounters_cap_write_tagged env)
        (tagmem env) (memory env).

(** Modelled from the spec: [cap_make_sealed_entry] (cpu.h) turns a
    capability into a sentry: its otype becomes the sentry otype. *)
Definition cap_make_sealed_entry (c : cap_register) : cap_register :=
  set_cr_otype CAP_OTYPE_SENTRY c.

(** Modelled from the spec: [cap_unseal_entry] (cpu.h) clears the sentry
    flag: the otype becomes the unsealed one. *)
Definition cap_unseal_entry (c : cap_register) : cap_register :=
  set_cr_otype CAP_OTYPE_UNSEALED c.

(** [(int64_t)x] for a [uint64_t] value. *)
Definition int64_of_uint64 (x : Z) : Z :=
  if x <? 2 ^ 63 then x else x - 2 ^ 64.

(** A C truth value as [target_ulong]. *)
Definition Z_of_bool (b : bool) : Z := if b then 1 else 0.

(** *** Branches on the tag *)

(** [helper_cbts]: CBTS, branch if the tag is set. *)
Definition helper_cbts (env : CPUMIPSState) (cb : nat) (offset : Z) : Z :=
  let cbp := get_readonly_capreg (active_tc env) cb in
  Z_of_bool (cr_tag cbp).

(** [helper_cbtu]: CBTU, branch if the tag is unset. *)
Definition helper_cbtu (env : CPUMIPSState) (cb : nat) (offset : Z) : Z :=
  let cbp := get_readonly_capreg (active_tc env) cb in
  Z_of_bool (negb (cr_tag cbp)).

(** *** Domain crossing *)

(** The selectors of CCall and the number of the register that receives
    the invoked data capability are macros of cpu.h. *)
Class CallConstants : Type := {
  CCALL_SELECTOR_0 : Z;
  CCALL_SELECTOR_1 : Z;
  CP2CAP_IDC : nat
}.

Context {C : CallConstants}.

(** [ccall_common]: CCall, call into a new security domain.  [csp] points
    into the register file, so what is read through it after the write of
    IDC is read from the file as it is then. *)
Definition ccall_common (env : CPUMIPSState) (cs cb : nat) (selector : Z)
  : outcome (CPUMIPSState * Z) :=
  let csp := get_readonly_capreg (active_tc env) cs in
  let cbp := get_readonly_capreg (active_tc env) cb in
  if negb (cr_tag csp) then Trap (C2E CP2Ca_TAG cs) env
  else if negb (cr_tag cbp) then Trap (C2E CP2Ca_TAG cb) env
  else if negb (cap_is_sealed_with_type csp) then Trap (C2E CP2Ca_SEAL cs) env
  else if negb (cap_is_sealed_with_type cbp) then Trap (C2E CP2Ca_SEAL cb) env
  else if negb (cr_otype csp =? cr_otype cbp)
          || (CAP_MAX_SEALED_OTYPE <? cr_otype csp) then
    Trap (C2E CP2Ca_TYPE cs) env
  else if negb (has_perm csp CAP_PERM_EXECUTE) then
    Trap (C2E CP2Ca_PERM_EXE cs) env
  else if has_perm cbp CAP_PERM_EXECUTE then
    Trap (C2E CP2Ca_PERM_EXE cb) env
  else if negb (cap_is_in_bounds csp (cap_get_cursor csp) 1) then
    Trap (C2E CP2Ca_LENGTH cs) env
  else if selector =? CCALL_SELECTOR_0 then Trap (C2E CP2Ca_CALL cs) env
  else if negb (has_perm csp CAP_PERM_CCALL) then
    Trap (C2E CP2Ca_PERM_CCALL cs) env
  else if negb (has_perm cbp CAP_PERM_CCALL) then
    Trap (C2E CP2Ca_PERM_CCALL cb) env
  else
    let idc := cap_set_unsealed cbp in
    let tc1 := update_capreg (active_tc env) CP2CAP_IDC idc in
    let tc2 :=
      set_CapBranchTarget (cap_set_unsealed (get_readonly_capreg tc1 cs)) tc1 in
    Ok (set_active_tc tc2 env, cap_get_cursor (get_readonly_capreg tc2 cs)).

(** [helper_ccall]: the result of [ccall_common] is dropped. *)
Definition helper_ccall (env : CPUMIPSState) (cs cb : nat)
  : outcome CPUMIPSState :=
  r ← ccall_common env cs cb CCALL_SELECTOR_0;
  Ok (fst r).

(** [helper_ccall_notrap]. *)
Definition helper_ccall_notrap (env : CPUMIPSState) (cs cb : nat)
  : outcome (CPUMIPSState * Z) :=
  ccall_common env cs cb CCALL_SELECTOR_1.

(** [helper_creturn]. *)
Definition helper_creturn (env : CPUMIPSState) : outcome CPUMIPSState :=
  Trap (C2E_noreg CP2Ca_RETURN) env.

(** One turn of the loop [for (creg = 1; creg < 32; creg++)] of
    [helper_cclearreg].  [0x1 << creg] is met with the [uint32_t] mask, so
    for register 31 it is the top bit of the mask. *)
Definition cclearreg_step (mask : Z) (tc : TCState) (creg : nat) : TCState :=
  if nonzero (Z.land mask (Z.shiftl 1 (Z.of_nat creg)))
  then set_CGPR (<[creg := null_capability]> (_CGPR tc)) tc
  else tc.

(** [helper_cclearreg]: bit 0 of the mask stands for DDC, bit i for
    capability register i. *)
Definition helper_cclearreg (env : CPUMIPSState) (mask : Z) : CPUMIPSState :=
  let tc := active_tc env in
  let tc1 :=
    if nonzero (Z.land mask 1)
    then set_CHWR (set_DDC null_capability (CHWR tc)) tc
    else tc in
  set_active_tc (fold_left (cclearreg_step mask) (seq 1 31) tc1) env.

(** [helper_cchecktype]: CCheckType, raise an exception if the otypes do
    not match. *)
Definition helper_cchecktype (env : CPUMIPSState) (cs cb : nat)
  : outcome CPUMIPSState :=
  let csp := get_readonly_capreg (active_tc env) cs in
  let cbp := get_readonly_capreg (active_tc env) cb in
  if negb (cr_tag csp) then Trap (C2E CP2Ca_TAG cs) env
  else if negb (cr_tag cbp) then Trap (C2E CP2Ca_TAG cb) env
  else if negb (is_cap_sealed csp) then Trap (C2E CP2Ca_SEAL cs) env
  else if negb (is_cap_sealed cbp) then Trap (C2E CP2Ca_SEAL cb) env
  else if negb (cr_otype csp =? cr_otype cbp)
          || (CAP_MAX_SEALED_OTYPE <? cr_otype csp) then
    Trap (C2E CP2Ca_TYPE cs) env
  else Ok env.

(** [helper_ccleartag]: CClearTag; the compressed build saves the
    compressed bits of the untagged result in its pesbt word. *)
Definition helper_ccleartag (env : CPUMIPSState) (cd cb : nat)
  : CPUMIPSState :=
  let cbp := get_readonly_capreg (active_tc env) cb in
  let result := set_cr_tag false cbp in
  let result :=
    if CHERI_128 then
      mkCap (cr_tag result) (cr_base result) (_cr_top result)
            (cr_offset result) (cr_perms result) (cr_uperms result)
            (cr_otype result) (compress_128cap result)
    else result in
  write_capreg env cd result.

(** *** Reading the fields of a capability *)

(** [helper_cgetaddr]: CGetAddr. *)
Definition helper_cgetaddr (env : CPUMIPSState) (cb : nat) : Z :=
  let cbp := get_readonly_capreg (active_tc env) cb in
  cap_get_cursor cbp.

(** [helper_cgetbase]: CGetBase. *)
Definition helper_cgetbase (env : CPUMIPSState) (cb : nat) : Z :=
  cr_base (get_readonly_capreg (active_tc env) cb).

(** [helper_cgetlen]: CGetLen; the length 2^64 reads as [UINT64_MAX]. *)
Definition helper_cgetlen (env : CPUMIPSState) (cb : nat) : Z :=
  cap_get_length (get_readonly_capreg (active_tc env) cb).

(** [helper_cgetoffset]: CGetOffset. *)
Definition helper_cgetoffset (env : CPUMIPSState) (cb : nat) : Z :=
  cr_offset (get_readonly_capreg (active_tc env) cb).

(** [helper_cgetperm]: CGetPerm; the permissions in the low bits and the
    user permissions from bit [CAP_UPERMS_SHFT], computed in [uint32_t]. *)
Definition helper_cgetperm (env : CPUMIPSState) (cb : nat) : Z :=
  let cbp := get_readonly_capreg (active_tc env) cb in
  Z.lor (Z.land (cr_perms cbp) CAP_PERMS_ALL)
        (wrap32 (Z.shiftl (Z.land (cr_uperms cbp) CAP_UPERMS_ALL)
                          CAP_UPERMS_SHFT)).

(** [helper_cgetsealed]: CGetSealed. *)
Definition helper_cgetsealed (env : CPUMIPSState) (cb : nat) : Z :=
  let cbp := get_readonly_capreg (active_tc env) cb in
  if cap_is_sealed_with_type cbp || cap_is_sealed_entry cbp then 1 else 0.

(** [helper_cgettag]: CGetTag. *)
Definition helper_cgettag (env : CPUMIPSState) (cb : nat) : Z :=
  Z_of_bool (cr_tag (get_readonly_capreg (active_tc env) cb)).

(** [helper_cgetcause]: CGetCause, for a PCC with ACCESS_SYS_REGS. *)
Definition helper_cgetcause (env : CPUMIPSState) : outcome Z :=
  let perms := cr_perms (PCC (active_tc env)) in
  if negb (nonzero (Z.land perms CAP_ACCESS_SYS_REGS)) then
    Trap (C2E_noreg CP2Ca_ACCESS_SYS_REGS) env
  else Ok (CP2_CapCause env).

(** [helper_csetcause]: CSetCause keeps the low 16 bits of [rt]. *)
Definition helper_csetcause (env : CPUMIPSState) (rt : Z)
  : outcome CPUMIPSState :=
  let perms := cr_perms (PCC (active_tc env)) in
  if negb (nonzero (Z.land perms CAP_ACCESS_SYS_REGS)) then
    Trap (C2E_noreg CP2Ca_ACCESS_SYS_REGS) env
  else Ok (set_CP2_CapCause (Z.land rt 65535) env).

(** [helper_cgetpcc]: CGetPCC. *)
Definition helper_cgetpcc (env : CPUMIPSState) (cd : nat) : CPUMIPSState :=
  write_capreg env cd (PCC (active_tc env)).

(** [helper_cgetpccsetoffset]: CGetPCCSetOffset, PCC with a new offset. *)
Definition helper_cgetpccsetoffset (env : CPUMIPSState) (cd : nat) (rs : Z)
  : outcome CPUMIPSState :=
  let pccp := PCC (active_tc env) in
  let result := set_cr_offset rs pccp in
  if negb (is_representable_cap pccp rs) then
    env1 ← (if cr_tag pccp then _became_unrepresentable env cd else Ok env);
    Ok (write_capreg env1 cd
          (cap_mark_unrepresentable (wrap64 (cr_base pccp + rs)) result))
  else Ok (write_capreg env cd result).

(** [helper_csub]: CSub, the difference of two cursors. *)
Definition helper_csub (env : CPUMIPSState) (cb ct : nat) : Z :=
  let cbp := get_readonly_capreg (active_tc env) cb in
  let ctp := get_readonly_capreg (active_tc env) ct in
  wrap64 (cap_get_cursor cbp - cap_get_cursor ctp).

(** [helper_cgetandaddr]. *)
Definition helper_cgetandaddr (env : CPUMIPSState) (cb : nat) (rt : Z) : Z :=
  let addr := helper_cgetaddr env cb in
  Z.land addr rt.

(** *** Moving the cursor to an address *)

(** [helper_csetaddr]: the difference to the requested address goes to
    [cincoffset_impl]. *)
Definition helper_csetaddr (env : CPUMIPSState) (cd cb : nat)
    (target_addr : Z) : outcome CPUMIPSState :=
  let cursor := helper_cgetaddr env cb in
  let diff := wrap64 (target_addr - cursor) in
  cincoffset_impl env cd cb diff.

(** [helper_candaddr]. *)
Definition helper_candaddr (env : CPUMIPSState) (cd cb : nat) (rt : Z)
  : outcome CPUMIPSState :=
  let cursor := helper_cgetaddr env cb in
  let target_addr := Z.land cursor rt in
  let diff := wrap64 (target_addr - cursor) in
  cincoffset_impl env cd cb diff.

(** *** Conditional moves *)

(** [helper_cmovz]: CMOVZ, move if [rs] is zero. *)
Definition helper_cmovz (env : CPUMIPSState) (cd cs : nat) (rs : Z)
  : CPUMIPSState :=
  let csp := get_readonly_capreg (active_tc env) cs in
  if rs =? 0 then write_capreg env cd csp else env.

(** [helper_cmovn]: CMOVZ on the truth value of [rs == 0]. *)
Definition helper_cmovn (env : CPUMIPSState) (cd cs : nat) (rs : Z)
  : CPUMIPSState :=
  helper_cmovz env cd cs (Z_of_bool (rs =? 0)).

(** *** Jumps *)

(** [helper_cjalr]: CJALR, jump and link.  [cbp] points into the register
    file, so the address returned at the end is read from the file after
    the link register has been written. *)
Definition helper_cjalr (env : CPUMIPSState) (cd cb : nat)
  : outcome (CPUMIPSState * Z) :=
  let tc := active_tc env in
  let cbp := get_readonly_capreg tc cb in
  if negb (cr_tag cbp) then Trap (C2E CP2Ca_TAG cb) env
  else if cap_is_sealed_with_type cbp then Trap (C2E CP2Ca_SEAL cb) env
  else if negb (has_perm cbp CAP_PERM_EXECUTE) then
    Trap (C2E CP2Ca_PERM_EXE cb) env
  else if negb (has_perm cbp CAP_PERM_GLOBAL) then
    Trap (C2E CP2Ca_GLOBAL cb) env
  else if negb (cap_is_in_bounds cbp (cap_get_cursor cbp) 4) then
    Trap (C2E CP2Ca_LENGTH cb) env
  else if nonzero (align_of 4 (cap_get_cursor cbp)) then
    Trap (EXCP_AdEL (cap_get_cursor cbp)) env
  else
    let result := set_cr_offset (wrap64 (cr_offset (PCC tc) + 8)) (PCC tc) in
    let tc1 := set_CapBranchTarget cbp tc in
    let tc2 :=
      if cap_is_sealed_entry cbp
      then set_CapBranchTarget (cap_unseal_entry (CapBranchTarget tc1)) tc1
      else tc1 in
    let result :=
      if cap_is_sealed_entry cbp then cap_make_sealed_entry result
      else result in
    let tc3 := update_capreg tc2 cd result in
    Ok (set_active_tc tc3 env, cap_get_cursor (get_readonly_capreg tc3 cb)).

(** [helper_cjr]: CJR, jump. *)
Definition helper_cjr (env : CPUMIPSState) (cb : nat)
  : outcome (CPUMIPSState * Z) :=
  let tc := active_tc env in
  let cbp := get_readonly_capreg tc cb in
  if negb (cr_tag cbp) then Trap (C2E CP2Ca_TAG cb) env
  else if cap_is_sealed_with_type cbp then Trap (C2E CP2Ca_SEAL cb) env
  else if negb (has_perm cbp CAP_PERM_EXECUTE) then
    Trap (C2E CP2Ca_PERM_EXE cb) env
  else if negb (has_perm cbp CAP_PERM_GLOBAL) then
    Trap (C2E CP2Ca_GLOBAL cb) env
  else if negb (cap_is_in_bounds cbp (cap_get_cursor cbp) 4) then
    Trap (C2E CP2Ca_LENGTH cb) env
  else if nonzero (align_of 4 (cap_get_cursor cbp)) then
    Trap (EXCP_AdEL (cap_get_cursor cbp)) env
  else
    let tc1 := set_CapBranchTarget cbp tc in
    let tc2 :=
      if cap_is_sealed_entry cbp
      then set_CapBranchTarget (cap_unseal_entry (CapBranchTarget tc1)) tc1
      else tc1 in
    Ok (set_active_tc tc2 env, cap_get_cursor cbp).

(** *** Sentries and rebuilt capabilities *)

(** [helper_csealentry]: CSealEntry, seal a code capability so that it
    can only be jumped to. *)
Definition helper_csealentry (env : CPUMIPSState) (cd cs : nat)
  : outcome CPUMIPSState :=
  let csp := get_readonly_capreg (active_tc env) cs in
  if negb (cr_tag csp) then Trap (C2E CP2Ca_TAG cs) env
  else if negb (cap_is_unsealed csp) then Trap (C2E CP2Ca_SEAL cs) env
  else if negb (has_perm csp CAP_PERM_EXECUTE) then
    Trap (C2E CP2Ca_PERM_EXE cs) env
  else Ok (write_capreg env cd (cap_make_sealed_entry csp)).

(** [helper_cbuildcap]: CBuildCap, a capability with the fields of the
    untagged [ct] and the tag of [cb]; register 0 as [cb] stands for
    DDC. *)
Definition helper_cbuildcap (env : CPUMIPSState) (cd cb ct : nat)
  : outcome CPUMIPSState :=
  let cbp := get_capreg_0_is_ddc (active_tc env) cb in
  let ctp := get_readonly_capreg (active_tc env) ct in
  if negb (cr_tag cbp) then Trap (C2E CP2Ca_TAG cb) env
  else if is_cap_sealed cbp then Trap (C2E CP2Ca_SEAL cb) env
  else if cr_base ctp <? cr_base cbp then Trap (C2E CP2Ca_LENGTH cb) env
  else if cap_get_top cbp <? cap_get_top ctp then
    Trap (C2E CP2Ca_LENGTH cb) env
  else if negb (Z.land (cr_perms ctp) (cr_perms cbp) =? cr_perms ctp) then
    Trap (C2E CP2Ca_USRDEFINE cb) env
  else if negb (Z.land (cr_uperms ctp) (cr_uperms cbp) =? cr_uperms ctp) then
    Trap (C2E CP2Ca_USRDEFINE cb) env
  else
    let result :=
      set_cr_offset (cr_offset ctp)
        (set_cr_uperms (cr_uperms ctp)
           (set_cr_perms (cr_perms ctp)
              (set_cr_top (_cr_top ctp) (set_cr_base (cr_base ctp) cbp)))) in
    let result :=
      if cap_is_sealed_entry ctp then cap_make_sealed_entry result
      else set_cr_otype CAP_OTYPE_UNSEALED result in
    Ok (write_capreg env cd result).

(** [helper_ctoptr]: CToPtr, capability to pointer; register 0 as [ct]
    stands for DDC. *)
Definition helper_ctoptr (env : CPUMIPSState) (cb ct : nat) : outcome Z :=
  let cbp := get_readonly_capreg (active_tc env) cb in
  let ctp := get_capreg_0_is_ddc (active_tc env) ct in
  let cb_cursor := cap_get_cursor cbp in
  let ct_top := cap_get_top ctp in
  if negb (cr_tag ctp) then Trap (C2E CP2Ca_TAG ct) env
  else if negb (cr_tag cbp) then Ok 0
  else if (cb_cursor <? cr_base ctp) || (ct_top <? cb_cursor) then Ok 0
  else if cb_cursor <? cr_base ctp then Ok (wrap64 (cr_base ctp - cb_cursor))
  else Ok (wrap64 (cb_cursor - cr_base ctp)).

(** *** Pointer comparison *)

(** [helper_ceq]: CEQ, capability pointers equal. *)
Definition helper_ceq (env : CPUMIPSState) (cb ct : nat) : Z :=
  let cbp := get_readonly_capreg (active_tc env) cb in
  let ctp := get_readonly_capreg (active_tc env) ct in
  let equal :=
    if negb (eqb (cr_tag cbp) (cr_tag ctp)) then false
    else cap_get_cursor cbp =? cap_get_cursor ctp in
  Z_of_bool equal.

(** [helper_cne]: CNE. *)
Definition helper_cne (env : CPUMIPSState) (cb ct : nat) : Z :=
  let cbp := get_readonly_capreg (active_tc env) cb in
  let ctp := get_readonly_capreg (active_tc env) ct in
  let equal :=
    if negb (eqb (cr_tag cbp) (cr_tag ctp)) then false
    else cap_get_cursor cbp =? cap_get_cursor ctp in
  Z_of_bool (negb equal).

(** [helper_clt]: CLT, less than on the cursors as [int64_t]. *)
Definition helper_clt (env : CPUMIPSState) (cb ct : nat) : Z :=
  let cbp := get_readonly_capreg (active_tc env) cb in
  let ctp := get_readonly_capreg (active_tc env) ct in
  let signed_less :=
    if negb (eqb (cr_tag cbp) (cr_tag ctp)) then
      if cr_tag cbp then false else true
    else
      int64_of_uint64 (cap_get_cursor cbp)
      <? int64_of_uint64 (cap_get_cursor ctp) in
  Z_of_bool signed_less.

(** [helper_cle]: CLE. *)
Definition helper_cle (env : CPUMIPSState) (cb ct : nat) : Z :=
  let cbp := get_readonly_capreg (active_tc env) cb in
  let ctp := get_readonly_capreg (active_tc env) ct in
  let signed_lte :=
    if negb (eqb (cr_tag cbp) (cr_tag ctp)) then
      if cr_tag cbp then false else true
    else
      int64_of_uint64 (cap_get_cursor cbp)
      <=? int64_of_uint64 (cap_get_cursor ctp) in
  Z_of_bool signed_lte.

(** [helper_cltu]: CLTU, less than on the cursors as [uint64_t]. *)
Definition helper_cltu (env : CPUMIPSState) (cb ct : nat) : Z :=
  let cbp := get_readonly_capreg (active_tc env) cb in
  let ctp := get_readonly_capreg (active_tc env) ct in
  let ltu :=
    if negb (eqb (cr_tag cbp) (cr_tag ctp)) then
      if cr_tag cbp then false else true
    else cap_get_cursor cbp <? cap_get_cursor ctp in
  Z_of_bool ltu.

(** [helper_cleu]: CLEU. *)
Definition helper_cleu (env : CPUMIPSState) (cb ct : nat) : Z :=
  let cbp := get_readonly_capreg (active_tc env) cb in
  let ctp := get_readonly_capreg (active_tc env) ct in
  let leu :=
    if negb (eqb (cr_tag cbp) (cr_tag ctp)) then
      if cr_tag cbp then false else true
    else cap_get_cursor cbp <=? cap_get_cursor ctp in
  Z_of_bool leu.

(** [helper_cexeq]: CEXEQ; the fields it compares are the tag, the base,
    the offset, the top, the otype and the permissions. *)
Definition helper_cexeq (env : CPUMIPSState) (cb ct : nat) : Z :=
  let cbp := get_readonly_capreg (active_tc env) cb in
  let ctp := get_readonly_capreg (active_tc env) ct in
  let equal :=
    if negb (eqb (cr_tag cbp) (cr_tag ctp)) then false
    else if negb (cr_base cbp =? cr_base ctp) then false
    else if negb (cr_offset cbp =? cr_offset ctp) then false
    else if negb (_cr_top cbp =? _cr_top ctp) then false
    else if negb (cr_otype cbp =? cr_otype ctp) then false
    else if negb (cr_perms cbp =? cr_perms ctp) then false
    else true in
  Z_of_bool equal.

(** [helper_cnexeq]. *)
Definition helper_cnexeq (env : CPUMIPSState) (cb ct : nat) : Z :=
  let not_equal := if nonzero (helper_cexeq env cb ct) then false else true in
  Z_of_bool not_equal.

(** [helper_ctestsubset]: CTestSubset, whether [ct] is within [cb]. *)
Definition helper_ctestsubset (env : CPUMIPSState) (cb ct : nat) : Z :=
  let cbp := get_readonly_capreg (active_tc env) cb in
  let ctp := get_readonly_capreg (active_tc env) ct in
  let is_subset :=
    eqb (cr_tag cbp) (cr_tag ctp)
    && (cap_get_base cbp <=? cap_get_base ctp)
    && (cap_get_top ctp <=? cap_get_top cbp)
    && (Z.land (cr_perms ctp) (cr_perms cbp) =? cr_perms ctp)
    && (Z.land (cr_uperms ctp) (cr_uperms cbp) =? cr_uperms ctp) in
  Z_of_bool is_subset.

(** *** Loads and stores through a capability *)

(** [helper_cload]: the checks of a data load through [cb] and the
    address it goes to, in the build without CHERI_UNALIGNED; register 0
    stands for DDC.  The comparison of the otype with PCC that follows the
    checks only writes to the log. *)
Definition helper_cload (env : CPUMIPSState) (cb : nat) (rt offset size : Z)
  : outcome Z :=
  let cbp := get_capreg_0_is_ddc (active_tc env) cb in
  if negb (cr_tag cbp) then Trap (C2E CP2Ca_TAG cb) env
  else if is_cap_sealed cbp then Trap (C2E CP2Ca_SEAL cb) env
  else if negb (has_perm cbp CAP_PERM_LOAD) then
    Trap (C2E CP2Ca_PERM_LD cb) env
  else
    let cursor := cap_get_cursor cbp in
    let addr := wrap64 (cursor + rt + int32_of_uint32 offset) in
    if negb (cap_is_in_bounds cbp addr size) then
      Trap (C2E CP2Ca_LENGTH cb) env
    else if nonzero (align_of size addr) then Trap (EXCP_AdEL addr) env
    else Ok addr.

(** [helper_cstore]: the same for a data store. *)
Definition helper_cstore (env : CPUMIPSState) (cb : nat) (rt offset size : Z)
  : outcome Z :=
  let cbp := get_capreg_0_is_ddc (active_tc env) cb in
  if negb (cr_tag cbp) then Trap (C2E CP2Ca_TAG cb) env
  else if is_cap_sealed cbp then Trap (C2E CP2Ca_SEAL cb) env
  else if negb (has_perm cbp CAP_PERM_STORE) then
    Trap (C2E CP2Ca_PERM_ST cb) env
  else
    let cursor := cap_get_cursor cbp in
    let addr := wrap64 (cursor + rt + int32_of_uint32 offset) in
    if negb (cap_is_in_bounds cbp addr size) then
      Trap (C2E CP2Ca_LENGTH cb) env
    else if nonzero (align_of size addr) then Trap (EXCP_AdES addr) env
    else Ok addr.

(** [helper_cstorecond]: the checks of a store conditional, at the cursor
    of [cb]. *)
Definition helper_cstorecond (env : CPUMIPSState) (cb : nat) (size : Z)
  : outcome Z :=
  let cbp := get_capreg_0_is_ddc (active_tc env) cb in
  let addr := cap_get_cursor cbp in
  if negb (cr_tag cbp) then Trap (C2E CP2Ca_TAG cb) env
  else if is_cap_sealed cbp then Trap (C2E CP2Ca_SEAL cb) env
  else if negb (has_perm cbp CAP_PERM_STORE) then
    Trap (C2E CP2Ca_PERM_ST cb) env
  else if negb (cap_is_in_bounds cbp addr size) then
    Trap (C2E CP2Ca_LENGTH cb) env
  else if nonzero (align_of size addr) then Trap (EXCP_AdES addr) env
  else Ok addr.

(** [get_clc_addr]: the checks of a capability load and its address. *)
Definition get_clc_addr (env : CPUMIPSState) (cd cb : nat) (rt offset : Z)
  : outcome Z :=
  let cbp := get_capreg_0_is_ddc (active_tc env) cb in
  if negb (cr_tag cbp) then Trap (C2E CP2Ca_TAG cb) env
  else if is_cap_sealed cbp then Trap (C2E CP2Ca_SEAL cb) env
  else if negb (has_perm cbp CAP_PERM_LOAD) then
    Trap (C2E CP2Ca_PERM_LD cb) env
  else
    let cursor := cap_get_cursor cbp in
    let addr := wrap64 (cursor + rt + int32_of_uint32 offset) in
    if negb (cap_is_in_bounds cbp addr CHERI_CAP_SIZE) then
      Trap (C2E CP2Ca_LENGTH cb) env
    else if nonzero (align_of CHERI_CAP_SIZE addr) then
      Trap (EXCP_AdEL addr) env
    else Ok addr.

(** [get_cscc_addr]: the checks of a conditional capability store, at the
    cursor of [cb]. *)
Definition get_cscc_addr (env : CPUMIPSState) (cs cb : nat) : outcome Z :=
  let cbp := get_capreg_0_is_ddc (active_tc env) cb in
  let csp := get_readonly_capreg (active_tc env) cs in
  let addr := cap_get_cursor cbp in
  if negb (cr_tag cbp) then Trap (C2E CP2Ca_TAG cb) env
  else if is_cap_sealed cbp then Trap (C2E CP2Ca_SEAL cb) env
  else if negb (has_perm cbp CAP_PERM_STORE) then
    Trap (C2E CP2Ca_PERM_ST cb) env
  else if negb (has_perm cbp CAP_PERM_STORE_CAP) then
    Trap (C2E CP2Ca_PERM_ST_CAP cb) env
  else if negb (has_perm cbp CAP_PERM_STORE_LOCAL) && cr_tag csp
          && negb (has_perm csp CAP_PERM_GLOBAL) then
    Trap (C2E CP2Ca_PERM_ST_LC_CAP cb) env
  else if negb (cap_is_in_bounds cbp addr CHERI_CAP_SIZE) then
    Trap (C2E CP2Ca_LENGTH cb) env
  else if nonzero (align_of CHERI_CAP_SIZE addr) then
    Trap (EXCP_AdES addr) env
  else Ok addr.

(** *** Legacy loads and stores, checked against DDC *)

(** [helper_ccheck_store]. *)
Definition helper_ccheck_store (env : CPUMIPSState) (offset len : Z)
  : outcome Z :=
  check_ddc env CAP_PERM_STORE offset len true.

(** [helper_ccheck_load]. *)
Definition helper_ccheck_load (env : CPUMIPSState) (offset len : Z)
  : outcome Z :=
  check_ddc env CAP_PERM_LOAD offset len true.

(** [helper_ccheck_store_right]: the check of swr and sdr on the
    big-endian target.  [low_bits] and [stored_bytes] are [uint32_t],
    [write_offset] is the offset with the low bits cleared, and the low
    bits are added back to the address that [check_ddc] returns. *)
Definition helper_ccheck_store_right (env : CPUMIPSState) (offset len : Z)
  : outcome Z :=
  let low_bits := Z.land (wrap32 offset) (wrap32 (len - 1)) in
  let stored_bytes := wrap32 (low_bits + 1) in
  let write_offset := Z.land offset (Z.lnot (wrap64 (len - 1))) in
  addr ← check_ddc env CAP_PERM_STORE write_offset stored_bytes true;
  Ok (wrap64 (addr + low_bits)).

(** [helper_ccheck_load_right]: the check of lwr and ldr. *)
Definition helper_ccheck_load_right (env : CPUMIPSState) (offset len : Z)
  : outcome Z :=
  let low_bits := Z.land (wrap32 offset) (wrap32 (len - 1)) in
  let loaded_bytes := wrap32 (low_bits + 1) in
  let read_offset := Z.land offset (Z.lnot (wrap64 (len - 1))) in
  addr ← check_ddc env CAP_PERM_LOAD read_offset loaded_bytes true;
  Ok (wrap64 (addr + low_bits)).

(** *** Data stores and the tags *)

(** [helper_cinvalidate_tag_left_right]: swr, sdr, swl and sdl clear the
    tag of the one line of their address. *)
Definition helper_cinvalidate_tag_left_right (env : CPUMIPSState)
    (addr len opc value : Z) : CPUMIPSState :=
  cheri_tag_invalidate env addr 1.

(** [helper_cinvalidate_tag]. *)
Definition helper_cinvalidate_tag (env : CPUMIPSState)
    (addr len opc value : Z) : CPUMIPSState :=
  cheri_tag_invalidate env addr len.

(** [helper_cinvalidate_tag32]. *)
Definition helper_cinvalidate_tag32 (env : CPUMIPSState)
    (addr len opc value : Z) : CPUMIPSState :=
  cheri_tag_invalidate env addr len.

(** *** The histogram of out-of-bounds distances *)

(** The [howmuch] column of [bounds_buckets]. *)
Definition bounds_buckets : list Z :=
  [1; 2; 4; 8; 16; 32; 64; 256; 1024; 4096; 64 * 1024; 1024 * 1024;
   64 * 1024 * 1024].

(** The loop of [out_of_bounds_stat_index] from index [i] on, over the
    buckets that are left. *)
Fixpoint out_of_bounds_stat_index_from (i : nat) (buckets : list Z)
    (howmuch : Z) : nat :=
  match buckets with
  | [] => i
  | b :: rest =>
      if howmuch <=? b then i
      else out_of_bounds_stat_index_from (S i) rest howmuch
  end.

(** [out_of_bounds_stat_index]: the first bucket that holds [howmuch],
    and the number of buckets when there is none. *)
Definition out_of_bounds_stat_index (howmuch : Z) : nat :=
  out_of_bounds_stat_index_from 0 bounds_buckets howmuch.

(** [_howmuch_out_of_bounds]: how far the offset of a tagged capability
    is beyond its length (positive) or before its base (negative); the
    message to the log is left out. *)
Definition _howmuch_out_of_bounds (env : CPUMIPSState) (cr : cap_register)
  : Z :=
  if negb (cr_tag cr) then 0
  else if cr_offset cr =? cap_get_length cr then 1
  else if cap_get_length cr <? cr_offset cr then
    if int64_of_uint64 (cr_offset cr) <? int64_of_uint64 (cap_get_length cr)
    then int64_of_uint64 (cr_offset cr)
    else int64_of_uint64 (wrap64 (cr_offset cr - cap_get_length cr + 1))
  else 0.

(** The keys by which the pointer comparisons order two capabilities:
    the tag first, untagged before tagged, then the cursor, as an
    unsigned or as a signed 64-bit number. *)
Definition unsigned_order_key (c : cap_register) : Z :=
  (if cr_tag c then 2 ^ 64 else 0) + cap_get_cursor c.

Definition signed_order_key (c : cap_register) : Z :=
  (if cr_tag c then 2 ^ 64 else 0) + int64_of_uint64 (cap_get_cursor c).



(** The test both branch helpers make. *)
Definition is_null_sentinel (c : cap_register) : Prop :=
  cr_base c = 0 /\ cr_tag c = false /\ cr_offset c = 0.

(** ** The corrected claims as they were stated *)

(** C2 as stated: under the four conditions on the source, SetBounds
    writes a capability within the bounds of the source, and
    SetBoundsExact writes one of exactly the requested length or raises
    INEXACT. *)
Definition setbounds_as_stated : Prop :=
  forall env cd cb length,
    let cbp := get_readonly_capreg (active_tc env) cb in
    0 <= length <= UINT64_MAX ->
    cr_tag cbp = true -> cap_is_unsealed cbp = true ->
    cr_base cbp <= cap_get_cursor cbp ->
    cap_get_cursor cbp + length <= _cr_top cbp ->
    (exists env' result,
        helper_csetbounds env cd cb length = Ok env'
        /\ active_tc env' = update_capreg (active_tc env) cd result
        /\ cr_base cbp <= cr_base result
        /\ _cr_top result <= _cr_top cbp)
    /\ ((exists env' result,
            helper_csetboundsexact env cd cb length = Ok env'
            /\ active_tc env' = update_capreg (active_tc env) cd result
            /\ cap_get_length65 result = length)
        \/ (exists env',
               helper_csetboundsexact env cd cb length
               = Trap (C2E CP2Ca_INEXACT cb) env')).

(** C3 as stated: the two branch helpers return the same value, non-zero
    exactly on the null sentinel. *)
Definition cbnz_as_stated : Prop :=
  forall env cb offset,
    let cbp := get_readonly_capreg (active_tc env) cb in
    helper_cbnz env cb offset = helper_cbez env cb offset
    /\ (helper_cbez env cb offset <> 0 <-> is_null_sentinel cbp)
    /\ (helper_cbnz env cb offset <> 0 <-> is_null_sentinel cbp).

(** The bits of [rt] that are neither architectural permissions nor user
    permissions. *)
Definition undefined_perm_bits (rt : Z) : Z :=
  Z.land rt
    (Z.lnot (Z.lor CAP_PERMS_ALL (Z.shiftl CAP_UPERMS_ALL CAP_UPERMS_SHFT))).

(** C7 as stated: both helpers raise USRDEFINE whenever [rt] has such a
    bit. *)
Definition usrdefine_as_stated : Prop :=
  forall env cd cb cs rt,
    0 <= rt <= UINT64_MAX ->
    undefined_perm_bits rt <> 0 ->
    raised_cause (helper_candperm env cd cb rt) = Some CP2Ca_USRDEFINE
    /\ raised_cause (helper_ccheckperm env cs rt) = Some CP2Ca_USRDEFINE.

End Model.

(** ** The integer side of the gdb stub *)

Module GdbStub.

(** The fields of [CPUMIPSState], of its [active_tc] and of its
    [active_fpu] that [mips_cpu_gdb_read_register] and
    [mips_cpu_gdb_write_register] name, kept apart from the capability
    state above: [LO] and [HI] are [active_tc.LO[0]] and
    [active_tc.HI[0]]. *)
Record CPUMIPSState : Type := mkEnv {
  gpr : list Z;
  LO : Z;
  HI : Z;
  PC : Z;
  hflags : Z;
  CP0_Status : Z;
  CP0_Cause : Z;
  CP0_BadVAddr : Z;
  CP0_Config1 : Z;
  fcr0 : Z;
  fcr31 : Z;
  fcr31_rw_bitmask : Z
}.

Definition set_gpr (l : list Z) (env : CPUMIPSState) : CPUMIPSState :=
  mkEnv l (LO env) (HI env) (PC env) (hflags env) (CP0_Status env)
        (CP0_Cause env) (CP0_BadVAddr env) (CP0_Config1 env)
        (fcr0 env) (fcr31 env) (fcr31_rw_bitmask env).

Definition set_LO (v : Z) (env : CPUMIPSState) : CPUMIPSState :=
  mkEnv (gpr env) v (HI env) (PC env) (hflags env) (CP0_Status env)
        (CP0_Cause env) (CP0_BadVAddr env) (CP0_Config1 env)
        (fcr0 env) (fcr31 env) (fcr31_rw_bitmask env).

Definition set_HI (v : Z) (env : CPUMIPSState) : CPUMIPSState :=
  mkEnv (gpr env) (LO env) v (PC env) (hflags env) (CP0_Status env)
        (CP0_Cause env) (CP0_BadVAddr env) (CP0_Config1 env)
        (fcr0 env) (fcr31 env) (fcr31_rw_bitmask env).

Definition set_PC (v : Z) (env : CPUMIPSState) : CPUMIPSState :=
  mkEnv (gpr env) (LO env) (HI env) v (hflags env) (CP0_Status env)
        (CP0_Cause env) (CP0_BadVAddr env) (CP0_Config1 env)
        (fcr0 env) (fcr31 env) (fcr31_rw_bitmask env).

Definition set_hflags (v : Z) (env : CPUMIPSState) : CPUMIPSState :=
  mkEnv (gpr env) (LO env) (HI env) (PC env) v (CP0_Status env)
        (CP0_Cause env) (CP0_BadVAddr env) (CP0_Config1 env)
        (fcr0 env) (fcr31 env) (fcr31_rw_bitmask env).

Definition set_CP0_BadVAddr (v : Z) (env : CPUMIPSState) : CPUMIPSState :=
  mkEnv (gpr env) (LO env) (HI env) (PC env) (hflags env) (CP0_Status env)
        (CP0_Cause env) v (CP0_Config1 env)
        (fcr0 env) (fcr31 env) (fcr31_rw_bitmask env).

Definition set_fcr31 (v : Z) (env : CPUMIPSState) : CPUMIPSState :=
  mkEnv (gpr env) (LO env) (HI env) (PC env) (hflags env) (CP0_Status env)
        (CP0_Cause env) (CP0_BadVAddr env) (CP0_Config1 env)
        (fcr0 env) v (fcr31_rw_bitmask env).

(** What the two functions take from cpu.h and from the rest of the
    emulator: the numbers of the FP bit of Config1 and of the FR bit of
    Status, the MIPS16 flag of [hflags], the members [d] and
    [w[FP_ENDIAN_IDX]] of a floating-point register (a union), and the
    functions that store Status and Cause and that bring the
    floating-point status up to date. *)
Class Cpu : Type := {
  CP0C1_FP : Z;
  CP0St_FR : Z;
  MIPS_HFLAG_M16 : Z;
  fpr_d : CPUMIPSState -> Z -> Z;
  fpr_w : CPUMIPSState -> Z -> Z;
  set_fpr_d : CPUMIPSState -> Z -> Z -> CPUMIPSState;
  set_fpr_w : CPUMIPSState -> Z -> Z -> CPUMIPSState;
  cpu_mips_store_status : CPUMIPSState -> Z -> CPUMIPSState;
  cpu_mips_store_cause : CPUMIPSState -> Z -> CPUMIPSState;
  restore_fp_status : CPUMIPSState -> CPUMIPSState
}.

Section Registers.

Context {U : Cpu}.

(** [ldtul_p] and [ldq_p]: the 64-bit word at the start of the buffer,
    which is addressed as in [stq_p]. *)
Definition ldq_p (mem_buf : gmap Z Z) : Z := default 0 (mem_buf !! 0).

Definition ldtul_p (mem_buf : gmap Z Z) : Z := ldq_p mem_buf.

(** [gdb_get_reg64]. *)
Definition gdb_get_reg64 (mem_buf : gmap Z Z) (val : Z) : gmap Z Z * Z :=
  (stq_p mem_buf 0 val, 8).

(** [env->CP0_Config1 & (1 << CP0C1_FP)]: the CPU has a floating-point
    unit. *)
Definition has_fpu (env : CPUMIPSState) : bool :=
  nonzero (Z.land (CP0_Config1 env) (Z.shiftl 1 CP0C1_FP)).

(** [mips_cpu_gdb_read_register], for a register number that is not
    negative: the reply buffer and the number of bytes put into it. *)
Definition mips_cpu_gdb_read_register (env : CPUMIPSState)
    (mem_buf : gmap Z Z) (n : Z) : gmap Z Z * Z :=
  if n <? 32 then gdb_get_regl mem_buf (default 0 (gpr env !! Z.to_nat n))
  else if has_fpu env && (38 <=? n) && (n <? 72) then
    if n =? 70 then gdb_get_regl mem_buf (int32_of_uint32 (fcr31 env))
    else if n =? 71 then gdb_get_regl mem_buf (int32_of_uint32 (fcr0 env))
    else if nonzero (Z.land (CP0_Status env) (Z.shiftl 1 CP0St_FR)) then
      gdb_get_reg64 mem_buf (fpr_d env (n - 38))
    else gdb_get_regl mem_buf (fpr_w env (n - 38))
  else if n =? 32 then gdb_get_regl mem_buf (int32_of_uint32 (CP0_Status env))
  else if n =? 33 then gdb_get_regl mem_buf (LO env)
  else if n =? 34 then gdb_get_regl mem_buf (HI env)
  else if n =? 35 then gdb_get_regl mem_buf (CP0_BadVAddr env)
  else if n =? 36 then gdb_get_regl mem_buf (int32_of_uint32 (CP0_Cause env))
  else if n =? 37 then
    gdb_get_regl mem_buf
      (Z.lor (PC env)
             (Z_of_bool (nonzero (Z.land (hflags env) MIPS_HFLAG_M16))))
  else (mem_buf, 0).

(** [mips_cpu_gdb_write_register], in the system emulator (without
    CONFIG_USER_ONLY): the state and the number of bytes taken from the
    buffer. *)
Definition mips_cpu_gdb_write_register (env : CPUMIPSState)
    (mem_buf : gmap Z Z) (n : Z) : CPUMIPSState * Z :=
  let tmp := ldtul_p mem_buf in
  if n <? 32 then (set_gpr (<[Z.to_nat n := tmp]> (gpr env)) env, 8)
  else if has_fpu env && (38 <=? n) && (n <? 72) then
    let env1 :=
      if n =? 70 then
        restore_fp_status
          (set_fcr31
             (wrap32
                (Z.lor (Z.land tmp (fcr31_rw_bitmask env))
                       (Z.land (fcr31 env) (Z.lnot (fcr31_rw_bitmask env)))))
             env)
      else if n =? 71 then env
      else if nonzero (Z.land (CP0_Status env) (Z.shiftl 1 CP0St_FR)) then
        set_fpr_d env (n - 38) (ldq_p mem_buf)
      else set_fpr_w env (n - 38) tmp in
    (env1, 8)
  else if n =? 32 then (cpu_mips_store_status env tmp, 8)
  else if n =? 33 then (set_LO tmp env, 8)
  else if n =? 34 then (set_HI tmp env, 8)
  else if n =? 35 then (set_CP0_BadVAddr tmp env, 8)
  else if n =? 36 then (cpu_mips_store_cause env tmp, 8)
  else if n =? 37 then
    let env1 := set_PC (Z.land tmp (Z.lnot 1)) env in
    let env2 :=
      if nonzero (Z.land tmp 1)
      then set_hflags (Z.lor (hflags env1) MIPS_HFLAG_M16) env1
      else set_hflags (Z.land (hflags env1) (Z.lnot MIPS_HFLAG_M16)) env1 in
    (env2, 8)
  else if 72 <? n then (env, 0)
  else (env, 8).

End Registers.

End GdbStub.

(** [mips_gdb_set_cheri_reg]: the capability registers cannot be written
    through the gdb stub; the state is left as it is and the size of the
    register is returned. *)
Definition mips_gdb_set_cheri_reg {E : Codec} (env : CPUMIPSState)
    (mem_buf : gmap Z Z) (n : Z) : CPUMIPSState * Z :=
  if n <? 42 then (env, if CHERI_128 then 16 else 32)
  else if (n =? 42) || (n =? 43) then (env, 8)
  else (env, 0).

(** ** A concrete configuration *)

(** The values the constants have in the CHERI-MIPS build with 256-bit
    capabilities; they serve the examples below. *)
#[global] Program Instance cheri256_constants : Constants := {|
  CAP_PERM_GLOBAL := 1;
  CAP_PERM_EXECUTE := 2;
  CAP_PERM_LOAD := 4;
  CAP_PERM_STORE := 8;
  CAP_PERM_LOAD_CAP := 16;
  CAP_PERM_STORE_CAP := 32;
  CAP_PERM_STORE_LOCAL := 64;
  CAP_PERM_SEAL := 128;
  CAP_PERM_CCALL := 256;
  CAP_PERM_UNSEAL := 512;
  CAP_ACCESS_SYS_REGS := 1024;
  CAP_PERMS_ALL := 4095;
  CAP_UPERMS_ALL := 15;
  CAP_UPERMS_SHFT := 15;
  CAP_MAX_UPERM := 3;
  CAP_OTYPE_UNSEALED := 16777215;
  CAP_OTYPE_SENTRY := 16777214;
  CAP_MAX_SEALED_OTYPE := 16777211;
  CHERI_CAP_SIZE := 32;
  EXCP_INST_NOTAVAIL := 2
|}.
Next Obligation. discriminate. Qed.
Next Obligation. discriminate. Qed.
Next Obligation. discriminate. Qed.
Next Obligation. reflexivity. Qed.
Next Obligation. reflexivity. Qed.
Next Obligation. discriminate. Qed.

(** The uncompressed encoding: every offset is representable and bounds
    are set exactly, so the functions of the compressed encoding are never
    reached; they are given their precise counterparts. *)
Definition mark_unrepresentable256 (a : Z) (c : cap_register) : cap_register :=
  set_cr_tag false (set_cr_offset (wrap64 (a - cr_base c)) c).

Definition setbounds256 (c : cap_register) (cursor top : Z)
  : cap_register * bool :=
  (set_cr_offset 0 (set_cr_top top (set_cr_base cursor c)), true).

(** Modelled from the spec: the four words of a capability in memory in
    the uncompressed format: (otype << 32 | perms << 1 | sealed) xor
    all-ones, cursor, base, length xor all-ones. *)
Definition compress256 (c : cap_register) (i : nat) : Z :=
  match i with
  | 0%nat =>
      Z.lxor
        (Z.lor (Z.shiftl (cr_otype c) 32)
           (Z.lor
              (Z.shiftl
                 (Z.lor (Z.shiftl (Z.land (cr_uperms c) 15) 15)
                        (Z.land (cr_perms c) 4095)) 1)
              (if cr_otype c =? 16777215 then 0 else 1)))
        UINT64_MAX
  | 1%nat => cap_get_cursor c
  | 2%nat => cr_base c
  | _ => Z.lxor (cap_get_length c) UINT64_MAX
  end.

#[global] Program Instance cheri256_codec : Codec := {|
  CHERI_128 := false;
  is_representable_cap := fun _ _ => true;
  is_representable_cap_when_sealed := fun _ _ => true;
  cap_mark_unrepresentable := mark_unrepresentable256;
  cc128_setbounds := setbounds256;
  cc128_is_representable_cap_exact := fun _ => true;
  compress_128cap := fun c => compress256 c 0%nat;
  compress_256cap := compress256;
  cheri_c2e_on_unrepresentable := false;
  cheri_debugger_on_unrepresentable := false
|}.
Next Obligation. reflexivity. Qed.
Next Obligation.
  intros a c Ha.
  unfold cap_get_cursor, mark_unrepresentable256, wrap64, UINT64_MAX in *.
  simpl. rewrite Zplus_mod_idemp_r.
  replace (cr_base c + (a - cr_base c)) with a by lia.
  apply Z.mod_small. lia.
Qed.
Next Obligation.
  intros c cursor top r H. unfold setbounds256 in H.
  injection H as <-. split; reflexivity.
Qed.

(** A compressed encoding in miniature, to run the compressed build in the
    examples: a cursor is representable while it stays within 4096 bytes
    of the bounds, and bounds are kept in units of 8 bytes, so that
    [cc128_setbounds] rounds the base down and the top up and reports
    whether it had to. *)
Definition representable_near_bounds (c : cap_register) (off : Z) : bool :=
  let cursor := wrap64 (cr_base c + off) in
  (cr_base c - 4096 <=? cursor) && (cursor <? _cr_top c + 4096).

Definition setbounds_units_of_8 (c : cap_register) (cursor top : Z)
  : cap_register * bool :=
  let base := cursor - cursor mod 8 in
  let top' := top + (- top) mod 8 in
  (set_cr_offset (cursor - base) (set_cr_top top' (set_cr_base base c)),
   (base =? cursor) && (top' =? top)).

Program Definition units_of_8_codec : Codec := {|
  CHERI_128 := true;
  is_representable_cap := representable_near_bounds;
  is_representable_cap_when_sealed := representable_near_bounds;
  cap_mark_unrepresentable := mark_unrepresentable256;
  cc128_setbounds := setbounds_units_of_8;
  cc128_is_representable_cap_exact := fun c =>
    (cr_base c mod 8 =? 0) && (_cr_top c mod 8 =? 0);
  compress_128cap := fun c => compress256 c 0%nat;
  compress_256cap := compress256;
  cheri_c2e_on_unrepresentable := false;
  cheri_debugger_on_unrepresentable := false
|}.
Next Obligation. reflexivity. Qed.
Next Obligation.
  intros a c Ha.
  unfold cap_get_cursor, mark_unrepresentable256, wrap64, UINT64_MAX in *.
  simpl. rewrite Zplus_mod_idemp_r.
  replace (cr_base c + (a - cr_base c)) with a by lia.
  apply Z.mod_small. lia.
Qed.
Next Obligation.
  intros c cursor top r H. unfold setbounds_units_of_8 in H.
  injection H as <- Hexact. simpl.
  apply andb_true_iff in Hexact as [Hb Ht].
  apply Z.eqb_eq in Hb, Ht. split; assumption.
Qed.

(** ** Example states *)

(** Modelled from the spec: [max_permissions_capability(addr)], the
    capability with all permissions and maximal bounds. *)
Definition max_perms_capability (cursor : Z) : cap_register :=
  mkCap true 0 (2 ^ 64) cursor CAP_PERMS_ALL CAP_UPERMS_ALL CAP_OTYPE_UNSEALED 0.

(** Modelled from the spec: the register file at reset; PCC, DDC, KCC,
    KDC, EPCC and ErrorEPCC hold the capability with all permissions and
    maximal bounds, every other register the null capability. *)
Definition reset_tc : TCState :=
  mkTC (replicate 32 null_capability)
       (mkCHWR (max_perms_capability 0) null_capability null_capability
               null_capability null_capability
               (max_perms_capability 0) (max_perms_capability 0)
               (max_perms_capability 0) (max_perms_capability 0))
       (max_perms_capability 0) null_capability.

Definition reset_env : CPUMIPSState :=
  mkEnv reset_tc 0 0 0 0 0 0 0 ∅ ∅.

(** The reset state with capability registers 1 and 2 loaded. *)
Definition env_with (c1 c2 : cap_register) : CPUMIPSState :=
  write_capreg (write_capreg reset_env 1 c1) 2 c2.

(** A tagged, unsealed capability over [4096, 8192) with every permission
    and its cursor at 4112. *)
Definition data_cap : cap_register :=
  mkCap true 4096 8192 16 CAP_PERMS_ALL CAP_UPERMS_ALL CAP_OTYPE_UNSEALED 0.

(** [data_cap] sealed with object type 7, and the same without its tag. *)
Definition sealed_cap : cap_register := set_cr_otype 7 data_cap.

Definition untagged_sealed_cap : cap_register := set_cr_tag false sealed_cap.

(** A tagged, unsealed capability over [0, 16) with cursor 7 and the
    permissions GLOBAL and UNSEAL: it unseals object type 7. *)
Definition unsealer_cap : cap_register :=
  mkCap true 0 16 7 (CAP_PERM_GLOBAL + CAP_PERM_UNSEAL) 0 CAP_OTYPE_UNSEALED 0.


Definition store_global_caps_only_cap : cap_register :=
  set_cr_offset 0
    (set_cr_perms
       (CAP_PERM_GLOBAL + CAP_PERM_LOAD + CAP_PERM_STORE + CAP_PERM_STORE_CAP)
       data_cap).

(** [data_cap] without GLOBAL. *)
Definition local_cap : cap_register :=
  set_cr_perms (CAP_PERMS_ALL - CAP_PERM_GLOBAL) data_cap.

(** A tagged, unsealed capability over [0, 16) with cursor 7 and the
    permissions GLOBAL, SEAL and UNSEAL: it seals and unseals with object
    type 7. *)
Definition sealer_cap : cap_register :=
  mkCap true 0 16 7 (CAP_PERM_GLOBAL + CAP_PERM_SEAL + CAP_PERM_UNSEAL) 0
        CAP_OTYPE_UNSEALED 0.

(** The same over [0, 2^24) with its cursor at the last object type. *)
Definition last_otype_sealer_cap : cap_register :=
  mkCap true 0 (2 ^ 24) CAP_MAX_SEALED_OTYPE
        (CAP_PERM_GLOBAL + CAP_PERM_SEAL + CAP_PERM_UNSEAL) 0
        CAP_OTYPE_UNSEALED 0.

(** A tagged, unsealed capability with every permission over all of the
    address space but its last byte, and an untagged pattern over all of
    it with its cursor at the last byte. *)
Definition cap_below_last_byte : cap_register :=
  mkCap true 0 (2 ^ 64 - 1) 0 CAP_PERMS_ALL CAP_UPERMS_ALL CAP_OTYPE_UNSEALED 0.

Definition untagged_cap_to_the_end : cap_register :=
  mkCap false 0 (2 ^ 64) (2 ^ 64 - 1) CAP_PERMS_ALL CAP_UPERMS_ALL
        CAP_OTYPE_UNSEALED 0.

(** A CPU for the examples of the gdb stub: no floating-point unit
    (Config1 is 0 in the example states), so the accessors of the
    floating-point registers are never reached, and Status and Cause are
    not looked at. *)
Definition cpu_without_fpu : GdbStub.Cpu := {|
  GdbStub.CP0C1_FP := 0;
  GdbStub.CP0St_FR := 26;
  GdbStub.MIPS_HFLAG_M16 := 1024;
  GdbStub.fpr_d := fun _ _ => 0;
  GdbStub.fpr_w := fun _ _ => 0;
  GdbStub.set_fpr_d := fun env _ _ => env;
  GdbStub.set_fpr_w := fun env _ _ => env;
  GdbStub.cpu_mips_store_status := fun env _ => env;
  GdbStub.cpu_mips_store_cause := fun env _ => env;
  GdbStub.restore_fp_status := fun env => env
|}.

(** The integer registers with every register at 0. *)
Definition gdb_reset_env : GdbStub.CPUMIPSState :=
  GdbStub.mkEnv (replicate 32 0) 0 0 0 0 0 0 0 0 0 0 0.

(** * Properties *)

Section Proofs.

Context {K : Constants} {E : Codec}.

(** ** Reading back a register *)

Lemma get_readonly_capreg_O (tc : TCState) :
  get_readonly_capreg tc 0 = null_capability.
Proof. reflexivity. Qed.

Lemma CGPR_at_update_ne (tc : TCState) (i j : nat) (v : cap_register) :
  i <> j -> CGPR_at (update_capreg tc i v) j = CGPR_at tc j.
Proof.
  intros Hne. unfold CGPR_at, update_capreg.
  destruct i as [|i]; [reflexivity|]. simpl.
  rewrite list_lookup_insert_ne by exact Hne. reflexivity.
Qed.

Lemma CGPR_at_update_eq (tc : TCState) (i : nat) (v : cap_register) :
  (0 < i < length (_CGPR tc))%nat -> CGPR_at (update_capreg tc i v) i = v.
Proof.
  intros [Hpos Hlt]. unfold CGPR_at, update_capreg.
  destruct i as [|i]; [lia|]. simpl.
  rewrite list_lookup_insert_eq by exact Hlt. reflexivity.
Qed.

Lemma get_readonly_capreg_update_eq (tc : TCState) (i : nat) (v : cap_register) :
  (0 < i < length (_CGPR tc))%nat ->
  get_readonly_capreg (update_capreg tc i v) i = v.
Proof.
  intros H. unfold get_readonly_capreg.
  destruct i as [|i]; [lia|]. apply CGPR_at_update_eq. exact H.
Qed.

(** ** Sealing taxonomy *)

(** An unsealed capability is neither sealed with a type nor a sentry, so
    what is shown below for capabilities that are not sealed in the sense
    of [is_cap_sealed] holds for the unsealed ones. *)
Lemma unsealed_is_not_sealed (c : cap_register) :
  cap_is_unsealed c = true -> is_cap_sealed c = false.
Proof.
  unfold cap_is_unsealed, is_cap_sealed, cap_is_sealed_with_type,
         cap_is_sealed_entry.
  intros H. apply Z.eqb_eq in H. rewrite H.
  pose proof otype_unsealed_above_sealed as Habove.
  pose proof otype_unsealed_not_sentry as Hsentry.
  rewrite (proj2 (Z.leb_gt _ _) Habove), andb_false_r.
  rewrite (proj2 (Z.eqb_neq _ _) Hsentry). reflexivity.
Qed.

(** ** Branches on the null capability *)

Lemma null_sentinel_test (c : cap_register) :
  (cr_base c =? 0) && negb (cr_tag c) && (cr_offset c =? 0) = true
  <-> is_null_sentinel c.
Proof.
  unfold is_null_sentinel.
  rewrite !andb_true_iff, negb_true_iff, !Z.eqb_eq. tauto.
Qed.

(** C3 (amended): [helper_cbez] returns 1 exactly when the register holds
    the null sentinel (base = 0, tag = 0, offset = 0) and 0 otherwise;
    [helper_cbnz] returns 0 exactly when it holds the null sentinel and 1
    otherwise.  The two helpers never return the same value. *)
Theorem cbnz_complements_cbez (env : CPUMIPSState) (cb : nat) (offset : Z) :
  let cbp := get_readonly_capreg (active_tc env) cb in
  (helper_cbez env cb offset = 1 <-> is_null_sentinel cbp) /\
  (helper_cbez env cb offset = 0 <-> ~ is_null_sentinel cbp) /\
  (helper_cbnz env cb offset = 0 <-> is_null_sentinel cbp) /\
  (helper_cbnz env cb offset = 1 <-> ~ is_null_sentinel cbp) /\
  helper_cbnz env cb offset = 1 - helper_cbez env cb offset.
Proof.
  intros cbp. unfold helper_cbez, helper_cbnz. fold cbp.
  pose proof (null_sentinel_test cbp) as Htest.
  destruct ((cr_base cbp =? 0) && negb (cr_tag cbp) && (cr_offset cbp =? 0)).
  - assert (is_null_sentinel cbp) as Hn by (apply Htest; reflexivity).
    unfold iff; repeat match goal with |- _ /\ _ => split end; intros;
      first [exact Hn | reflexivity | discriminate | contradiction].
  - assert (~ is_null_sentinel cbp) as Hn
        by (intros Hc; apply Htest in Hc; discriminate).
    unfold iff; repeat match goal with |- _ /\ _ => split end; intros;
      first [exact Hn | reflexivity | discriminate | contradiction].
Qed.

(** ** The tag bitset of debugger register 43 *)

Lemma testbit_shiftl_1 (i : nat) (j : Z) :
  Z.testbit (Z.shiftl 1 (Z.of_nat i)) j = (Z.of_nat i =? j).
Proof. rewrite Z.shiftl_1_l. apply Z.pow2_bits_eqb. lia. Qed.

Lemma cap_valid_step_testbit (tc : TCState) (acc : Z) (i : nat) (j : Z) :
  Z.testbit (cap_valid_step tc acc i) j
  = Z.testbit acc j || ((Z.of_nat i =? j) && cr_tag (CGPR_at tc i)).
Proof.
  unfold cap_valid_step. destruct (cr_tag (CGPR_at tc i)).
  - rewrite Z.lor_spec, testbit_shiftl_1, andb_true_r. reflexivity.
  - rewrite andb_false_r, orb_false_r. reflexivity.
Qed.

Lemma cap_valid_fold_testbit (tc : TCState) (l : list nat) (acc j : Z) :
  Z.testbit (fold_left (cap_valid_step tc) l acc) j
  = Z.testbit acc j
    || existsb (fun i => (Z.of_nat i =? j) && cr_tag (CGPR_at tc i)) l.
Proof.
  revert acc. induction l as [|a l IH]; intros acc; simpl.
  - rewrite orb_false_r. reflexivity.
  - rewrite IH, cap_valid_step_testbit, orb_assoc. reflexivity.
Qed.

Lemma existsb_seq_none (g : nat -> bool) (a n : nat) :
  (forall i, (a <= i < a + n)%nat -> g i = false) ->
  existsb g (seq a n) = false.
Proof.
  revert a. induction n as [|n IH]; intros a Hg; simpl; [reflexivity|].
  rewrite Hg by lia. rewrite IH; [reflexivity|].
  intros i Hi. apply Hg. lia.
Qed.

Lemma existsb_seq_single (g : nat -> bool) (a n k : nat) :
  (a <= k < a + n)%nat ->
  (forall i, i <> k -> g i = false) ->
  existsb g (seq a n) = g k.
Proof.
  revert a. induction n as [|n IH]; intros a Hk Hg; simpl; [lia|].
  destruct (Nat.eq_dec a k) as [->|Hne].
  - rewrite existsb_seq_none, orb_false_r; [reflexivity|].
    intros i Hi. apply Hg. lia.
  - rewrite (Hg a Hne). simpl. apply IH; [lia | exact Hg].
Qed.

Lemma lor_below_pow2 (a b n : Z) :
  0 <= a < 2 ^ n -> 0 <= b < 2 ^ n -> 0 <= Z.lor a b < 2 ^ n.
Proof.
  intros Ha Hb.
  assert (0 <= Z.lor a b) as Hnn by (apply Z.lor_nonneg; lia).
  split; [exact Hnn|].
  destruct (Z.eq_dec a 0) as [->|Ha0]; [rewrite Z.lor_0_l; lia|].
  destruct (Z.eq_dec b 0) as [->|Hb0]; [rewrite Z.lor_0_r; lia|].
  assert (Z.lor a b <> 0) as Hne by (rewrite Z.lor_eq_0_iff; lia).
  apply Z.log2_lt_pow2; [lia|].
  rewrite Z.log2_lor by lia.
  apply Z.max_lub_lt; apply Z.log2_lt_pow2; lia.
Qed.

Lemma cap_valid_fold_bound (tc : TCState) (l : list nat) (acc : Z) :
  Forall (fun i => (i < 33)%nat) l ->
  0 <= acc < 2 ^ 33 ->
  0 <= fold_left (cap_valid_step tc) l acc < 2 ^ 33.
Proof.
  revert acc. induction l as [|a l IH]; intros acc Hl Hacc; simpl; [exact Hacc|].
  inversion Hl as [|? ? Ha Hl']; subst.
  apply IH; [exact Hl'|].
  unfold cap_valid_step. destruct (cr_tag (CGPR_at tc a)); [|exact Hacc].
  apply lor_below_pow2; [exact Hacc|].
  rewrite Z.shiftl_1_l. split; [apply Z.pow_nonneg; lia|].
  apply Z.pow_lt_mono_r; lia.
Qed.

Lemma cap_valid_bits_bound (tc : TCState) :
  0 <= cap_valid_bits tc < 2 ^ 33.
Proof.
  unfold cap_valid_bits.
  assert (0 <= fold_left (cap_valid_step tc) (seq 1 31)
                 (if cr_tag (DDC (CHWR tc)) then Z.lor 0 1 else 0) < 2 ^ 33)
    as Hfold.
  { apply cap_valid_fold_bound.
    - apply Forall_forall. intros i Hi. apply elem_of_seq in Hi. lia.
    - destruct (cr_tag (DDC (CHWR tc))); rewrite ?Z.lor_0_l; lia. }
  destruct (cr_tag (PCC tc)); [|exact Hfold].
  apply lor_below_pow2; [exact Hfold|]. rewrite Z.shiftl_1_l. lia.
Qed.

Lemma cap_valid_bits_testbit (tc : TCState) (j : Z) :
  Z.testbit (cap_valid_bits tc) j
  = ((j =? 0) && cr_tag (DDC (CHWR tc)))
    || existsb (fun i => (Z.of_nat i =? j) && cr_tag (CGPR_at tc i)) (seq 1 31)
    || ((j =? 32) && cr_tag (PCC tc)).
Proof.
  unfold cap_valid_bits.
  assert (forall b : bool,
             Z.testbit (if b then Z.lor 0 1 else 0) j = (j =? 0) && b) as Hddc.
  { intros [|].
    - rewrite Z.lor_0_l. change 1 with (2 ^ 0). rewrite Z.pow2_bits_eqb by lia.
      rewrite andb_true_r, Z.eqb_sym. reflexivity.
    - rewrite Z.bits_0, andb_false_r. reflexivity. }
  destruct (cr_tag (PCC tc)).
  - rewrite Z.lor_spec, cap_valid_fold_testbit, Hddc.
    rewrite Z.shiftl_1_l, Z.pow2_bits_eqb by lia.
    rewrite andb_true_r, (Z.eqb_sym 32 j). reflexivity.
  - rewrite cap_valid_fold_testbit, Hddc, andb_false_r, orb_false_r.
    reflexivity.
Qed.

(** C8: reading debugger register 43 stores, as one 64-bit word at the
    start of the reply buffer, a bitset whose bit 0 is the tag of DDC,
    whose bit i is the tag of general capability register i for every i
    from 1 to 31, whose bit 32 is the tag of PCC and whose other bits are
    clear; it returns the size 8 and leaves the architectural state as it
    was. *)
Theorem gdb_register_43_is_tag_bitset (env : CPUMIPSState) (mem_buf : gmap Z Z) :
  let tc := active_tc env in
  let cap_valid := cap_valid_bits tc in
  mips_gdb_get_cheri_reg env mem_buf 43 = (env, (<[0 := cap_valid]> mem_buf, 8))
  /\ 0 <= cap_valid < 2 ^ 64
  /\ Z.testbit cap_valid 0 = cr_tag (DDC (CHWR tc))
  /\ (forall i : nat, (1 <= i <= 31)%nat ->
        Z.testbit cap_valid (Z.of_nat i) = cr_tag (CGPR_at tc i))
  /\ Z.testbit cap_valid 32 = cr_tag (PCC tc)
  /\ (forall j : Z, 32 < j -> Z.testbit cap_valid j = false).
Proof.
  intros tc cap_valid.
  pose proof (cap_valid_bits_bound tc) as Hb. fold cap_valid in Hb.
  assert (0 <= cap_valid < 2 ^ 64) as Hb64 by lia.
  split; [|split; [exact Hb64|]].
  - unfold mips_gdb_get_cheri_reg, gdb_get_regl, stq_p. simpl.
    fold tc. fold cap_valid. unfold wrap64.
    rewrite Z.mod_small by exact Hb64. reflexivity.
  - unfold cap_valid. repeat split.
    + rewrite cap_valid_bits_testbit.
      change (0 =? 0) with true. change (0 =? 32) with false.
      rewrite existsb_seq_none, andb_false_l, andb_true_l, !orb_false_r;
        [reflexivity|].
      intros i Hi. replace (Z.of_nat i =? 0) with false; [reflexivity|].
      symmetry. apply Z.eqb_neq. lia.
    + intros i Hi. rewrite cap_valid_bits_testbit.
      replace (Z.of_nat i =? 0) with false by (symmetry; apply Z.eqb_neq; lia).
      replace (Z.of_nat i =? 32) with false by (symmetry; apply Z.eqb_neq; lia).
      rewrite !andb_false_l, orb_false_l, orb_false_r.
      rewrite (existsb_seq_single _ 1 31 i).
      * rewrite Z.eqb_refl. reflexivity.
      * lia.
      * intros k Hk. replace (Z.of_nat k =? Z.of_nat i) with false; [reflexivity|].
        symmetry. apply Z.eqb_neq. lia.
    + rewrite cap_valid_bits_testbit.
      change (32 =? 0) with false. change (32 =? 32) with true.
      rewrite existsb_seq_none, andb_false_l, andb_true_l, !orb_false_l;
        [reflexivity|].
      intros i Hi. replace (Z.of_nat i =? 32) with false; [reflexivity|].
      symmetry. apply Z.eqb_neq. lia.
    + intros j Hj. rewrite cap_valid_bits_testbit.
      replace (j =? 0) with false by (symmetry; apply Z.eqb_neq; lia).
      replace (j =? 32) with false by (symmetry; apply Z.eqb_neq; lia).
      rewrite !andb_false_l, orb_false_l, orb_false_r.
      apply existsb_seq_none. intros i Hi.
      replace (Z.of_nat i =? j) with false; [reflexivity|].
      symmetry. apply Z.eqb_neq. lia.
Qed.

(** ** The check engine *)




Lemma check_cap_perm_cause_LOAD :
  check_cap_perm_cause CAP_PERM_LOAD = Some CP2Ca_PERM_LD.
Proof.
  unfold check_cap_perm_cause.
  rewrite (proj2 (Z.eqb_neq CAP_PERM_LOAD CAP_PERM_EXECUTE)), Z.eqb_refl.
  - reflexivity.
  - intros H. apply case_EXECUTE_LOAD. symmetry. exact H.
Qed.

Lemma check_cap_perm_cause_STORE :
  check_cap_perm_cause CAP_PERM_STORE = Some CP2Ca_PERM_ST.
Proof.
  unfold check_cap_perm_cause.
  rewrite (proj2 (Z.eqb_neq CAP_PERM_STORE CAP_PERM_EXECUTE)),
          (proj2 (Z.eqb_neq CAP_PERM_STORE CAP_PERM_LOAD)), Z.eqb_refl.
  - reflexivity.
  - intros H. apply case_LOAD_STORE. symmetry. exact H.
  - intros H. apply case_EXECUTE_STORE. symmetry. exact H.
Qed.








(** ** Setting bounds *)

Lemma active_tc_write_capreg (env : CPUMIPSState) (cd : nat) (c : cap_register) :
  active_tc (write_capreg env cd c) = update_capreg (active_tc env) cd c.
Proof. reflexivity. Qed.

(** A result that gets past the closing asserts lies within its source. *)
Lemma setbounds_commit_spec (env : CPUMIPSState) (cd : nat)
    (cbp result : cap_register) :
  match setbounds_commit env cd cbp result with
  | Ok env' =>
      env' = write_capreg env cd result
      /\ cr_base cbp <= cr_base result
      /\ _cr_top result <= _cr_top cbp
  | Trap _ _ => False
  | AssertFail => True
  end.
Proof.
  unfold setbounds_commit, cap_get_top65.
  destruct (cr_base cbp <=? cr_base result) eqn:Hb; simpl; [|exact I].
  destruct (cap_get_length65 result <=? cap_get_length65 cbp); simpl; [|exact I].
  destruct (_cr_top result <=? _cr_top cbp) eqn:Ht; simpl; [|exact I].
  apply Z.leb_le in Hb, Ht. repeat split; assumption.
Qed.

(** The exact result of the uncompressed build passes the asserts. *)
Lemma setbounds_commit_exact (env : CPUMIPSState) (cd : nat)
    (cbp : cap_register) (cursor new_top : Z) :
  cr_base cbp <= cursor -> new_top <= _cr_top cbp ->
  let result := set_cr_offset 0 (set_cr_top new_top (set_cr_base cursor cbp)) in
  setbounds_commit env cd cbp result = Ok (write_capreg env cd result).
Proof.
  intros Hb Ht result. unfold setbounds_commit, cap_get_length65, cap_get_top65.
  simpl.
  rewrite (proj2 (Z.leb_le _ _) Hb), (proj2 (Z.leb_le _ _) Ht).
  rewrite (proj2 (Z.leb_le (new_top - cursor) (_cr_top cbp - cr_base cbp)))
    by lia.
  reflexivity.
Qed.

(** The checks of [do_setbounds] that precede the choice of encoding all
    pass under the stated conditions. *)
Lemma do_setbounds_checks_pass (must_be_exact : bool) (env : CPUMIPSState)
    (cd cb : nat) (length : Z) :
  let cbp := get_readonly_capreg (active_tc env) cb in
  let cursor := cap_get_cursor cbp in
  cr_tag cbp = true -> is_cap_sealed cbp = false ->
  cr_base cbp <= cursor ->
  cursor + length <= _cr_top cbp ->
  cursor + length <= UINT64_MAX ->
  do_setbounds must_be_exact env cd cb length =
  if CHERI_128 then
    let '(result, exact) := cc128_setbounds cbp cursor (cursor + length) in
    let env1 :=
      if exact then env
      else set_imprecise_setbounds
             (wrap64 (statcounters_imprecise_setbounds env + 1)) env in
    if must_be_exact && negb exact then Trap (C2E CP2Ca_INEXACT cb) env1
    else if negb (cc128_is_representable_cap_exact result) then AssertFail
    else setbounds_commit env1 cd cbp result
  else
    setbounds_commit env cd cbp
      (set_cr_offset 0 (set_cr_top (cursor + length) (set_cr_base cursor cbp))).
Proof.
  intros cbp cursor Ht Hs Hb Htop Hmax. unfold do_setbounds.
  fold cbp. fold cursor. rewrite Ht, Hs. simpl.
  rewrite (proj2 (Z.ltb_ge cursor (cr_base cbp))) by exact Hb.
  rewrite (proj2 (Z.ltb_ge UINT64_MAX (cursor + length))) by exact Hmax.
  rewrite (proj2 (Z.ltb_ge (cap_get_top cbp) (cursor + length))).
  - reflexivity.
  - unfold cap_get_top, cap_get_top65. lia.
Qed.

(** C2 (amended): for a tagged, unsealed capability (indeed any that is
    not sealed in the sense of [is_cap_sealed]) whose cursor is at or above
    its base and whose cursor plus the requested length exceeds neither
    its top nor UINT64_MAX (a request that ends at 2^64 is refused with a
    LENGTH violation), whatever SetBounds or SetBoundsExact writes has its
    base at or above and its top at or below those of the source.
    In the uncompressed build both write the capability with base = cursor
    and length = requested length.  In the compressed build the result is
    written once the closing asserts have accepted it; SetBoundsExact
    raises INEXACT exactly when the encoding reports inexact bounds and
    otherwise writes a capability of exactly the requested length. *)
Theorem setbounds_never_enlarges (must_be_exact : bool) (env : CPUMIPSState)
    (cd cb : nat) (length : Z) :
  let cbp := get_readonly_capreg (active_tc env) cb in
  let cursor := cap_get_cursor cbp in
  cr_tag cbp = true -> is_cap_sealed cbp = false ->
  cr_base cbp <= cursor ->
  cursor + length <= _cr_top cbp ->
  cursor + length <= UINT64_MAX ->
  match do_setbounds must_be_exact env cd cb length with
  | Ok env' =>
      exists result,
        active_tc env' = update_capreg (active_tc env) cd result
        /\ cr_base cbp <= cr_base result
        /\ _cr_top result <= _cr_top cbp
        /\ (must_be_exact = true \/ CHERI_128 = false ->
            cr_base result = cursor /\ cap_get_length65 result = length)
  | Trap e _ =>
      CHERI_128 = true /\ must_be_exact = true /\ e = C2E CP2Ca_INEXACT cb
      /\ snd (cc128_setbounds cbp cursor (cursor + length)) = false
  | AssertFail => CHERI_128 = true
  end
  /\ (CHERI_128 = false ->
      exists env', do_setbounds must_be_exact env cd cb length = Ok env')
  /\ (CHERI_128 = true -> must_be_exact = true ->
      snd (cc128_setbounds cbp cursor (cursor + length)) = false ->
      exists env',
        do_setbounds must_be_exact env cd cb length
        = Trap (C2E CP2Ca_INEXACT cb) env').
Proof.
  intros cbp cursor Ht Hs Hb Htop Hmax.
  rewrite (do_setbounds_checks_pass must_be_exact env cd cb length
             Ht Hs Hb Htop Hmax).
  fold cbp. fold cursor.
  destruct CHERI_128.
  - destruct (cc128_setbounds cbp cursor (cursor + length)) as [result exact]
      eqn:Hcc.
    split; [|split]; [| discriminate |].
    + destruct exact.
      * destruct (cc128_setbounds_exact _ _ _ _ Hcc) as [Hrb Hrt].
        rewrite andb_false_r.
        destruct (cc128_is_representable_cap_exact result); simpl;
          [|reflexivity].
        pose proof (setbounds_commit_spec env cd cbp result) as Hc.
        destruct (setbounds_commit env cd cbp result) as [env'| |];
          [|contradiction|reflexivity].
        destruct Hc as (-> & Hcb & Hct). exists result.
        split; [reflexivity|split; [exact Hcb|split; [exact Hct|]]].
        intros _. unfold cap_get_length65. split; [exact Hrb | lia].
      * destruct must_be_exact; simpl.
        { repeat split. }
        destruct (cc128_is_representable_cap_exact result); simpl;
          [|reflexivity].
        match goal with
        | |- context [setbounds_commit ?e cd cbp result] =>
            pose proof (setbounds_commit_spec e cd cbp result) as Hc;
            destruct (setbounds_commit e cd cbp result) as [env'| |];
            [|contradiction|reflexivity]
        end.
        destruct Hc as (-> & Hcb & Hct). exists result.
        split; [reflexivity|split; [exact Hcb|split; [exact Hct|]]].
        intros [Hcontra | Hcontra]; discriminate.
    + intros _ -> Hex. simpl in Hex. subst exact. simpl. eexists. reflexivity.
  - rewrite setbounds_commit_exact by (try exact Hb; exact Htop).
    split; [|split]; [| intros _; eexists; reflexivity | discriminate].
    eexists. split; [reflexivity|]. simpl.
    split; [exact Hb|split; [exact Htop|]].
    intros _. unfold cap_get_length65. simpl. split; [reflexivity | lia].
Qed.

(** ** Sealing *)

(** C10: with a tagged [cs] and an untagged [ct], whether or not [cs] is
    sealed, CCSeal raises nothing and hands [cs], unchanged, to the write
    of the destination register (after which a destination other than
    register 0 reads back as [cs]), whereas CSeal raises a TAG violation
    that names [ct]. *)
Theorem ccseal_copies_where_cseal_traps (env : CPUMIPSState) (cd cs ct : nat) :
  let csp := get_readonly_capreg (active_tc env) cs in
  let ctp := get_readonly_capreg (active_tc env) ct in
  cr_tag csp = true -> cr_tag ctp = false ->
  helper_ccseal env cd cs ct = Ok (write_capreg env cd csp)
  /\ ((0 < cd < length (_CGPR (active_tc env)))%nat ->
      get_readonly_capreg (active_tc (write_capreg env cd csp)) cd = csp)
  /\ helper_cseal env cd cs ct = Trap (C2E CP2Ca_TAG ct) env.
Proof.
  intros csp ctp Hs Ht.
  unfold helper_ccseal, helper_cseal, cseal_common.
  fold csp. fold ctp. rewrite Hs, Ht. simpl.
  split; [reflexivity|split; [|reflexivity]].
  intros Hcd. apply get_readonly_capreg_update_eq. exact Hcd.
Qed.

(** ** Offsets of untagged capabilities *)

Lemma wrap64_range (x : Z) : 0 <= wrap64 x <= UINT64_MAX.
Proof.
  unfold wrap64, UINT64_MAX.
  pose proof (Z.mod_pos_bound x (2 ^ 64)). lia.
Qed.

Lemma cursor_set_cr_offset (c : cap_register) (o : Z) :
  cap_get_cursor (set_cr_offset o c) = wrap64 (cr_base c + o).
Proof. reflexivity. Qed.

Lemma wrap64_base_plus_wrapped_offset (c : cap_register) (rt : Z) :
  wrap64 (cr_base c + wrap64 (cr_offset c + rt))
  = wrap64 (cap_get_cursor c + rt).
Proof.
  unfold cap_get_cursor, wrap64.
  rewrite Zplus_mod_idemp_r, Zplus_mod_idemp_l.
  f_equal. lia.
Qed.

(** C9: when the source capability is untagged, sealed or not, CIncOffset
    and CSetOffset raise nothing and write to the destination register
    (which, unless it is register 0, then reads back as written) a
    capability whose cursor is the requested one (cursor + rt, and
    base + rt, modulo 2^64): the source with its offset replaced when the
    encoding can represent that, and otherwise the capability that
    [cap_mark_unrepresentable] makes for the requested cursor. *)
Theorem untagged_offset_update_never_traps (env : CPUMIPSState) (cd cb : nat)
    (rt : Z) :
  let cbp := get_readonly_capreg (active_tc env) cb in
  let reads_back := fun result =>
    (0 < cd < length (_CGPR (active_tc env)))%nat ->
    get_readonly_capreg (active_tc (write_capreg env cd result)) cd = result in
  cr_tag cbp = false ->
  (exists result,
      cincoffset_impl env cd cb rt = Ok (write_capreg env cd result)
      /\ reads_back result
      /\ cap_get_cursor result = wrap64 (cap_get_cursor cbp + rt)
      /\ cr_tag result = false
      /\ result =
         if is_representable_cap cbp (wrap64 (cr_offset cbp + rt))
         then set_cr_offset (wrap64 (cr_offset cbp + rt)) cbp
         else cap_mark_unrepresentable
                (wrap64 (cap_get_cursor cbp + rt))
                (set_cr_offset (wrap64 (cr_offset cbp + rt)) cbp))
  /\
  (exists result,
      helper_csetoffset env cd cb rt = Ok (write_capreg env cd result)
      /\ reads_back result
      /\ cap_get_cursor result = wrap64 (cr_base cbp + rt)
      /\ cr_tag result = false
      /\ result =
         if is_representable_cap cbp rt
         then set_cr_offset rt cbp
         else cap_mark_unrepresentable
                (wrap64 (cr_base cbp + rt)) (set_cr_offset rt cbp)).
Proof.
  intros cbp reads_back Htag.
  assert (forall result, reads_back result) as Hread.
  { intros result Hcd. apply get_readonly_capreg_update_eq. exact Hcd. }
  split.
  - unfold cincoffset_impl. fold cbp. rewrite Htag. simpl.
    rewrite wrap64_base_plus_wrapped_offset.
    destruct (is_representable_cap cbp (wrap64 (cr_offset cbp + rt))); simpl.
    + eexists. split; [reflexivity|]. split; [apply Hread|].
      split; [|split; [exact Htag|reflexivity]].
      rewrite cursor_set_cr_offset. apply wrap64_base_plus_wrapped_offset.
    + eexists. split; [reflexivity|]. split; [apply Hread|].
      split; [|split; [apply mark_unrepresentable_tag|reflexivity]].
      apply mark_unrepresentable_cursor. apply wrap64_range.
  - unfold helper_csetoffset. fold cbp. rewrite Htag. simpl.
    destruct (is_representable_cap cbp rt); simpl.
    + eexists. split; [reflexivity|]. split; [apply Hread|].
      split; [|split; [exact Htag|reflexivity]].
      apply cursor_set_cr_offset.
    + eexists. split; [reflexivity|]. split; [apply Hread|].
      split; [|split; [apply mark_unrepresentable_tag|reflexivity]].
      apply mark_unrepresentable_cursor. apply wrap64_range.
Qed.

(** ** Pointer to capability *)

Lemma get_readonly_capreg_update_null (tc : TCState) (cd : nat) :
  get_readonly_capreg (update_capreg tc cd null_capability) cd = null_capability.
Proof.
  destruct cd as [|cd]; [reflexivity|].
  unfold get_readonly_capreg, CGPR_at, update_capreg. simpl.
  destruct (decide (S cd < length (_CGPR tc))%nat) as [Hlt|Hge].
  - rewrite list_lookup_insert_eq by exact Hlt. reflexivity.
  - rewrite list_insert_ge by lia.
    rewrite (proj2 (lookup_ge_None (_CGPR tc) (S cd))) by lia. reflexivity.
Qed.

(** C6: whatever the state and whatever the source register holds,
    CFromPtr with rt = 0 raises nothing and writes the null capability
    (tag clear, every field zero) to the destination register, which then
    reads back as the null capability. *)
Theorem cfromptr_zero_writes_null (env : CPUMIPSState) (cd cb : nat) :
  helper_cfromptr env cd cb 0 = Ok (write_capreg env cd null_capability)
  /\ get_readonly_capreg (active_tc (write_capreg env cd null_capability)) cd
     = null_capability
  /\ null_capability = mkCap false 0 0 0 0 0 0 0.
Proof.
  split; [reflexivity|split; [|reflexivity]].
  rewrite active_tc_write_capreg. apply get_readonly_capreg_update_null.
Qed.

(** ** Permission masks *)

(** C7 (amended): CAndPerm never raises USRDEFINE: it raises TAG or SEAL
    for an untagged or sealed source and otherwise writes the source with
    its permissions masked by the defined bits of rt, whatever other bits
    rt has.  CCheckPerm on a tagged capability raises USRDEFINE exactly
    when rt asks for a permission or a user permission the capability
    lacks or has a bit at or above position 16 + CAP_MAX_UPERM, and
    otherwise raises nothing; on an untagged capability it raises TAG. *)
Theorem usrdefine_is_raised_by_ccheckperm_only (env : CPUMIPSState)
    (cd cb cs : nat) (rt : Z) :
  let cbp := get_readonly_capreg (active_tc env) cb in
  let csp := get_readonly_capreg (active_tc env) cs in
  let rt_perms := Z.land (wrap32 rt) CAP_PERMS_ALL in
  let rt_uperms :=
    Z.land (Z.shiftr (wrap32 rt) CAP_UPERMS_SHFT) CAP_UPERMS_ALL in
  (forall e env', helper_candperm env cd cb rt = Trap e env' ->
     e = C2E CP2Ca_TAG cb \/ e = C2E CP2Ca_SEAL cb)
  /\ (cr_tag cbp = true -> is_cap_sealed cbp = false ->
      helper_candperm env cd cb rt
      = Ok (write_capreg env cd
              (set_cr_uperms (Z.land (cr_uperms cbp) rt_uperms)
                 (set_cr_perms (Z.land (cr_perms cbp) rt_perms) cbp))))
  /\ (cr_tag csp = false ->
      helper_ccheckperm env cs rt = Trap (C2E CP2Ca_TAG cs) env)
  /\ (cr_tag csp = true ->
      Z.land (cr_perms csp) rt_perms <> rt_perms
      \/ Z.land (cr_uperms csp) rt_uperms <> rt_uperms
      \/ Z.shiftr rt (16 + CAP_MAX_UPERM) <> 0 ->
      helper_ccheckperm env cs rt = Trap (C2E CP2Ca_USRDEFINE cs) env)
  /\ (cr_tag csp = true ->
      Z.land (cr_perms csp) rt_perms = rt_perms ->
      Z.land (cr_uperms csp) rt_uperms = rt_uperms ->
      Z.shiftr rt (16 + CAP_MAX_UPERM) = 0 ->
      helper_ccheckperm env cs rt = Ok env).
Proof.
  intros cbp csp rt_perms rt_uperms.
  split; [|split; [|split; [|split]]].
  - intros e env'. unfold helper_candperm. fold cbp.
    destruct (cr_tag cbp); simpl.
    + destruct (is_cap_sealed cbp); [|discriminate].
      intros H. injection H as <- _. right. reflexivity.
    + intros H. injection H as <- _. left. reflexivity.
  - intros Ht Hs. unfold helper_candperm. fold cbp. rewrite Ht, Hs. reflexivity.
  - intros Ht. unfold helper_ccheckperm. fold csp. rewrite Ht. reflexivity.
  - intros Ht Hbad. unfold helper_ccheckperm. fold csp. fold rt_perms.
    fold rt_uperms. rewrite Ht. simpl.
    destruct (Z.land (cr_perms csp) rt_perms =? rt_perms) eqn:Hp; simpl;
      [|reflexivity].
    destruct (Z.land (cr_uperms csp) rt_uperms =? rt_uperms) eqn:Hu; simpl;
      [|reflexivity].
    apply Z.eqb_eq in Hp, Hu.
    destruct Hbad as [Hbad | [Hbad | Hbad]]; try contradiction.
    unfold nonzero. rewrite (proj2 (Z.eqb_neq _ _) Hbad). reflexivity.
  - intros Ht Hp Hu Hhigh. unfold helper_ccheckperm. fold csp. fold rt_perms.
    fold rt_uperms. rewrite Ht. simpl.
    rewrite (proj2 (Z.eqb_eq _ _) Hp), (proj2 (Z.eqb_eq _ _) Hu). simpl.
    unfold nonzero. rewrite (proj2 (Z.eqb_eq _ _) Hhigh). reflexivity.
Qed.

(** ** Unsealing *)

Lemma land_lor_same (p g : Z) : Z.land (Z.lor p g) g = g.
Proof.
  apply Z.bits_inj'. intros n _. rewrite Z.land_spec, Z.lor_spec.
  destruct (Z.testbit p n), (Z.testbit g n); reflexivity.
Qed.

Lemma land_clear_same (p g : Z) : Z.land (Z.land p (Z.lnot g)) g = 0.
Proof.
  apply Z.bits_inj'. intros n Hn.
  rewrite !Z.land_spec, Z.lnot_spec, Z.bits_0 by exact Hn.
  destruct (Z.testbit p n), (Z.testbit g n); reflexivity.
Qed.

Lemma land_lor_others (p g : Z) :
  Z.land (Z.lor p g) (Z.lnot g) = Z.land p (Z.lnot g).
Proof.
  apply Z.bits_inj'. intros n Hn.
  rewrite !Z.land_spec, Z.lor_spec, Z.lnot_spec by exact Hn.
  destruct (Z.testbit p n), (Z.testbit g n); reflexivity.
Qed.

Lemma land_clear_others (p g : Z) :
  Z.land (Z.land p (Z.lnot g)) (Z.lnot g) = Z.land p (Z.lnot g).
Proof.
  apply Z.bits_inj'. intros n Hn.
  rewrite !Z.land_spec, Z.lnot_spec by exact Hn.
  destruct (Z.testbit p n), (Z.testbit g n); reflexivity.
Qed.

(** What [cunseal_result] keeps of [cs] and what it changes. *)
Lemma cunseal_result_spec (csp ctp : cap_register) :
  let result := cunseal_result csp ctp in
  cr_otype result = CAP_OTYPE_UNSEALED
  /\ cap_is_unsealed result = true
  /\ cr_tag result = cr_tag csp
  /\ cr_base result = cr_base csp
  /\ _cr_top result = _cr_top csp
  /\ cr_offset result = cr_offset csp
  /\ cr_uperms result = cr_uperms csp
  /\ cr_pesbt_xored_for_mem result = cr_pesbt_xored_for_mem csp
  /\ Z.land (cr_perms result) (Z.lnot CAP_PERM_GLOBAL)
     = Z.land (cr_perms csp) (Z.lnot CAP_PERM_GLOBAL)
  /\ has_perm result CAP_PERM_GLOBAL
     = has_perm csp CAP_PERM_GLOBAL && has_perm ctp CAP_PERM_GLOBAL.
Proof.
  unfold cunseal_result, cap_set_unsealed, cap_is_unsealed.
  destruct (has_perm csp CAP_PERM_GLOBAL && has_perm ctp CAP_PERM_GLOBAL)
    eqn:Hboth; simpl; rewrite Z.eqb_refl.
  - repeat split.
    + apply land_lor_others.
    + apply andb_true_iff in Hboth as [Hcs _].
      unfold has_perm, nonzero in *. simpl. rewrite land_lor_same.
      destruct (CAP_PERM_GLOBAL =? 0) eqn:Hg; [|reflexivity].
      apply Z.eqb_eq in Hg. rewrite Hg, Z.land_0_r in Hcs. discriminate.
  - repeat split.
    + apply land_clear_others.
    + unfold has_perm, nonzero. simpl. rewrite land_clear_same. reflexivity.
Qed.

(** C5: CUnseal succeeds only when the cursor of [ct] equals the otype of
    [cs], [ct] has the UNSEAL permission and the cursor of [ct] lies within
    the bounds of [ct]; on success the destination register receives [cs]
    with the unsealed otype, with its GLOBAL permission set if and only if
    both [cs] and [ct] have GLOBAL, and with every other field and every
    other permission bit as in [cs] (a destination other than register 0
    then reads back as that capability). *)
Theorem cunseal_success (env env' : CPUMIPSState) (cd cs ct : nat) :
  let csp := get_readonly_capreg (active_tc env) cs in
  let ctp := get_readonly_capreg (active_tc env) ct in
  helper_cunseal env cd cs ct = Ok env' ->
  cap_get_cursor ctp = cr_otype csp
  /\ has_perm ctp CAP_PERM_UNSEAL = true
  /\ cap_is_in_bounds ctp (cap_get_cursor ctp) 1 = true
  /\ exists result,
       env' = write_capreg env cd result
       /\ ((0 < cd < length (_CGPR (active_tc env)))%nat ->
           get_readonly_capreg (active_tc env') cd = result)
       /\ cap_is_unsealed result = true
       /\ cr_tag result = cr_tag csp
       /\ cr_base result = cr_base csp
       /\ _cr_top result = _cr_top csp
       /\ cr_offset result = cr_offset csp
       /\ cr_uperms result = cr_uperms csp
       /\ cr_pesbt_xored_for_mem result = cr_pesbt_xored_for_mem csp
       /\ Z.land (cr_perms result) (Z.lnot CAP_PERM_GLOBAL)
          = Z.land (cr_perms csp) (Z.lnot CAP_PERM_GLOBAL)
       /\ has_perm result CAP_PERM_GLOBAL
          = has_perm csp CAP_PERM_GLOBAL && has_perm ctp CAP_PERM_GLOBAL.
Proof.
  intros csp ctp Hrun.
  assert (cap_get_cursor ctp = cr_otype csp
          /\ has_perm ctp CAP_PERM_UNSEAL = true
          /\ cap_is_in_bounds ctp (cap_get_cursor ctp) 1 = true
          /\ env' = write_capreg env cd (cunseal_result csp ctp)) as Hkey.
  { revert Hrun. unfold helper_cunseal. fold csp. fold ctp.
    destruct (cr_tag csp); simpl; [|discriminate].
    destruct (cr_tag ctp); simpl; [|discriminate].
    destruct (cap_is_unsealed csp); [discriminate|].
    destruct (cap_is_unsealed ctp); simpl; [|discriminate].
    destruct (cap_get_cursor ctp =? cr_otype csp) eqn:Htype; simpl;
      [|discriminate].
    destruct (cap_is_sealed_with_type csp); simpl; [|discriminate].
    destruct (has_perm ctp CAP_PERM_UNSEAL) eqn:Hperm; simpl; [|discriminate].
    destruct (cap_is_in_bounds ctp (cap_get_cursor ctp) 1) eqn:Hbounds; simpl;
      [|discriminate].
    destruct (CAP_MAX_SEALED_OTYPE <=? cap_get_cursor ctp); [discriminate|].
    intros H. injection H as <-. apply Z.eqb_eq in Htype.
    repeat split. exact Htype. }
  destruct Hkey as (Htype & Hperm & Hbounds & Henv).
  split; [exact Htype|]. split; [exact Hperm|]. split; [exact Hbounds|].
  exists (cunseal_result csp ctp). split; [exact Henv|].
  split; [|apply (cunseal_result_spec csp ctp)].
  intros Hcd. rewrite Henv. apply get_readonly_capreg_update_eq. exact Hcd.
Qed.

(** ** Capability stores *)






(** ** Clearing registers by mask *)

Lemma active_tc_set_active_tc (tc : TCState) (env : CPUMIPSState) :
  active_tc (set_active_tc tc env) = tc.
Proof. reflexivity. Qed.

Lemma nonzero_land_bit (m : Z) (i : nat) :
  nonzero (Z.land m (Z.shiftl 1 (Z.of_nat i))) = Z.testbit m (Z.of_nat i).
Proof.
  unfold nonzero. rewrite Z.shiftl_1_l.
  assert (Z.land m (2 ^ Z.of_nat i)
          = if Z.testbit m (Z.of_nat i) then 2 ^ Z.of_nat i else 0) as ->.
  { apply Z.bits_inj'. intros k Hk. rewrite Z.land_spec.
    destruct (Z.testbit m (Z.of_nat i)) eqn:Hb.
    - rewrite Z.pow2_bits_eqb by lia.
      destruct (Z.of_nat i =? k) eqn:Hik; [|apply andb_false_r].
      apply Z.eqb_eq in Hik. subst k. rewrite Hb. reflexivity.
    - rewrite Z.pow2_bits_eqb, Z.bits_0 by lia.
      destruct (Z.of_nat i =? k) eqn:Hik; [|apply andb_false_r].
      apply Z.eqb_eq in Hik. subst k. rewrite Hb. reflexivity. }
  destruct (Z.testbit m (Z.of_nat i)); [|reflexivity].
  assert (0 < 2 ^ Z.of_nat i) as Hpos by (apply Z.pow_pos_nonneg; lia).
  destruct (2 ^ Z.of_nat i =? 0) eqn:Hz; [|reflexivity].
  apply Z.eqb_eq in Hz. lia.
Qed.

Lemma cclearreg_step_CGPR_at (mask : Z) (tc : TCState) (creg j : nat) :
  CGPR_at (cclearreg_step mask tc creg) j
  = if Nat.eqb creg j && Z.testbit mask (Z.of_nat creg)
    then null_capability else CGPR_at tc j.
Proof.
  unfold cclearreg_step. rewrite nonzero_land_bit.
  destruct (Z.testbit mask (Z.of_nat creg));
    [|rewrite andb_false_r; reflexivity].
  rewrite andb_true_r. unfold CGPR_at. simpl.
  destruct (Nat.eqb creg j) eqn:Hj.
  - apply Nat.eqb_eq in Hj. subst j.
    destruct (decide (creg < length (_CGPR tc))%nat) as [Hlt|Hge].
    + rewrite list_lookup_insert_eq by exact Hlt. reflexivity.
    + rewrite list_insert_ge by lia.
      rewrite (proj2 (lookup_ge_None (_CGPR tc) creg)) by lia. reflexivity.
  - apply Nat.eqb_neq in Hj.
    rewrite list_lookup_insert_ne by exact Hj. reflexivity.
Qed.

Lemma cclearreg_fold_CGPR_at (mask : Z) (l : list nat) (tc : TCState)
    (j : nat) :
  CGPR_at (fold_left (cclearreg_step mask) l tc) j
  = if existsb (fun i => Nat.eqb i j && Z.testbit mask (Z.of_nat i)) l
    then null_capability else CGPR_at tc j.
Proof.
  revert tc. induction l as [|a l IH]; intros tc; simpl; [reflexivity|].
  rewrite IH, cclearreg_step_CGPR_at.
  destruct (Nat.eqb a j && Z.testbit mask (Z.of_nat a)); simpl; [|reflexivity].
  destruct (existsb _ l); reflexivity.
Qed.

Lemma cclearreg_fold_others (mask : Z) (l : list nat) (tc : TCState) :
  let tc' := fold_left (cclearreg_step mask) l tc in
  CHWR tc' = CHWR tc /\ PCC tc' = PCC tc
  /\ CapBranchTarget tc' = CapBranchTarget tc.
Proof.
  revert tc. induction l as [|a l IH]; intros tc; simpl; [repeat split|].
  destruct (IH (cclearreg_step mask tc a)) as (H1 & H2 & H3).
  rewrite H1, H2, H3. unfold cclearreg_step.
  destruct (nonzero _); repeat split.
Qed.

(** X1: CClearRegs with a mask replaces by the null capability exactly the
    registers whose bit is set in the mask, where bit 0 stands for DDC and
    bit i, for i from 1 to 31, for capability register i; every other
    capability register, the other hardware registers, PCC, the branch
    target, the cause register and memory are left as they were. *)
Theorem cclearreg_clears_by_mask (env : CPUMIPSState) (mask : Z) :
  let env' := helper_cclearreg env mask in
  let tc := active_tc env in
  let tc' := active_tc env' in
  (forall i : nat, (1 <= i < 32)%nat ->
      get_readonly_capreg tc' i
      = if Z.testbit mask (Z.of_nat i) then null_capability
        else get_readonly_capreg tc i)
  /\ (forall i : nat, (i = 0 \/ 32 <= i)%nat -> CGPR_at tc' i = CGPR_at tc i)
  /\ DDC (CHWR tc')
     = (if Z.testbit mask 0 then null_capability else DDC (CHWR tc))
  /\ UserTlsCap (CHWR tc') = UserTlsCap (CHWR tc)
  /\ PrivTlsCap (CHWR tc') = PrivTlsCap (CHWR tc)
  /\ KR1C (CHWR tc') = KR1C (CHWR tc)
  /\ KR2C (CHWR tc') = KR2C (CHWR tc)
  /\ KCC (CHWR tc') = KCC (CHWR tc)
  /\ KDC (CHWR tc') = KDC (CHWR tc)
  /\ EPCC (CHWR tc') = EPCC (CHWR tc)
  /\ ErrorEPCC (CHWR tc') = ErrorEPCC (CHWR tc)
  /\ PCC tc' = PCC tc
  /\ CapBranchTarget tc' = CapBranchTarget tc
  /\ CP2_CapCause env' = CP2_CapCause env
  /\ tagmem env' = tagmem env
  /\ memory env' = memory env.
Proof.
  intros env' tc tc'. subst env' tc'. unfold helper_cclearreg. fold tc.
  set (tc1 := if nonzero (Z.land mask 1) then _ else tc).
  assert (forall j, CGPR_at tc1 j = CGPR_at tc j) as Hsame.
  { intros j. subst tc1. destruct (nonzero _); reflexivity. }
  assert (nonzero (Z.land mask 1) = Z.testbit mask 0) as Hbit0
      by (apply (nonzero_land_bit mask 0)).
  destruct (cclearreg_fold_others mask (seq 1 31) tc1) as (Hchwr & Hpcc & Hbt).
  rewrite active_tc_set_active_tc.
  split; [|split].
  - intros i Hi. unfold get_readonly_capreg.
    destruct i as [|i]; [lia|].
    rewrite cclearreg_fold_CGPR_at, Hsame.
    rewrite (existsb_seq_single _ 1 31 (S i)); [| lia |].
    + rewrite Nat.eqb_refl. reflexivity.
    + intros k Hk. apply Nat.eqb_neq in Hk. rewrite Hk. reflexivity.
  - intros i Hi. rewrite cclearreg_fold_CGPR_at, Hsame.
    rewrite existsb_seq_none; [reflexivity|].
    intros k Hk.
    assert (k <> i) as Hne by lia.
    apply Nat.eqb_neq in Hne. rewrite Hne. reflexivity.
  - rewrite Hchwr, Hpcc, Hbt. subst tc1. rewrite Hbit0.
    destruct (Z.testbit mask 0); repeat split.
Qed.

(** ** Domain crossing *)

Context {C : CallConstants}.

(** Destructs the conditions of a chain of checks, first to last. *)
Ltac split_checks :=
  repeat (match goal with
          | |- context [if ?b then _ else _] => destruct b eqn:?
          end; simpl).

(** Turns boolean facts about the checks into propositions. *)
Ltac reflect_checks :=
  repeat match goal with
         | H : negb _ = true |- _ => apply negb_true_iff in H
         | H : negb _ = false |- _ => apply negb_false_iff in H
         | H : _ || _ = false |- _ => apply orb_false_iff in H; destruct H
         | H : _ && _ = true |- _ => apply andb_true_iff in H; destruct H
         | H : (_ =? _) = true |- _ => apply Z.eqb_eq in H
         | H : (_ =? _) = false |- _ => apply Z.eqb_neq in H
         | H : (_ <? _) = true |- _ => apply Z.ltb_lt in H
         | H : (_ <? _) = false |- _ => apply Z.ltb_ge in H
         | H : (_ <=? _) = true |- _ => apply Z.leb_le in H
         | H : (_ <=? _) = false |- _ => apply Z.leb_gt in H
         end.

(** CCall with selector 0 leaves through a capability exception, which is
    the CALL trap exactly when every check has passed. *)
Lemma ccall_selector_0_call_trap (env : CPUMIPSState) (cs cb : nat) :
  let csp := get_readonly_capreg (active_tc env) cs in
  let cbp := get_readonly_capreg (active_tc env) cb in
  (exists cause reg, helper_ccall env cs cb = Trap (C2E cause reg) env)
  /\ (helper_ccall env cs cb = Trap (C2E CP2Ca_CALL cs) env
      <-> cr_tag csp = true /\ cr_tag cbp = true
          /\ cap_is_sealed_with_type csp = true
          /\ cap_is_sealed_with_type cbp = true
          /\ cr_otype csp = cr_otype cbp
          /\ cr_otype csp <= CAP_MAX_SEALED_OTYPE
          /\ has_perm csp CAP_PERM_EXECUTE = true
          /\ has_perm cbp CAP_PERM_EXECUTE = false
          /\ cap_is_in_bounds csp (cap_get_cursor csp) 1 = true).
Proof.
  intros csp cbp. unfold helper_ccall, ccall_common. fold csp. fold cbp.
  rewrite Z.eqb_refl.
  destruct (cr_tag csp) eqn:Hts; simpl;
    [|split; [eauto|split; [discriminate|intros (? & _); discriminate]]].
  destruct (cr_tag cbp) eqn:Htb; simpl;
    [|split; [eauto|split; [discriminate|intros (_ & ? & _); discriminate]]].
  destruct (cap_is_sealed_with_type csp) eqn:Hss; simpl;
    [|split; [eauto|split; [discriminate|intros (_ & _ & ? & _); discriminate]]].
  destruct (cap_is_sealed_with_type cbp) eqn:Hsb; simpl;
    [|split; [eauto|split; [discriminate
                           |intros (_ & _ & _ & ? & _); discriminate]]].
  destruct (cr_otype csp =? cr_otype cbp) eqn:Hty; simpl;
    [|split; [eauto|split; [discriminate|]];
      intros (_ & _ & _ & _ & Heq & _); apply Z.eqb_neq in Hty; contradiction].
  destruct (CAP_MAX_SEALED_OTYPE <? cr_otype csp) eqn:Hmax; simpl;
    [split; [eauto|split; [discriminate|]];
     intros (_ & _ & _ & _ & _ & Hle & _); apply Z.ltb_lt in Hmax; lia|].
  destruct (has_perm csp CAP_PERM_EXECUTE) eqn:Hxs; simpl;
    [|split; [eauto|split; [discriminate|]];
      intros (_ & _ & _ & _ & _ & _ & ? & _); discriminate].
  destruct (has_perm cbp CAP_PERM_EXECUTE) eqn:Hxb; simpl;
    [split; [eauto|split; [discriminate|]];
     intros (_ & _ & _ & _ & _ & _ & _ & ? & _); discriminate|].
  destruct (cap_is_in_bounds csp (cap_get_cursor csp) 1) eqn:Hin; simpl;
    [|split; [eauto|split; [discriminate|]];
      intros (_ & _ & _ & _ & _ & _ & _ & _ & ?); discriminate].
  apply Z.eqb_eq in Hty. apply Z.ltb_ge in Hmax.
  split; [eauto|]. split; [intros _|reflexivity].
  repeat split; assumption.
Qed.

(** X2: CCall with selector 0 never completes: whatever the two registers
    hold, the helper leaves through a capability exception and the state
    is as before.  The exception is that of the first check that fails,
    in this order: TAG on [cs] if [cs] is untagged, TAG on [cb] if [cb]
    is, SEAL on [cs] if [cs] is not sealed with a user type, SEAL on [cb]
    if [cb] is not, TYPE on [cs] if the two otypes differ or are above
    CAP_MAX_SEALED_OTYPE, PERM_EXE on [cs] if [cs] is not executable,
    PERM_EXE on [cb] if [cb] is, LENGTH on [cs] if the cursor of [cs] is
    outside its bounds; and when every check passes, and only then, it is
    the CALL trap on [cs]. *)
Theorem ccall_selector_0_always_traps (env : CPUMIPSState) (cs cb : nat) :
  let csp := get_readonly_capreg (active_tc env) cs in
  let cbp := get_readonly_capreg (active_tc env) cb in
  let raises := fun cause reg =>
    helper_ccall env cs cb = Trap (C2E cause reg) env in
  (exists cause reg, raises cause reg)
  /\ (cr_tag csp = false -> raises CP2Ca_TAG cs)
  /\ (cr_tag csp = true ->
      (cr_tag cbp = false -> raises CP2Ca_TAG cb)
      /\ (cr_tag cbp = true ->
          (cap_is_sealed_with_type csp = false -> raises CP2Ca_SEAL cs)
          /\ (cap_is_sealed_with_type csp = true ->
              (cap_is_sealed_with_type cbp = false -> raises CP2Ca_SEAL cb)
              /\ (cap_is_sealed_with_type cbp = true ->
                  (cr_otype csp <> cr_otype cbp
                   \/ CAP_MAX_SEALED_OTYPE < cr_otype csp ->
                   raises CP2Ca_TYPE cs)
                  /\ (cr_otype csp = cr_otype cbp ->
                      cr_otype csp <= CAP_MAX_SEALED_OTYPE ->
                      (has_perm csp CAP_PERM_EXECUTE = false ->
                       raises CP2Ca_PERM_EXE cs)
                      /\ (has_perm csp CAP_PERM_EXECUTE = true ->
                          (has_perm cbp CAP_PERM_EXECUTE = true ->
                           raises CP2Ca_PERM_EXE cb)
                          /\ (has_perm cbp CAP_PERM_EXECUTE = false ->
                              (cap_is_in_bounds csp (cap_get_cursor csp) 1
                               = false ->
                               raises CP2Ca_LENGTH cs)
                              /\ (cap_is_in_bounds csp (cap_get_cursor csp) 1
                                  = true ->
                                  raises CP2Ca_CALL cs))))))))
  /\ (raises CP2Ca_CALL cs
      <-> cr_tag csp = true /\ cr_tag cbp = true
          /\ cap_is_sealed_with_type csp = true
          /\ cap_is_sealed_with_type cbp = true
          /\ cr_otype csp = cr_otype cbp
          /\ cr_otype csp <= CAP_MAX_SEALED_OTYPE
          /\ has_perm csp CAP_PERM_EXECUTE = true
          /\ has_perm cbp CAP_PERM_EXECUTE = false
          /\ cap_is_in_bounds csp (cap_get_cursor csp) 1 = true).
Proof.
  intros csp cbp raises.
  destruct (ccall_selector_0_call_trap env cs cb) as [Hsome Hcall].
  fold csp cbp in Hcall.
  split; [exact Hsome|]. split; [|split; [|exact Hcall]];
    unfold raises, helper_ccall, ccall_common; fold csp; fold cbp;
    rewrite Z.eqb_refl.
  - intros ->. reflexivity.
  - intros ->. simpl. split; [intros ->; reflexivity|].
    intros ->. simpl. split; [intros ->; reflexivity|].
    intros ->. simpl. split; [intros ->; reflexivity|].
    intros ->. simpl. split.
    + intros [Hne | Hgt].
      * rewrite (proj2 (Z.eqb_neq _ _) Hne). reflexivity.
      * rewrite (proj2 (Z.ltb_lt _ _) Hgt), orb_true_r. reflexivity.
    + intros Heq Hle.
      rewrite (proj2 (Z.eqb_eq _ _) Heq), (proj2 (Z.ltb_ge _ _) Hle). simpl.
      split; [intros ->; reflexivity|].
      intros ->. simpl. split; [intros ->; reflexivity|].
      intros ->. simpl. split; intros ->; reflexivity.
Qed.

Lemma get_readonly_capreg_update_ne (tc : TCState) (i j : nat)
    (v : cap_register) :
  i <> j ->
  get_readonly_capreg (update_capreg tc i v) j = get_readonly_capreg tc j.
Proof.
  intros Hne. unfold get_readonly_capreg. destruct j as [|j]; [reflexivity|].
  apply CGPR_at_update_ne. exact Hne.
Qed.

Lemma get_readonly_capreg_set_CapBranchTarget (tc : TCState)
    (c : cap_register) (i : nat) :
  get_readonly_capreg (set_CapBranchTarget c tc) i = get_readonly_capreg tc i.
Proof. destruct i; reflexivity. Qed.

Lemma cap_is_unsealed_set_unsealed (c : cap_register) :
  cap_is_unsealed (cap_set_unsealed c) = true.
Proof. unfold cap_is_unsealed, cap_set_unsealed. simpl. apply Z.eqb_refl. Qed.

(** What [ccall_common] has checked when it returns. *)
Lemma ccall_common_ok_checks (env : CPUMIPSState) (cs cb : nat)
    (selector : Z) (r : CPUMIPSState * Z) :
  let csp := get_readonly_capreg (active_tc env) cs in
  let cbp := get_readonly_capreg (active_tc env) cb in
  ccall_common env cs cb selector = Ok r ->
  cr_tag csp = true /\ cr_tag cbp = true
  /\ cap_is_sealed_with_type csp = true
  /\ cap_is_sealed_with_type cbp = true
  /\ cr_otype csp = cr_otype cbp
  /\ cr_otype csp <= CAP_MAX_SEALED_OTYPE.
Proof.
  intros csp cbp. unfold ccall_common. fold csp. fold cbp.
  destruct (cr_tag csp); simpl; [|discriminate].
  destruct (cr_tag cbp); simpl; [|discriminate].
  destruct (cap_is_sealed_with_type csp); simpl; [|discriminate].
  destruct (cap_is_sealed_with_type cbp); simpl; [|discriminate].
  destruct (cr_otype csp =? cr_otype cbp) eqn:Hty; simpl; [|discriminate].
  destruct (CAP_MAX_SEALED_OTYPE <? cr_otype csp) eqn:Hmax; simpl;
    [discriminate|].
  intros _. apply Z.eqb_eq in Hty. apply Z.ltb_ge in Hmax.
  repeat split; assumption.
Qed.

(** X3: CCall with selector 1 completes exactly when both capabilities
    are tagged and sealed with the same user type, [cs] is executable and
    [cb] is not, the cursor of [cs] is within its bounds and both have the
    CCALL permission (the two selectors being different).  It then leaves
    [cb], unsealed, in the IDC register and every other capability
    register as it was, and, when [cs] is not the IDC register itself,
    installs [cs], unsealed, as the branch target and returns the cursor
    of [cs]. *)
Theorem ccall_notrap_enters_domain (env : CPUMIPSState) (cs cb : nat) :
  let csp := get_readonly_capreg (active_tc env) cs in
  let cbp := get_readonly_capreg (active_tc env) cb in
  let accepted :=
    cr_tag csp = true /\ cr_tag cbp = true
    /\ cap_is_sealed_with_type csp = true
    /\ cap_is_sealed_with_type cbp = true
    /\ cr_otype csp = cr_otype cbp
    /\ cr_otype csp <= CAP_MAX_SEALED_OTYPE
    /\ has_perm csp CAP_PERM_EXECUTE = true
    /\ has_perm cbp CAP_PERM_EXECUTE = false
    /\ cap_is_in_bounds csp (cap_get_cursor csp) 1 = true
    /\ has_perm csp CAP_PERM_CCALL = true
    /\ has_perm cbp CAP_PERM_CCALL = true in
  (CCALL_SELECTOR_1 <> CCALL_SELECTOR_0 -> accepted ->
   exists env' target, helper_ccall_notrap env cs cb = Ok (env', target))
  /\ (forall env' target,
        helper_ccall_notrap env cs cb = Ok (env', target) ->
        accepted
        /\ ((0 < CP2CAP_IDC < length (_CGPR (active_tc env)))%nat ->
            get_readonly_capreg (active_tc env') CP2CAP_IDC
            = cap_set_unsealed cbp)
        /\ (forall i : nat, i <> CP2CAP_IDC ->
            get_readonly_capreg (active_tc env') i
            = get_readonly_capreg (active_tc env) i)
        /\ (cs <> CP2CAP_IDC ->
            CapBranchTarget (active_tc env') = cap_set_unsealed csp
            /\ target = cap_get_cursor csp)
        /\ cap_is_unsealed (CapBranchTarget (active_tc env')) = true
        /\ CHWR (active_tc env') = CHWR (active_tc env)
        /\ PCC (active_tc env') = PCC (active_tc env)
        /\ tagmem env' = tagmem env /\ memory env' = memory env).
Proof.
  intros csp cbp accepted. subst accepted.
  unfold helper_ccall_notrap, ccall_common. fold csp. fold cbp.
  split.
  - intros Hsel (Hts & Htb & Hss & Hsb & Hty & Hmax & Hxs & Hxb & Hin & Hcs & Hcb).
    rewrite Hts, Htb, Hss, Hsb, Hxs, Hxb, Hin, Hcs, Hcb.
    rewrite (proj2 (Z.eqb_eq _ _) Hty).
    rewrite (proj2 (Z.ltb_ge _ _) Hmax).
    rewrite (proj2 (Z.eqb_neq _ _) Hsel). simpl. eauto.
  - intros env' target.
    destruct (cr_tag csp) eqn:Hts; simpl; [|discriminate].
    destruct (cr_tag cbp) eqn:Htb; simpl; [|discriminate].
    destruct (cap_is_sealed_with_type csp) eqn:Hss; simpl; [|discriminate].
    destruct (cap_is_sealed_with_type cbp) eqn:Hsb; simpl; [|discriminate].
    destruct (cr_otype csp =? cr_otype cbp) eqn:Hty; simpl; [|discriminate].
    destruct (CAP_MAX_SEALED_OTYPE <? cr_otype csp) eqn:Hmax; simpl;
      [discriminate|].
    destruct (has_perm csp CAP_PERM_EXECUTE) eqn:Hxs; simpl; [|discriminate].
    destruct (has_perm cbp CAP_PERM_EXECUTE) eqn:Hxb; simpl; [discriminate|].
    destruct (cap_is_in_bounds csp (cap_get_cursor csp) 1) eqn:Hin; simpl;
      [|discriminate].
    destruct (CCALL_SELECTOR_1 =? CCALL_SELECTOR_0); [discriminate|].
    destruct (has_perm csp CAP_PERM_CCALL) eqn:Hcs; simpl; [|discriminate].
    destruct (has_perm cbp CAP_PERM_CCALL) eqn:Hcb; simpl; [|discriminate].
    intros H. injection H as <- <-.
    apply Z.eqb_eq in Hty. apply Z.ltb_ge in Hmax.
    split; [repeat split; assumption|].
    rewrite active_tc_set_active_tc.
    split; [|split; [|split; [|split]]].
    + intros Hidc. apply get_readonly_capreg_update_eq. exact Hidc.
    + intros i Hi. apply get_readonly_capreg_update_ne. congruence.
    + intros Hne. rewrite get_readonly_capreg_set_CapBranchTarget. simpl.
      rewrite get_readonly_capreg_update_ne by congruence.
      fold csp. split; reflexivity.
    + simpl. apply cap_is_unsealed_set_unsealed.
    + simpl. repeat split; destruct CP2CAP_IDC; reflexivity.
Qed.

Lemma cchecktype_ok_iff (env : CPUMIPSState) (cs cb : nat) :
  let csp := get_readonly_capreg (active_tc env) cs in
  let cbp := get_readonly_capreg (active_tc env) cb in
  helper_cchecktype env cs cb = Ok env
  <-> cr_tag csp = true /\ cr_tag cbp = true
      /\ is_cap_sealed csp = true /\ is_cap_sealed cbp = true
      /\ cr_otype csp = cr_otype cbp
      /\ cr_otype csp <= CAP_MAX_SEALED_OTYPE.
Proof.
  intros csp cbp. unfold helper_cchecktype. fold csp. fold cbp.
  destruct (cr_tag csp); simpl;
    [|split; [discriminate|intros (? & _); discriminate]].
  destruct (cr_tag cbp); simpl;
    [|split; [discriminate|intros (_ & ? & _); discriminate]].
  destruct (is_cap_sealed csp); simpl;
    [|split; [discriminate|intros (_ & _ & ? & _); discriminate]].
  destruct (is_cap_sealed cbp); simpl;
    [|split; [discriminate|intros (_ & _ & _ & ? & _); discriminate]].
  destruct (cr_otype csp =? cr_otype cbp) eqn:Hty; simpl;
    [|split; [discriminate|];
      intros (_ & _ & _ & _ & Heq & _); apply Z.eqb_neq in Hty; contradiction].
  destruct (CAP_MAX_SEALED_OTYPE <? cr_otype csp) eqn:Hmax; simpl;
    [split; [discriminate|];
     intros (_ & _ & _ & _ & _ & Hle); apply Z.ltb_lt in Hmax; lia|].
  apply Z.eqb_eq in Hty. apply Z.ltb_ge in Hmax.
  split; [intros _|reflexivity]. repeat split; assumption.
Qed.

(** X4: CCheckType only checks: it returns with the state as it was or
    leaves through an exception with the state as it was.  It returns
    exactly when both capabilities are tagged and sealed, with a type or
    as a sentry, and have the same otype, which is at most
    CAP_MAX_SEALED_OTYPE; so exchanging the two registers does not change
    whether it returns, and every pair of registers that CCall with
    selector 1 accepts passes CCheckType. *)
Theorem cchecktype_accepts_equal_types (env : CPUMIPSState) (cs cb : nat) :
  let csp := get_readonly_capreg (active_tc env) cs in
  let cbp := get_readonly_capreg (active_tc env) cb in
  (helper_cchecktype env cs cb = Ok env
   \/ exists cause reg, helper_cchecktype env cs cb = Trap (C2E cause reg) env)
  /\ (helper_cchecktype env cs cb = Ok env
      <-> cr_tag csp = true /\ cr_tag cbp = true
          /\ is_cap_sealed csp = true /\ is_cap_sealed cbp = true
          /\ cr_otype csp = cr_otype cbp
          /\ cr_otype csp <= CAP_MAX_SEALED_OTYPE)
  /\ (helper_cchecktype env cs cb = Ok env
      <-> helper_cchecktype env cb cs = Ok env)
  /\ (forall env' target,
        helper_ccall_notrap env cs cb = Ok (env', target) ->
        helper_cchecktype env cs cb = Ok env).
Proof.
  intros csp cbp.
  split; [|split; [apply cchecktype_ok_iff|split]].
  - unfold helper_cchecktype. fold csp. fold cbp.
    destruct (cr_tag csp); simpl; [|eauto].
    destruct (cr_tag cbp); simpl; [|eauto].
    destruct (is_cap_sealed csp); simpl; [|eauto].
    destruct (is_cap_sealed cbp); simpl; [|eauto].
    destruct (negb (cr_otype csp =? cr_otype cbp)
              || (CAP_MAX_SEALED_OTYPE <? cr_otype csp)); eauto.
  - rewrite !cchecktype_ok_iff. fold csp. fold cbp.
    split; intros (H1 & H2 & H3 & H4 & H5 & H6);
      repeat split; try assumption; try congruence; lia.
  - intros env' target Hcall.
    destruct (ccall_common_ok_checks env cs cb _ _ Hcall)
      as (Hts & Htb & Hss & Hsb & Hty & Hmax).
    apply cchecktype_ok_iff.
    unfold is_cap_sealed. rewrite Hss, Hsb. repeat split; assumption.
Qed.

(** ** Clearing the tag *)

Lemma get_readonly_capreg_write_eq (env : CPUMIPSState) (cd : nat)
    (v : cap_register) :
  (0 < cd < length (_CGPR (active_tc env)))%nat ->
  get_readonly_capreg (active_tc (write_capreg env cd v)) cd = v.
Proof.
  intros Hcd. rewrite active_tc_write_capreg.
  apply get_readonly_capreg_update_eq. exact Hcd.
Qed.

Lemma get_readonly_capreg_write_ne (env : CPUMIPSState) (cd i : nat)
    (v : cap_register) :
  cd <> i ->
  get_readonly_capreg (active_tc (write_capreg env cd v)) i
  = get_readonly_capreg (active_tc env) i.
Proof.
  intros Hne. rewrite active_tc_write_capreg.
  apply get_readonly_capreg_update_ne. exact Hne.
Qed.

(** X5: CClearTag raises nothing and changes nothing but the tag: the
    destination register, if it is one of registers 1 to 31, then reads
    with its tag clear (CGetTag gives 0) and with the address, base,
    length, offset, permissions and sealedness of the source (CGetAddr,
    CGetBase, CGetLen, CGetOffset, CGetPerm and CGetSealed give what they
    gave for the source), and every other capability register is as it
    was. *)
Theorem ccleartag_clears_only_the_tag (env : CPUMIPSState) (cd cb : nat) :
  let env' := helper_ccleartag env cd cb in
  (0 < cd < length (_CGPR (active_tc env)))%nat ->
  helper_cgettag env' cd = 0
  /\ helper_cgetaddr env' cd = helper_cgetaddr env cb
  /\ helper_cgetbase env' cd = helper_cgetbase env cb
  /\ helper_cgetlen env' cd = helper_cgetlen env cb
  /\ helper_cgetoffset env' cd = helper_cgetoffset env cb
  /\ helper_cgetperm env' cd = helper_cgetperm env cb
  /\ helper_cgetsealed env' cd = helper_cgetsealed env cb
  /\ (forall i : nat, i <> cd ->
      get_readonly_capreg (active_tc env') i
      = get_readonly_capreg (active_tc env) i)
  /\ tagmem env' = tagmem env /\ memory env' = memory env.
Proof.
  intros env' Hcd. subst env'.
  unfold helper_cgettag, helper_cgetaddr, helper_cgetbase, helper_cgetlen,
         helper_cgetoffset, helper_cgetperm, helper_cgetsealed,
         helper_ccleartag.
  rewrite !get_readonly_capreg_write_eq by exact Hcd.
  split; [destruct CHERI_128; reflexivity|].
  split; [destruct CHERI_128; reflexivity|].
  split; [destruct CHERI_128; reflexivity|].
  split; [destruct CHERI_128; reflexivity|].
  split; [destruct CHERI_128; reflexivity|].
  split; [destruct CHERI_128; reflexivity|].
  split; [destruct CHERI_128; reflexivity|].
  split; [|split; reflexivity].
  intros i Hi. apply get_readonly_capreg_write_ne. congruence.
Qed.

(** ** The capability cause register *)

(** X6: CSetCause and CGetCause are guarded by the ACCESS_SYS_REGS
    permission of PCC.  With it, CSetCause stores the low 16 bits of its
    operand, touching nothing else of the capability registers, and a
    CGetCause that follows returns them; without it, both leave through
    an ACCESS_SYS_REGS exception that names no register, and the state is
    as it was. *)
Theorem csetcause_cgetcause_round_trip (env : CPUMIPSState) (rt : Z) :
  let allowed := has_perm (PCC (active_tc env)) CAP_ACCESS_SYS_REGS in
  (allowed = true ->
   exists env',
     helper_csetcause env rt = Ok env'
     /\ helper_cgetcause env' = Ok (Z.land rt 65535)
     /\ active_tc env' = active_tc env
     /\ tagmem env' = tagmem env /\ memory env' = memory env)
  /\ (allowed = false ->
      helper_csetcause env rt = Trap (C2E_noreg CP2Ca_ACCESS_SYS_REGS) env
      /\ helper_cgetcause env = Trap (C2E_noreg CP2Ca_ACCESS_SYS_REGS) env)
  /\ 0 <= Z.land rt 65535 <= 65535.
Proof.
  intros allowed. subst allowed. unfold has_perm.
  split; [|split].
  - intros Hperm. unfold helper_csetcause. rewrite Hperm. simpl.
    eexists. split; [reflexivity|].
    unfold helper_cgetcause. simpl. rewrite Hperm. simpl.
    repeat split.
  - intros Hperm. unfold helper_csetcause, helper_cgetcause.
    rewrite Hperm. simpl. split; reflexivity.
  - split; [apply Z.land_nonneg; lia|].
    change 65535 with (Z.ones 16). rewrite Z.land_ones by lia.
    pose proof (Z.mod_pos_bound rt (2 ^ 16)). rewrite Z.ones_equiv. lia.
Qed.

(** ** Moving the cursor *)

Lemma active_tc_set_unrepresentable_caps (n : Z) (env : CPUMIPSState) :
  active_tc (set_unrepresentable_caps n env) = active_tc env.
Proof. reflexivity. Qed.

(** [_became_unrepresentable], when it returns, has only counted. *)
Lemma became_unrepresentable_ok (env env1 : CPUMIPSState) (reg : nat) :
  _became_unrepresentable env reg = Ok env1 ->
  active_tc env1 = active_tc env
  /\ tagmem env1 = tagmem env /\ memory env1 = memory env.
Proof.
  unfold _became_unrepresentable.
  destruct CHERI_128; [|discriminate].
  destruct cheri_debugger_on_unrepresentable; [discriminate|].
  destruct cheri_c2e_on_unrepresentable; [discriminate|].
  intros H. injection H as <-. repeat split.
Qed.

(** What [cincoffset_impl] has written when it returns. *)
Lemma cincoffset_impl_ok (env env' : CPUMIPSState) (cd cb : nat) (rt : Z) :
  let cbp := get_readonly_capreg (active_tc env) cb in
  let off := wrap64 (cr_offset cbp + rt) in
  cincoffset_impl env cd cb rt = Ok env' ->
  exists (env1 : CPUMIPSState) (result : cap_register),
    env' = write_capreg env1 cd result
    /\ active_tc env1 = active_tc env
    /\ tagmem env1 = tagmem env /\ memory env1 = memory env
    /\ cap_get_cursor result = wrap64 (cap_get_cursor cbp + rt)
    /\ (is_representable_cap cbp off = true -> result = set_cr_offset off cbp)
    /\ (is_representable_cap cbp off = false -> cr_tag result = false)
    /\ (cr_tag cbp = true -> is_cap_sealed cbp = true -> rt = 0).
Proof.
  intros cbp off. unfold cincoffset_impl. fold cbp. fold off.
  destruct (cr_tag cbp && is_cap_sealed cbp && nonzero rt) eqn:Hseal;
    [discriminate|].
  assert (cr_tag cbp = true -> is_cap_sealed cbp = true -> rt = 0) as Hrt.
  { intros Ht Hs. rewrite Ht, Hs in Hseal. simpl in Hseal.
    unfold nonzero in Hseal. apply negb_false_iff, Z.eqb_eq in Hseal.
    exact Hseal. }
  destruct (is_representable_cap cbp off) eqn:Hrep; simpl.
  - intros H. injection H as <-. exists env, (set_cr_offset off cbp).
    repeat split; try assumption; try discriminate.
    rewrite cursor_set_cr_offset. apply wrap64_base_plus_wrapped_offset.
  - destruct (cr_tag cbp) eqn:Htag.
    + destruct (_became_unrepresentable env cd) as [env1| |] eqn:Hb;
        simpl; try discriminate.
      intros H. injection H as <-.
      destruct (became_unrepresentable_ok _ _ _ Hb) as (H1 & H2 & H3).
      eexists env1, _. split; [reflexivity|].
      repeat split; try assumption; try discriminate.
      * rewrite <- wrap64_base_plus_wrapped_offset.
        apply mark_unrepresentable_cursor. apply wrap64_range.
      * intros _. apply mark_unrepresentable_tag.
    + simpl. intros H. injection H as <-.
      eexists env, _. split; [reflexivity|].
      repeat split; try assumption; try discriminate.
      * rewrite <- wrap64_base_plus_wrapped_offset.
        apply mark_unrepresentable_cursor. apply wrap64_range.
      * intros _. apply mark_unrepresentable_tag.
Qed.

Lemma get_readonly_capreg_write_eq' (env env1 : CPUMIPSState) (cd : nat)
    (v : cap_register) :
  active_tc env1 = active_tc env ->
  (0 < cd < length (_CGPR (active_tc env)))%nat ->
  get_readonly_capreg (active_tc (write_capreg env1 cd v)) cd = v.
Proof.
  intros Htc Hcd. apply get_readonly_capreg_write_eq. rewrite Htc. exact Hcd.
Qed.

Lemma get_readonly_capreg_write_ne' (env env1 : CPUMIPSState) (cd i : nat)
    (v : cap_register) :
  active_tc env1 = active_tc env -> cd <> i ->
  get_readonly_capreg (active_tc (write_capreg env1 cd v)) i
  = get_readonly_capreg (active_tc env) i.
Proof.
  intros Htc Hne. rewrite get_readonly_capreg_write_ne by exact Hne.
  rewrite Htc. reflexivity.
Qed.

(** X7: CIncOffset on any capability, tagged or not.  It refuses a tagged
    sealed source with a non-zero increment (SEAL on [cb]).  Whenever it
    completes, the destination register (one of registers 1 to 31) holds
    a capability whose cursor is the cursor of the source plus the
    increment, modulo 2^64; that capability is the source with its offset
    replaced when the encoding can represent the new offset, and is
    untagged when it cannot; every other capability register, tag memory
    and data memory are as they were. *)
Theorem cincoffset_moves_cursor (env : CPUMIPSState) (cd cb : nat) (rt : Z) :
  let cbp := get_readonly_capreg (active_tc env) cb in
  let off := wrap64 (cr_offset cbp + rt) in
  (cr_tag cbp = true -> is_cap_sealed cbp = true -> rt <> 0 ->
   helper_cincoffset env cd cb rt = Trap (C2E CP2Ca_SEAL cb) env)
  /\ (forall env',
        helper_cincoffset env cd cb rt = Ok env' ->
        ((0 < cd < length (_CGPR (active_tc env)))%nat ->
         let r := get_readonly_capreg (active_tc env') cd in
         cap_get_cursor r = wrap64 (cap_get_cursor cbp + rt)
         /\ (is_representable_cap cbp off = true ->
             r = set_cr_offset off cbp)
         /\ (is_representable_cap cbp off = false -> cr_tag r = false))
        /\ (forall i : nat, i <> cd ->
            get_readonly_capreg (active_tc env') i
            = get_readonly_capreg (active_tc env) i)
        /\ tagmem env' = tagmem env /\ memory env' = memory env).
Proof.
  intros cbp off. unfold helper_cincoffset. split.
  - intros Ht Hs Hrt. unfold cincoffset_impl. fold cbp. rewrite Ht, Hs.
    unfold nonzero. rewrite (proj2 (Z.eqb_neq _ _) Hrt). reflexivity.
  - intros env' Hrun.
    destruct (cincoffset_impl_ok _ _ _ _ _ Hrun)
      as (env1 & result & -> & Htc & Htm & Hm & Hcur & Hrep & Hunrep & _).
    split; [|split; [|split; assumption]].
    + intros Hcd.
      rewrite (get_readonly_capreg_write_eq' env) by assumption.
      repeat split; assumption.
    + intros i Hi. apply get_readonly_capreg_write_ne'; congruence.
Qed.

Lemma wrap64_plus_difference (a t : Z) :
  wrap64 (a + wrap64 (t - a)) = wrap64 t.
Proof.
  unfold wrap64. rewrite Zplus_mod_idemp_r. f_equal. lia.
Qed.

Lemma land_le_l (a b : Z) : 0 <= a -> 0 <= Z.land a b <= a.
Proof.
  intros Ha. apply Z.ldiff_le; [exact Ha|].
  apply Z.bits_inj'. intros n Hn.
  rewrite Z.ldiff_spec, Z.land_spec, Z.bits_0.
  destruct (Z.testbit a n), (Z.testbit b n); reflexivity.
Qed.

Lemma wrap64_small (x : Z) : 0 <= x <= UINT64_MAX -> wrap64 x = x.
Proof. unfold wrap64, UINT64_MAX. intros H. apply Z.mod_small. lia. Qed.

(** X8: CSetAddr and CAndAddr reach the address asked for.  Whenever
    CSetAddr completes, CGetAddr of the destination (one of registers 1 to
    31) gives the requested address; whenever CAndAddr completes, CGetAddr
    of the destination gives what CGetAndAddr gives for the source and the
    same mask.  Both leave a sealed tagged source alone only if the
    address does not change: otherwise they raise SEAL on [cb]. *)
Theorem csetaddr_reaches_address (env : CPUMIPSState) (cd cb : nat)
    (target_addr rt : Z) :
  let cbp := get_readonly_capreg (active_tc env) cb in
  (0 < cd < length (_CGPR (active_tc env)))%nat ->
  0 <= target_addr <= UINT64_MAX ->
  (forall env', helper_csetaddr env cd cb target_addr = Ok env' ->
     helper_cgetaddr env' cd = target_addr)
  /\ (forall env', helper_candaddr env cd cb rt = Ok env' ->
      helper_cgetaddr env' cd = helper_cgetandaddr env cb rt)
  /\ (cr_tag cbp = true -> is_cap_sealed cbp = true ->
      target_addr <> helper_cgetaddr env cb ->
      helper_csetaddr env cd cb target_addr = Trap (C2E CP2Ca_SEAL cb) env)
  /\ (cr_tag cbp = true -> is_cap_sealed cbp = true ->
      helper_cgetandaddr env cb rt <> helper_cgetaddr env cb ->
      helper_candaddr env cd cb rt = Trap (C2E CP2Ca_SEAL cb) env).
Proof.
  intros cbp Hcd Htarget.
  assert (0 <= helper_cgetaddr env cb <= UINT64_MAX) as Hcur
      by apply wrap64_range.
  assert (0 <= helper_cgetandaddr env cb rt <= UINT64_MAX) as Hand.
  { unfold helper_cgetandaddr.
    pose proof (land_le_l (helper_cgetaddr env cb) rt). lia. }
  assert (forall t env', 0 <= t <= UINT64_MAX ->
            cincoffset_impl env cd cb (wrap64 (t - helper_cgetaddr env cb))
            = Ok env' ->
            helper_cgetaddr env' cd = t) as Hreach.
  { intros t env' Ht Hrun.
    destruct (cincoffset_impl_ok _ _ _ _ _ Hrun)
      as (env1 & result & -> & Htc & _ & _ & Hc & _).
    unfold helper_cgetaddr.
    rewrite (get_readonly_capreg_write_eq' env) by assumption.
    rewrite Hc. fold cbp. unfold helper_cgetaddr. fold cbp.
    rewrite wrap64_plus_difference. apply wrap64_small. exact Ht. }
  assert (forall t, 0 <= t <= UINT64_MAX ->
            cr_tag cbp = true -> is_cap_sealed cbp = true ->
            t <> helper_cgetaddr env cb ->
            cincoffset_impl env cd cb (wrap64 (t - helper_cgetaddr env cb))
            = Trap (C2E CP2Ca_SEAL cb) env) as Hseal.
  { intros t Ht Htag Hs Hne. unfold cincoffset_impl. fold cbp.
    rewrite Htag, Hs. simpl.
    assert (wrap64 (t - helper_cgetaddr env cb) <> 0) as Hnz.
    { unfold wrap64, UINT64_MAX in *. intros Hz.
      apply Z.mod_divide in Hz; [|lia]. destruct Hz as [k Hk].
      assert (k = 0) by nia. lia. }
    unfold nonzero. rewrite (proj2 (Z.eqb_neq _ _) Hnz). reflexivity. }
  split; [|split; [|split]].
  - intros env'. apply Hreach. exact Htarget.
  - intros env'. unfold helper_candaddr. apply Hreach. exact Hand.
  - apply Hseal. exact Htarget.
  - apply Hseal. exact Hand.
Qed.

(** ** Capabilities and pointers *)

(** What [helper_cfromptr] has written when it returns for a non-zero
    pointer. *)
Lemma cfromptr_ok (env env' : CPUMIPSState) (cd cb : nat) (rt : Z) :
  let cbp := get_capreg_0_is_ddc (active_tc env) cb in
  rt <> 0 ->
  helper_cfromptr env cd cb rt = Ok env' ->
  exists (env1 : CPUMIPSState) (result : cap_register),
    env' = write_capreg env1 cd result
    /\ active_tc env1 = active_tc env
    /\ cap_get_cursor result = wrap64 (cr_base cbp + rt)
    /\ cr_tag cbp = true /\ is_cap_sealed cbp = false
    /\ (is_representable_cap cbp rt = true -> result = set_cr_offset rt cbp)
    /\ (is_representable_cap cbp rt = false -> cr_tag result = false).
Proof.
  intros cbp Hrt. unfold helper_cfromptr. fold cbp.
  rewrite (proj2 (Z.eqb_neq _ _) Hrt).
  destruct (cr_tag cbp) eqn:Htag; simpl; [|discriminate].
  destruct (is_cap_sealed cbp) eqn:Hs; [discriminate|].
  destruct (is_representable_cap cbp rt) eqn:Hrep; simpl.
  - intros H. injection H as <-. exists env, (set_cr_offset rt cbp).
    repeat split; try discriminate.
  - destruct (_became_unrepresentable env cd) as [env1| |] eqn:Hb;
      simpl; try discriminate.
    intros H. injection H as <-.
    destruct (became_unrepresentable_ok _ _ _ Hb) as (H1 & _).
    eexists env1, _. split; [reflexivity|].
    repeat split; try assumption; try discriminate.
    + apply mark_unrepresentable_cursor. apply wrap64_range.
    + intros _. apply mark_unrepresentable_tag.
Qed.

(** X9: CToPtr followed by CFromPtr on the same base capability [ct]
    (register 0 standing for DDC in both).  For a tagged [ct], CToPtr
    gives 0 when [cb] is untagged or its cursor lies outside
    [base, top] of [ct], and otherwise the distance of the cursor of [cb]
    from the base of [ct].  When that distance is not 0, a CFromPtr of it
    that completes leaves in the destination (one of registers 1 to 31) a
    capability whose address is the cursor of [cb] again; and it does
    complete, with [ct] at the new offset, when [ct] is not sealed and the
    encoding can represent that offset. *)
Theorem ctoptr_cfromptr_round_trip (env : CPUMIPSState) (cd cb ct : nat) :
  let cbp := get_readonly_capreg (active_tc env) cb in
  let ctp := get_capreg_0_is_ddc (active_tc env) ct in
  let inside :=
    cr_tag cbp = true
    /\ cr_base ctp <= cap_get_cursor cbp <= cap_get_top ctp in
  (0 < cd < length (_CGPR (active_tc env)))%nat ->
  cr_tag ctp = true ->
  (~ inside -> helper_ctoptr env cb ct = Ok 0)
  /\ (inside ->
      let p := wrap64 (cap_get_cursor cbp - cr_base ctp) in
      helper_ctoptr env cb ct = Ok p
      /\ (p <> 0 ->
          (forall env', helper_cfromptr env cd ct p = Ok env' ->
             helper_cgetaddr env' cd = helper_cgetaddr env cb)
          /\ (is_cap_sealed ctp = false ->
              is_representable_cap ctp p = true ->
              helper_cfromptr env cd ct p
              = Ok (write_capreg env cd (set_cr_offset p ctp))))).
Proof.
  intros cbp ctp inside Hcd Htag. subst inside.
  unfold helper_ctoptr. fold cbp. fold ctp. rewrite Htag. simpl.
  split.
  - intros Hout. destruct (cr_tag cbp); simpl; [|reflexivity].
    destruct (cap_get_cursor cbp <? cr_base ctp) eqn:H1; simpl;
      [reflexivity|].
    destruct (cap_get_top ctp <? cap_get_cursor cbp) eqn:H2; [reflexivity|].
    apply Z.ltb_ge in H1, H2. exfalso. apply Hout. split; [reflexivity|lia].
  - intros (Hcb & Hlo & Hhi). rewrite Hcb. simpl.
    rewrite (proj2 (Z.ltb_ge _ _) Hlo), (proj2 (Z.ltb_ge _ _) Hhi). simpl.
    split; [reflexivity|]. intros Hp. split.
    + intros env' Hrun.
      destruct (cfromptr_ok _ _ _ _ _ Hp Hrun)
        as (env1 & result & -> & Htc & Hc & _).
      unfold helper_cgetaddr.
      rewrite (get_readonly_capreg_write_eq' env) by assumption.
      rewrite Hc. fold ctp. fold cbp.
      rewrite wrap64_plus_difference. apply wrap64_small.
      apply wrap64_range.
    + intros Hs Hrep. unfold helper_cfromptr. fold ctp.
      rewrite (proj2 (Z.eqb_neq _ _) Hp), Htag, Hs, Hrep. reflexivity.
Qed.

(** ** Pointer comparison *)

Lemma int64_of_uint64_range (x : Z) :
  0 <= x <= UINT64_MAX -> - 2 ^ 63 <= int64_of_uint64 x < 2 ^ 63.
Proof.
  unfold int64_of_uint64, UINT64_MAX. intros H.
  destruct (Z.ltb_spec x (2 ^ 63)); lia.
Qed.

Lemma int64_of_uint64_inj (x y : Z) :
  0 <= x <= UINT64_MAX -> 0 <= y <= UINT64_MAX ->
  int64_of_uint64 x = int64_of_uint64 y -> x = y.
Proof.
  unfold int64_of_uint64, UINT64_MAX. intros Hx Hy.
  destruct (Z.ltb_spec x (2 ^ 63)), (Z.ltb_spec y (2 ^ 63)); lia.
Qed.

Lemma unsigned_order_key_eq (c1 c2 : cap_register) :
  unsigned_order_key c1 = unsigned_order_key c2
  <-> cr_tag c1 = cr_tag c2 /\ cap_get_cursor c1 = cap_get_cursor c2.
Proof.
  unfold unsigned_order_key.
  pose proof (wrap64_range (cr_base c1 + cr_offset c1)) as H1.
  pose proof (wrap64_range (cr_base c2 + cr_offset c2)) as H2.
  fold (cap_get_cursor c1) in H1. fold (cap_get_cursor c2) in H2.
  unfold UINT64_MAX in *.
  destruct (cr_tag c1), (cr_tag c2); split;
    try (intros [? ?]; first [discriminate | lia]);
    intros ?; first [lia | split; [reflexivity | lia]].
Qed.

Lemma signed_order_key_eq (c1 c2 : cap_register) :
  signed_order_key c1 = signed_order_key c2
  <-> unsigned_order_key c1 = unsigned_order_key c2.
Proof.
  rewrite unsigned_order_key_eq. unfold signed_order_key.
  pose proof (wrap64_range (cr_base c1 + cr_offset c1)) as H1.
  pose proof (wrap64_range (cr_base c2 + cr_offset c2)) as H2.
  fold (cap_get_cursor c1) in H1. fold (cap_get_cursor c2) in H2.
  pose proof (int64_of_uint64_range _ H1) as R1.
  pose proof (int64_of_uint64_range _ H2) as R2.
  pose proof (int64_of_uint64_inj _ _ H1 H2) as Hinj.
  destruct (cr_tag c1), (cr_tag c2); split;
    try (intros [? ?]; first [discriminate | congruence]);
    intros ?; first [lia | split; [reflexivity | apply Hinj; lia]].
Qed.

Lemma cltu_key (env : CPUMIPSState) (cb ct : nat) :
  helper_cltu env cb ct
  = Z_of_bool (unsigned_order_key (get_readonly_capreg (active_tc env) cb)
               <? unsigned_order_key (get_readonly_capreg (active_tc env) ct)).
Proof.
  unfold helper_cltu, unsigned_order_key.
  set (cbp := get_readonly_capreg (active_tc env) cb).
  set (ctp := get_readonly_capreg (active_tc env) ct).
  pose proof (wrap64_range (cr_base cbp + cr_offset cbp)) as H1.
  pose proof (wrap64_range (cr_base ctp + cr_offset ctp)) as H2.
  fold (cap_get_cursor cbp) in H1. fold (cap_get_cursor ctp) in H2.
  unfold UINT64_MAX in *. f_equal.
  destruct (cr_tag cbp), (cr_tag ctp); simpl;
    repeat match goal with
           | |- context [?a <? ?b] => destruct (Z.ltb_spec a b)
           end; first [reflexivity | lia].
Qed.

Lemma cleu_key (env : CPUMIPSState) (cb ct : nat) :
  helper_cleu env cb ct
  = Z_of_bool (unsigned_order_key (get_readonly_capreg (active_tc env) cb)
               <=? unsigned_order_key (get_readonly_capreg (active_tc env) ct)).
Proof.
  unfold helper_cleu, unsigned_order_key.
  set (cbp := get_readonly_capreg (active_tc env) cb).
  set (ctp := get_readonly_capreg (active_tc env) ct).
  pose proof (wrap64_range (cr_base cbp + cr_offset cbp)) as H1.
  pose proof (wrap64_range (cr_base ctp + cr_offset ctp)) as H2.
  fold (cap_get_cursor cbp) in H1. fold (cap_get_cursor ctp) in H2.
  unfold UINT64_MAX in *. f_equal.
  destruct (cr_tag cbp), (cr_tag ctp); simpl;
    repeat match goal with
           | |- context [?a <=? ?b] => destruct (Z.leb_spec a b)
           end; first [reflexivity | lia].
Qed.

Lemma clt_key (env : CPUMIPSState) (cb ct : nat) :
  helper_clt env cb ct
  = Z_of_bool (signed_order_key (get_readonly_capreg (active_tc env) cb)
               <? signed_order_key (get_readonly_capreg (active_tc env) ct)).
Proof.
  unfold helper_clt, signed_order_key.
  set (cbp := get_readonly_capreg (active_tc env) cb).
  set (ctp := get_readonly_capreg (active_tc env) ct).
  pose proof (wrap64_range (cr_base cbp + cr_offset cbp)) as H1.
  pose proof (wrap64_range (cr_base ctp + cr_offset ctp)) as H2.
  fold (cap_get_cursor cbp) in H1. fold (cap_get_cursor ctp) in H2.
  pose proof (int64_of_uint64_range _ H1) as R1.
  pose proof (int64_of_uint64_range _ H2) as R2.
  f_equal.
  destruct (cr_tag cbp), (cr_tag ctp); simpl;
    repeat match goal with
           | |- context [?a <? ?b] => destruct (Z.ltb_spec a b)
           end; first [reflexivity | lia].
Qed.

Lemma cle_key (env : CPUMIPSState) (cb ct : nat) :
  helper_cle env cb ct
  = Z_of_bool (signed_order_key (get_readonly_capreg (active_tc env) cb)
               <=? signed_order_key (get_readonly_capreg (active_tc env) ct)).
Proof.
  unfold helper_cle, signed_order_key.
  set (cbp := get_readonly_capreg (active_tc env) cb).
  set (ctp := get_readonly_capreg (active_tc env) ct).
  pose proof (wrap64_range (cr_base cbp + cr_offset cbp)) as H1.
  pose proof (wrap64_range (cr_base ctp + cr_offset ctp)) as H2.
  fold (cap_get_cursor cbp) in H1. fold (cap_get_cursor ctp) in H2.
  pose proof (int64_of_uint64_range _ H1) as R1.
  pose proof (int64_of_uint64_range _ H2) as R2.
  f_equal.
  destruct (cr_tag cbp), (cr_tag ctp); simpl;
    repeat match goal with
           | |- context [?a <=? ?b] => destruct (Z.leb_spec a b)
           end; first [reflexivity | lia].
Qed.

Lemma ceq_key (env : CPUMIPSState) (cb ct : nat) :
  helper_ceq env cb ct
  = Z_of_bool (unsigned_order_key (get_readonly_capreg (active_tc env) cb)
               =? unsigned_order_key (get_readonly_capreg (active_tc env) ct)).
Proof.
  unfold helper_ceq.
  set (cbp := get_readonly_capreg (active_tc env) cb).
  set (ctp := get_readonly_capreg (active_tc env) ct).
  pose proof (unsigned_order_key_eq cbp ctp) as Hkey. f_equal.
  destruct (Z.eqb_spec (unsigned_order_key cbp) (unsigned_order_key ctp))
    as [Heq|Hne].
  - apply Hkey in Heq as [-> ->]. rewrite eqb_reflx, Z.eqb_refl. reflexivity.
  - destruct (eqb (cr_tag cbp) (cr_tag ctp)) eqn:Ht; [|reflexivity]. simpl.
    destruct (Z.eqb_spec (cap_get_cursor cbp) (cap_get_cursor ctp));
      [|reflexivity].
    exfalso. apply Hne, Hkey. split; [apply eqb_prop; exact Ht|assumption].
Qed.

(** Decides the comparisons that the goal mentions. *)
Ltac decide_comparisons :=
  repeat match goal with
         | |- context [?a <? ?b] => destruct (Z.ltb_spec a b)
         | |- context [?a <=? ?b] => destruct (Z.leb_spec a b)
         | |- context [?a =? ?b] => destruct (Z.eqb_spec a b)
         end.

(** The laws of the pointer comparisons: trichotomy, complements and
    transitivity. *)
Lemma pointer_comparisons_order_laws (env : CPUMIPSState)
    (cb ct cu : nat) :
  let exactly_one := fun lt eq gt : Z =>
    (lt = 1 /\ eq = 0 /\ gt = 0) \/ (lt = 0 /\ eq = 1 /\ gt = 0)
    \/ (lt = 0 /\ eq = 0 /\ gt = 1) in
  exactly_one (helper_cltu env cb ct) (helper_ceq env cb ct)
              (helper_cltu env ct cb)
  /\ exactly_one (helper_clt env cb ct) (helper_ceq env cb ct)
                 (helper_clt env ct cb)
  /\ helper_cleu env cb ct = 1 - helper_cltu env ct cb
  /\ helper_cle env cb ct = 1 - helper_clt env ct cb
  /\ helper_cne env cb ct = 1 - helper_ceq env cb ct
  /\ (helper_cltu env cb ct = 1 -> helper_cltu env ct cu = 1 ->
      helper_cltu env cb cu = 1)
  /\ (helper_clt env cb ct = 1 -> helper_clt env ct cu = 1 ->
      helper_clt env cb cu = 1)
  /\ (cr_tag (get_readonly_capreg (active_tc env) cb) = false ->
      cr_tag (get_readonly_capreg (active_tc env) ct) = true ->
      helper_cltu env cb ct = 1 /\ helper_clt env cb ct = 1).
Proof.
  intros exactly_one. subst exactly_one. cbv beta.
  set (cbp := get_readonly_capreg (active_tc env) cb).
  set (ctp := get_readonly_capreg (active_tc env) ct).
  set (cup := get_readonly_capreg (active_tc env) cu).
  pose proof (signed_order_key_eq cbp ctp) as Hs.
  split; [|split; [|split; [|split; [|split; [|split; [|split]]]]]].
  - rewrite !cltu_key, ceq_key. fold cbp. fold ctp.
    generalize (unsigned_order_key cbp), (unsigned_order_key ctp).
    intros a b. decide_comparisons; simpl; try lia;
      first [ left; repeat split; reflexivity
            | right; left; repeat split; reflexivity
            | right; right; repeat split; reflexivity ].
  - rewrite !clt_key, ceq_key. fold cbp. fold ctp.
    revert Hs.
    generalize (unsigned_order_key cbp), (unsigned_order_key ctp),
               (signed_order_key cbp), (signed_order_key ctp).
    intros a b sa sb Hs. decide_comparisons; simpl; try lia;
      first [ left; repeat split; reflexivity
            | right; left; repeat split; reflexivity
            | right; right; repeat split; reflexivity ].
  - rewrite cleu_key, cltu_key. fold cbp. fold ctp.
    generalize (unsigned_order_key cbp), (unsigned_order_key ctp).
    intros a b. decide_comparisons; simpl; lia.
  - rewrite cle_key, clt_key. fold cbp. fold ctp.
    generalize (signed_order_key cbp), (signed_order_key ctp).
    intros a b. decide_comparisons; simpl; lia.
  - unfold helper_cne, helper_ceq. fold cbp. fold ctp.
    destruct (if negb (eqb (cr_tag cbp) (cr_tag ctp)) then false
              else cap_get_cursor cbp =? cap_get_cursor ctp); reflexivity.
  - rewrite !cltu_key. fold cbp. fold ctp. fold cup.
    generalize (unsigned_order_key cbp), (unsigned_order_key ctp),
               (unsigned_order_key cup).
    intros a b c. decide_comparisons; simpl; intros; first [reflexivity|lia].
  - rewrite !clt_key. fold cbp. fold ctp. fold cup.
    generalize (signed_order_key cbp), (signed_order_key ctp),
               (signed_order_key cup).
    intros a b c. decide_comparisons; simpl; intros; first [reflexivity|lia].
  - intros Hb Ht. unfold helper_cltu, helper_clt. fold cbp. fold ctp.
    rewrite Hb, Ht. split; reflexivity.
Qed.

(** X10: the pointer comparisons order the capability registers by tag
    first (untagged before tagged) and by cursor second.  CLTU(cb, ct)
    gives 1 exactly when [cb] is untagged and [ct] tagged, or the tags
    are equal and the cursor of [cb] is below that of [ct]; CLT likewise
    with the cursors read as signed 64-bit numbers, so that between equal
    tags a cursor of 2^63 or more is above a smaller one for CLTU and
    below it for CLT; CEQ gives 1 exactly when tags and cursors are equal.
    For any two registers exactly one of CLTU(cb, ct), CEQ(cb, ct) and
    CLTU(ct, cb) gives 1, and likewise with CLT; CLEU and CLE give 1
    exactly when the opposite strict comparison gives 0; CNE is the
    complement of CEQ; and CLTU and CLT are transitive. *)
Theorem pointer_comparisons_are_total_orders (env : CPUMIPSState)
    (cb ct cu : nat) :
  let cbp := get_readonly_capreg (active_tc env) cb in
  let ctp := get_readonly_capreg (active_tc env) ct in
  let exactly_one := fun lt eq gt : Z =>
    (lt = 1 /\ eq = 0 /\ gt = 0) \/ (lt = 0 /\ eq = 1 /\ gt = 0)
    \/ (lt = 0 /\ eq = 0 /\ gt = 1) in
  (helper_cltu env cb ct = 1
   <-> (cr_tag cbp = false /\ cr_tag ctp = true)
       \/ (cr_tag cbp = cr_tag ctp
           /\ cap_get_cursor cbp < cap_get_cursor ctp))
  /\ (helper_clt env cb ct = 1
      <-> (cr_tag cbp = false /\ cr_tag ctp = true)
          \/ (cr_tag cbp = cr_tag ctp
              /\ int64_of_uint64 (cap_get_cursor cbp)
                 < int64_of_uint64 (cap_get_cursor ctp)))
  /\ (helper_ceq env cb ct = 1
      <-> cr_tag cbp = cr_tag ctp /\ cap_get_cursor cbp = cap_get_cursor ctp)
  /\ (cr_tag cbp = cr_tag ctp ->
      cap_get_cursor cbp < 2 ^ 63 <= cap_get_cursor ctp ->
      helper_cltu env cb ct = 1 /\ helper_clt env ct cb = 1)
  /\ exactly_one (helper_cltu env cb ct) (helper_ceq env cb ct)
                 (helper_cltu env ct cb)
  /\ exactly_one (helper_clt env cb ct) (helper_ceq env cb ct)
                 (helper_clt env ct cb)
  /\ helper_cleu env cb ct = 1 - helper_cltu env ct cb
  /\ helper_cle env cb ct = 1 - helper_clt env ct cb
  /\ helper_cne env cb ct = 1 - helper_ceq env cb ct
  /\ (helper_cltu env cb ct = 1 -> helper_cltu env ct cu = 1 ->
      helper_cltu env cb cu = 1)
  /\ (helper_clt env cb ct = 1 -> helper_clt env ct cu = 1 ->
      helper_clt env cb cu = 1).
Proof.
  intros cbp ctp exactly_one.
  destruct (pointer_comparisons_order_laws env cb ct cu)
    as (L1 & L2 & L3 & L4 & L5 & L6 & L7 & _).
  pose proof (wrap64_range (cr_base cbp + cr_offset cbp)) as Hb.
  pose proof (wrap64_range (cr_base ctp + cr_offset ctp)) as Ht.
  fold (cap_get_cursor cbp) in Hb. fold (cap_get_cursor ctp) in Ht.
  unfold UINT64_MAX in Hb, Ht.
  split; [|split; [|split; [|split]]].
  - unfold helper_cltu. fold cbp. fold ctp.
    destruct (cr_tag cbp), (cr_tag ctp); simpl;
      try destruct (Z.ltb_spec (cap_get_cursor cbp) (cap_get_cursor ctp));
      simpl; split;
      try (intros _; first [left; split; reflexivity
                           |right; split; [reflexivity|assumption]]);
      try discriminate; try reflexivity;
      intros [[? ?] | [? ?]]; first [discriminate | lia].
  - unfold helper_clt. fold cbp. fold ctp.
    destruct (cr_tag cbp), (cr_tag ctp); simpl;
      try destruct (Z.ltb_spec (int64_of_uint64 (cap_get_cursor cbp))
                               (int64_of_uint64 (cap_get_cursor ctp)));
      simpl; split;
      try (intros _; first [left; split; reflexivity
                           |right; split; [reflexivity|assumption]]);
      try discriminate; try reflexivity;
      intros [[? ?] | [? ?]]; first [discriminate | lia].
  - unfold helper_ceq. fold cbp. fold ctp.
    destruct (cr_tag cbp), (cr_tag ctp); simpl;
      try destruct (Z.eqb_spec (cap_get_cursor cbp) (cap_get_cursor ctp));
      simpl; split;
      try (intros _; split; [reflexivity|assumption]);
      try discriminate; try reflexivity;
      intros [? ?]; first [discriminate | contradiction].
  - intros Htag [Hlow Hhigh]. unfold helper_cltu, helper_clt.
    fold cbp. fold ctp. rewrite Htag, !eqb_reflx. simpl.
    unfold int64_of_uint64.
    rewrite (proj2 (Z.ltb_lt (cap_get_cursor cbp) (2 ^ 63)) Hlow).
    rewrite (proj2 (Z.ltb_ge (cap_get_cursor ctp) (2 ^ 63)) Hhigh).
    rewrite (proj2 (Z.ltb_lt (cap_get_cursor cbp) (cap_get_cursor ctp)))
      by lia.
    rewrite (proj2 (Z.ltb_lt (cap_get_cursor ctp - 2 ^ 64)
                             (cap_get_cursor cbp))) by lia.
    split; reflexivity.
  - repeat split; assumption.
Qed.

(** ** Equality and inclusion of capabilities *)

Lemma Z_of_bool_1 (b : bool) : Z_of_bool b = 1 <-> b = true.
Proof. destruct b; simpl; split; intros H; first [reflexivity|discriminate]. Qed.

Lemma cexeq_spec (env : CPUMIPSState) (cb ct : nat) :
  let cbp := get_readonly_capreg (active_tc env) cb in
  let ctp := get_readonly_capreg (active_tc env) ct in
  helper_cexeq env cb ct = 1
  <-> cr_tag cbp = cr_tag ctp /\ cr_base cbp = cr_base ctp
      /\ cr_offset cbp = cr_offset ctp /\ _cr_top cbp = _cr_top ctp
      /\ cr_otype cbp = cr_otype ctp /\ cr_perms cbp = cr_perms ctp.
Proof.
  intros cbp ctp. unfold helper_cexeq. fold cbp. fold ctp.
  rewrite Z_of_bool_1.
  destruct (eqb (cr_tag cbp) (cr_tag ctp)) eqn:Ht; simpl;
    [apply eqb_prop in Ht
    |split; [discriminate|]; intros (Heq & _); rewrite Heq in Ht;
     rewrite eqb_reflx in Ht; discriminate].
  destruct (Z.eqb_spec (cr_base cbp) (cr_base ctp)); simpl;
    [|split; [discriminate|]; intros (_ & ? & _); contradiction].
  destruct (Z.eqb_spec (cr_offset cbp) (cr_offset ctp)); simpl;
    [|split; [discriminate|]; intros (_ & _ & ? & _); contradiction].
  destruct (Z.eqb_spec (_cr_top cbp) (_cr_top ctp)); simpl;
    [|split; [discriminate|]; intros (_ & _ & _ & ? & _); contradiction].
  destruct (Z.eqb_spec (cr_otype cbp) (cr_otype ctp)); simpl;
    [|split; [discriminate|]; intros (_ & _ & _ & _ & ? & _); contradiction].
  destruct (Z.eqb_spec (cr_perms cbp) (cr_perms ctp)); simpl;
    [|split; [discriminate|]; intros (_ & _ & _ & _ & _ & ?); contradiction].
  split; [intros _|reflexivity]. repeat split; assumption.
Qed.

(** X11: CExEq gives 1 exactly when the two registers agree on the tag,
    the base, the offset, the top, the otype and the permissions; the
    user permissions are not compared, so a register that differs from
    another in its user permissions only is CExEq-equal to it.  When CExEq
    gives 1, CEQ gives 1 and CGetTag, CGetBase, CGetLen, CGetOffset,
    CGetAddr and CGetSealed give the same for both registers.  CNExEq is
    the complement of CExEq. *)
Theorem cexeq_compares_all_but_user_permissions (env : CPUMIPSState)
    (cb ct : nat) :
  let cbp := get_readonly_capreg (active_tc env) cb in
  let ctp := get_readonly_capreg (active_tc env) ct in
  (helper_cexeq env cb ct = 1
   <-> cr_tag cbp = cr_tag ctp /\ cr_base cbp = cr_base ctp
       /\ cr_offset cbp = cr_offset ctp /\ _cr_top cbp = _cr_top ctp
       /\ cr_otype cbp = cr_otype ctp /\ cr_perms cbp = cr_perms ctp)
  /\ (forall uperms : Z,
        ctp = set_cr_uperms uperms cbp -> helper_cexeq env cb ct = 1)
  /\ (helper_cexeq env cb ct = 1 ->
      helper_ceq env cb ct = 1
      /\ helper_cgettag env cb = helper_cgettag env ct
      /\ helper_cgetbase env cb = helper_cgetbase env ct
      /\ helper_cgetlen env cb = helper_cgetlen env ct
      /\ helper_cgetoffset env cb = helper_cgetoffset env ct
      /\ helper_cgetaddr env cb = helper_cgetaddr env ct
      /\ helper_cgetsealed env cb = helper_cgetsealed env ct)
  /\ helper_cnexeq env cb ct = 1 - helper_cexeq env cb ct.
Proof.
  intros cbp ctp.
  split; [apply cexeq_spec|split; [|split]].
  - intros uperms Hct. apply cexeq_spec. fold cbp. fold ctp.
    rewrite Hct. repeat split.
  - intros Heq. apply cexeq_spec in Heq.
    destruct Heq as (Ht & Hb & Ho & Htop & Hty & Hp).
    fold cbp in Ht, Hb, Ho, Htop, Hty, Hp.
    fold ctp in Ht, Hb, Ho, Htop, Hty, Hp.
    unfold helper_ceq, helper_cgettag, helper_cgetbase, helper_cgetlen,
           helper_cgetoffset, helper_cgetaddr, helper_cgetsealed.
    fold cbp. fold ctp.
    unfold cap_get_length, cap_get_length65, cap_get_cursor,
           cap_is_sealed_with_type, cap_is_sealed_entry.
    rewrite Ht, Hb, Ho, Htop, Hty. rewrite eqb_reflx, Z.eqb_refl.
    repeat split.
  - unfold helper_cnexeq. unfold helper_cexeq. fold cbp. fold ctp.
    match goal with
    | |- context [Z_of_bool ?b] => destruct b; reflexivity
    end.
Qed.

Lemma land_subset_trans (a b c : Z) :
  Z.land c b = c -> Z.land b a = b -> Z.land c a = c.
Proof.
  intros Hcb Hba. rewrite <- Hcb at 1.
  rewrite <- Z.land_assoc, Hba. exact Hcb.
Qed.

Lemma ctestsubset_spec (env : CPUMIPSState) (cb ct : nat) :
  let cbp := get_readonly_capreg (active_tc env) cb in
  let ctp := get_readonly_capreg (active_tc env) ct in
  helper_ctestsubset env cb ct = 1
  <-> cr_tag cbp = cr_tag ctp
      /\ cr_base cbp <= cr_base ctp
      /\ cap_get_top ctp <= cap_get_top cbp
      /\ Z.land (cr_perms ctp) (cr_perms cbp) = cr_perms ctp
      /\ Z.land (cr_uperms ctp) (cr_uperms cbp) = cr_uperms ctp.
Proof.
  intros cbp ctp. unfold helper_ctestsubset. fold cbp. fold ctp.
  rewrite Z_of_bool_1, !andb_true_iff, !Z.leb_le, !Z.eqb_eq.
  unfold cap_get_base.
  assert (eqb (cr_tag cbp) (cr_tag ctp) = true <-> cr_tag cbp = cr_tag ctp)
    as Htag.
  { split; [apply eqb_prop|intros ->; apply eqb_reflx]. }
  rewrite Htag. tauto.
Qed.

(** CTestSubset is reflexive and transitive, and what it compares. *)
Lemma ctestsubset_preorder_laws (env : CPUMIPSState) (cb ct cu : nat) :
  let cbp := get_readonly_capreg (active_tc env) cb in
  let ctp := get_readonly_capreg (active_tc env) ct in
  helper_ctestsubset env cb cb = 1
  /\ (helper_ctestsubset env cb ct = 1 -> helper_ctestsubset env ct cu = 1 ->
      helper_ctestsubset env cb cu = 1)
  /\ (helper_ctestsubset env cb ct = 1
      <-> cr_tag cbp = cr_tag ctp
          /\ cr_base cbp <= cr_base ctp
          /\ cap_get_top ctp <= cap_get_top cbp
          /\ Z.land (cr_perms ctp) (cr_perms cbp) = cr_perms ctp
          /\ Z.land (cr_uperms ctp) (cr_uperms cbp) = cr_uperms ctp)
  /\ (helper_ctestsubset env cb ct = 1 -> helper_ctestsubset env ct cb = 1 ->
      cr_tag cbp = cr_tag ctp /\ cr_base cbp = cr_base ctp
      /\ cap_get_top cbp = cap_get_top ctp
      /\ cr_perms cbp = cr_perms ctp /\ cr_uperms cbp = cr_uperms ctp).
Proof.
  intros cbp ctp.
  split; [|split; [|split; [apply ctestsubset_spec|]]].
  - apply ctestsubset_spec. rewrite !Z.land_diag. repeat split; lia.
  - rewrite !ctestsubset_spec.
    intros (H1 & H2 & H3 & H4 & H5) (G1 & G2 & G3 & G4 & G5).
    split; [congruence|]. split; [lia|]. split; [lia|].
    split; eapply land_subset_trans; eassumption.
  - rewrite !ctestsubset_spec. fold cbp. fold ctp.
    intros (H1 & H2 & H3 & H4 & H5) (G1 & G2 & G3 & G4 & G5).
    split; [assumption|]. split; [lia|]. split; [lia|].
    split.
    + rewrite <- G4. rewrite Z.land_comm. exact H4.
    + rewrite <- G5. rewrite Z.land_comm. exact H5.
Qed.

(** X12: CTestSubset is a preorder on the capability registers: every
    register is a subset of itself, and a subset of a subset is a subset.
    It gives 1 exactly when the tags are equal, the base of [ct] is not
    below that of [cb], the top of [ct] as [cap_get_top] gives it, which
    is the top with 2^64 replaced by 2^64 - 1, is not above that of [cb]
    given likewise, and [ct] has no permission and no user permission
    that [cb] lacks.  So the tops themselves are compared only below
    2^64: when CTestSubset gives 1 and the top of [ct] is at most
    2^64 - 1, it is not above the top of [cb]; but for a [cb] whose top is
    2^64 - 1 or more the top of [ct] is not looked at, and a [ct] that
    reaches 2^64 counts as a subset of a [cb] that ends one byte before.
    Two registers that are subsets of each other agree on the tag, the
    base, the top as [cap_get_top] gives it and the permissions. *)
Theorem ctestsubset_is_a_preorder (env : CPUMIPSState) (cb ct cu : nat) :
  let cbp := get_readonly_capreg (active_tc env) cb in
  let ctp := get_readonly_capreg (active_tc env) ct in
  helper_ctestsubset env cb cb = 1
  /\ (helper_ctestsubset env cb ct = 1 -> helper_ctestsubset env ct cu = 1 ->
      helper_ctestsubset env cb cu = 1)
  /\ (helper_ctestsubset env cb ct = 1
      <-> cr_tag cbp = cr_tag ctp
          /\ cr_base cbp <= cr_base ctp
          /\ Z.min (_cr_top ctp) (2 ^ 64 - 1) <= Z.min (_cr_top cbp) (2 ^ 64 - 1)
          /\ Z.land (cr_perms ctp) (cr_perms cbp) = cr_perms ctp
          /\ Z.land (cr_uperms ctp) (cr_uperms cbp) = cr_uperms ctp)
  /\ (helper_ctestsubset env cb ct = 1 -> _cr_top ctp <= 2 ^ 64 - 1 ->
      _cr_top ctp <= _cr_top cbp)
  /\ (2 ^ 64 - 1 <= _cr_top cbp ->
      cr_tag cbp = cr_tag ctp -> cr_base cbp <= cr_base ctp ->
      Z.land (cr_perms ctp) (cr_perms cbp) = cr_perms ctp ->
      Z.land (cr_uperms ctp) (cr_uperms cbp) = cr_uperms ctp ->
      helper_ctestsubset env cb ct = 1)
  /\ (helper_ctestsubset env cb ct = 1 -> helper_ctestsubset env ct cb = 1 ->
      cr_tag cbp = cr_tag ctp /\ cr_base cbp = cr_base ctp
      /\ Z.min (_cr_top cbp) (2 ^ 64 - 1) = Z.min (_cr_top ctp) (2 ^ 64 - 1)
      /\ cr_perms cbp = cr_perms ctp /\ cr_uperms cbp = cr_uperms ctp).
Proof.
  intros cbp ctp.
  destruct (ctestsubset_preorder_laws env cb ct cu) as (L1 & L2 & L3 & L4).
  fold cbp ctp in L3, L4.
  assert (forall c, cap_get_top c = Z.min (_cr_top c) (2 ^ 64 - 1)) as Htop
      by reflexivity.
  rewrite !Htop in L3, L4.
  split; [exact L1|]. split; [exact L2|]. split; [exact L3|].
  split; [|split; [|exact L4]].
  - intros Hsub Hle. apply L3 in Hsub. lia.
  - intros Hle Htag Hbase Hp Hu. apply L3. repeat split; try assumption. lia.
Qed.

(** ** Monotonicity *)

Lemma testbit_wrap32 (x n : Z) :
  0 <= n -> Z.testbit (wrap32 x) n = (n <? 32) && Z.testbit x n.
Proof.
  intros Hn. unfold wrap32. destruct (Z.ltb_spec n 32).
  - rewrite Z.mod_pow2_bits_low by lia. reflexivity.
  - rewrite Z.mod_pow2_bits_high by lia. reflexivity.
Qed.

Lemma testbit_below_pow2 (a k n : Z) :
  0 <= a < 2 ^ k -> k <= n -> Z.testbit a n = false.
Proof.
  intros Ha Hn. destruct (Z.eq_dec a 0) as [->|Hne]; [apply Z.bits_0|].
  apply Z.bits_above_log2; [lia|].
  assert (0 <= k).
  { destruct (Z.lt_ge_cases k 0) as [Hk|Hk]; [|exact Hk].
    rewrite Z.pow_neg_r in Ha by exact Hk. lia. }
  assert (Z.log2 a < k) by (apply Z.log2_lt_pow2; lia). lia.
Qed.

(** The permission word of CGetPerm after the masking of CAndPerm is the
    permission word before, masked. *)
Lemma getperm_after_andperm (p u rt : Z) :
  0 <= CAP_PERMS_ALL < 2 ^ 32 -> 0 <= CAP_UPERMS_SHFT ->
  Z.lor
    (Z.land (Z.land p (Z.land (wrap32 rt) CAP_PERMS_ALL)) CAP_PERMS_ALL)
    (wrap32
       (Z.shiftl
          (Z.land
             (Z.land u
                (Z.land (Z.shiftr (wrap32 rt) CAP_UPERMS_SHFT) CAP_UPERMS_ALL))
             CAP_UPERMS_ALL)
          CAP_UPERMS_SHFT))
  = Z.land
      (Z.lor (Z.land p CAP_PERMS_ALL)
             (wrap32 (Z.shiftl (Z.land u CAP_UPERMS_ALL) CAP_UPERMS_SHFT)))
      rt.
Proof.
  intros Hall Hshft. apply Z.bits_inj'. intros n Hn.
  rewrite !Z.lor_spec, !Z.land_spec, !Z.lor_spec, !Z.land_spec.
  rewrite !testbit_wrap32 by exact Hn.
  rewrite !Z.shiftl_spec by exact Hn. rewrite !Z.land_spec.
  destruct (Z.ltb_spec n 32) as [Hlow|Hhigh]; simpl.
  - destruct (Z.lt_ge_cases (n - CAP_UPERMS_SHFT) 0) as [Hneg|Hpos].
    + rewrite !(Z.testbit_neg_r u) by exact Hneg. simpl.
      rewrite !orb_false_r.
      destruct (Z.testbit p n), (Z.testbit rt n),
               (Z.testbit CAP_PERMS_ALL n); reflexivity.
    + rewrite Z.shiftr_spec by exact Hpos.
      replace (n - CAP_UPERMS_SHFT + CAP_UPERMS_SHFT) with n by lia.
      rewrite testbit_wrap32 by exact Hn.
      rewrite (proj2 (Z.ltb_lt n 32)) by exact Hlow. simpl.
      destruct (Z.testbit p n), (Z.testbit rt n),
               (Z.testbit CAP_PERMS_ALL n),
               (Z.testbit u (n - CAP_UPERMS_SHFT)),
               (Z.testbit CAP_UPERMS_ALL (n - CAP_UPERMS_SHFT)); reflexivity.
  - rewrite (testbit_below_pow2 CAP_PERMS_ALL 32 n) by lia.
    rewrite !andb_false_r. reflexivity.
Qed.

(** X13: CAndPerm only takes permissions away.  When it completes, the
    destination (one of registers 1 to 31) holds the source with its
    permissions and user permissions masked and nothing else changed:
    CTestSubset of the source register and the destination gives 1, and,
    the permission mask being a 32-bit number and the shift of the user
    permissions not negative, CGetPerm of the destination is CGetPerm of
    the source ANDed with the operand. *)
Theorem candperm_only_removes_permissions (env env' : CPUMIPSState)
    (cd cb : nat) (rt : Z) :
  let cbp := get_readonly_capreg (active_tc env) cb in
  let r := get_readonly_capreg (active_tc env') cd in
  (0 < cd < length (_CGPR (active_tc env)))%nat ->
  helper_candperm env cd cb rt = Ok env' ->
  cr_tag r = cr_tag cbp /\ cr_base r = cr_base cbp /\ _cr_top r = _cr_top cbp
  /\ cr_offset r = cr_offset cbp /\ cr_otype r = cr_otype cbp
  /\ Z.land (cr_perms r) (cr_perms cbp) = cr_perms r
  /\ Z.land (cr_uperms r) (cr_uperms cbp) = cr_uperms r
  /\ helper_ctestsubset env' cb cd = 1
  /\ (0 <= CAP_PERMS_ALL < 2 ^ 32 -> 0 <= CAP_UPERMS_SHFT ->
      helper_cgetperm env' cd = Z.land (helper_cgetperm env cb) rt).
Proof.
  intros cbp r Hcd. subst r. unfold helper_candperm. fold cbp.
  destruct (cr_tag cbp) eqn:Htag; simpl; [|discriminate].
  destruct (is_cap_sealed cbp); [discriminate|].
  intros H. injection H as <-.
  set (result := set_cr_uperms _ _).
  assert (get_readonly_capreg (active_tc (write_capreg env cd result)) cd
          = result) as Hread by (apply get_readonly_capreg_write_eq; exact Hcd).
  assert (Z.land (cr_perms result) (cr_perms cbp) = cr_perms result) as Hp.
  { subst result. simpl.
    rewrite (Z.land_comm (cr_perms cbp)), <- Z.land_assoc, Z.land_diag.
    reflexivity. }
  assert (Z.land (cr_uperms result) (cr_uperms cbp) = cr_uperms result) as Hu.
  { subst result. simpl.
    rewrite (Z.land_comm (cr_uperms cbp)), <- Z.land_assoc, Z.land_diag.
    reflexivity. }
  rewrite Hread.
  split; [exact Htag|]. do 4 (split; [reflexivity|]).
  split; [exact Hp|]. split; [exact Hu|]. split.
  - apply ctestsubset_spec. rewrite Hread.
    destruct (Nat.eq_dec cd cb) as [->|Hne].
    + rewrite Hread. rewrite !Z.land_diag. repeat split; lia.
    + rewrite get_readonly_capreg_write_ne by exact Hne. fold cbp.
      split; [reflexivity|]. split; [simpl; lia|].
      split; [unfold cap_get_top, cap_get_top65; simpl; lia|].
      split; assumption.
  - intros Hall Hshft. unfold helper_cgetperm. rewrite Hread. fold cbp.
    subst result. simpl. apply getperm_after_andperm; assumption.
Qed.

(** What [do_setbounds] has checked and written when it returns. *)
Lemma do_setbounds_ok (must_be_exact : bool) (env env' : CPUMIPSState)
    (cd cb : nat) (length : Z) :
  let cbp := get_readonly_capreg (active_tc env) cb in
  let cursor := cap_get_cursor cbp in
  do_setbounds must_be_exact env cd cb length = Ok env' ->
  exists (env1 : CPUMIPSState) (result : cap_register),
    env' = write_capreg env1 cd result
    /\ active_tc env1 = active_tc env
    /\ tagmem env1 = tagmem env /\ memory env1 = memory env
    /\ cr_tag cbp = true /\ is_cap_sealed cbp = false
    /\ cr_base cbp <= cr_base result /\ _cr_top result <= _cr_top cbp
    /\ result =
       if CHERI_128 then fst (cc128_setbounds cbp cursor (cursor + length))
       else set_cr_offset 0
              (set_cr_top (cursor + length) (set_cr_base cursor cbp)).
Proof.
  intros cbp cursor. unfold do_setbounds. fold cbp. fold cursor.
  destruct (cr_tag cbp); simpl; [|discriminate].
  destruct (is_cap_sealed cbp); [discriminate|].
  destruct (cursor <? cr_base cbp); [discriminate|].
  destruct (UINT64_MAX <? cursor + length); [discriminate|].
  destruct (cap_get_top cbp <? cursor + length); [discriminate|].
  destruct CHERI_128.
  - destruct (cc128_setbounds cbp cursor (cursor + length))
      as [result exact] eqn:Hsb.
    destruct (must_be_exact && negb exact); [discriminate|].
    destruct (negb (cc128_is_representable_cap_exact result)); [discriminate|].
    set (env1 := if exact then env else _).
    pose proof (setbounds_commit_spec env1 cd cbp result) as Hc.
    destruct (setbounds_commit env1 cd cbp result) as [e| |];
      [|discriminate|discriminate].
    destruct Hc as (-> & Hb & Ht). intros H. injection H as <-.
    exists env1, result. split; [reflexivity|].
    assert (active_tc env1 = active_tc env /\ tagmem env1 = tagmem env
            /\ memory env1 = memory env) as (H1 & H2 & H3).
    { subst env1. destruct exact; repeat split. }
    repeat split; assumption.
  - set (result := set_cr_offset 0 _).
    pose proof (setbounds_commit_spec env cd cbp result) as Hc.
    destruct (setbounds_commit env cd cbp result) as [e| |];
      [|discriminate|discriminate].
    destruct Hc as (-> & Hb & Ht). intros H. injection H as <-.
    exists env, result. repeat split; assumption.
Qed.

Lemma cap_get_top_mono (c1 c2 : cap_register) :
  _cr_top c1 <= _cr_top c2 -> cap_get_top c1 <= cap_get_top c2.
Proof. unfold cap_get_top, cap_get_top65. lia. Qed.

(** X14: the result of CSetBounds and of CSetBoundsExact is a subset of
    its source, in the sense of CTestSubset.  When either completes, the
    source was tagged and not sealed, and, the encoding leaving the tag
    and the permissions alone when it sets bounds, the destination (one
    of registers 1 to 31) is tagged, has the permissions and user
    permissions of the source, a base not below and a top not above those
    of the source, and CTestSubset of the source register and the
    destination gives 1. *)
Theorem setbounds_result_is_subset (must_be_exact : bool)
    (env env' : CPUMIPSState) (cd cb : nat) (length : Z) :
  let cbp := get_readonly_capreg (active_tc env) cb in
  let r := get_readonly_capreg (active_tc env') cd in
  (0 < cd < List.length (_CGPR (active_tc env)))%nat ->
  (forall c cursor top,
      let c' := fst (cc128_setbounds c cursor top) in
      cr_tag c' = cr_tag c /\ cr_perms c' = cr_perms c
      /\ cr_uperms c' = cr_uperms c) ->
  do_setbounds must_be_exact env cd cb length = Ok env' ->
  cr_tag cbp = true /\ is_cap_sealed cbp = false
  /\ cr_tag r = true
  /\ cr_perms r = cr_perms cbp /\ cr_uperms r = cr_uperms cbp
  /\ cr_base cbp <= cr_base r /\ _cr_top r <= _cr_top cbp
  /\ helper_ctestsubset env' cb cd = 1.
Proof.
  intros cbp r Hcd Hkeeps Hrun. subst r.
  destruct (do_setbounds_ok _ _ _ _ _ _ Hrun)
    as (env1 & result & -> & Htc & _ & _ & Htag & Hs & Hb & Ht & Hres).
  fold cbp in Htag, Hs, Hb, Ht, Hres.
  assert (get_readonly_capreg (active_tc (write_capreg env1 cd result)) cd
          = result) as Hread
      by (apply (get_readonly_capreg_write_eq' env); assumption).
  assert (cr_tag result = cr_tag cbp /\ cr_perms result = cr_perms cbp
          /\ cr_uperms result = cr_uperms cbp) as (Hrt & Hrp & Hru).
  { rewrite Hres. destruct CHERI_128; [apply Hkeeps|repeat split]. }
  rewrite Hread.
  split; [exact Htag|]. split; [exact Hs|]. split; [congruence|].
  split; [exact Hrp|]. split; [exact Hru|]. split; [exact Hb|].
  split; [exact Ht|].
  apply ctestsubset_spec. rewrite Hread.
  destruct (Nat.eq_dec cd cb) as [->|Hne].
  - rewrite Hread. rewrite !Z.land_diag. repeat split; lia.
  - rewrite (get_readonly_capreg_write_ne' env) by assumption. fold cbp.
    split; [congruence|]. split; [exact Hb|].
    split; [apply cap_get_top_mono; exact Ht|].
    rewrite Hrp, Hru, !Z.land_diag. split; reflexivity.
Qed.

(** What CBuildCap has checked and written when it completes. *)
Lemma cbuildcap_ok (env env' : CPUMIPSState)
    (cd cb ct : nat) :
  let cbp := get_capreg_0_is_ddc (active_tc env) cb in
  let ctp := get_readonly_capreg (active_tc env) ct in
  let r := get_readonly_capreg (active_tc env') cd in
  (0 < cd < List.length (_CGPR (active_tc env)))%nat ->
  helper_cbuildcap env cd cb ct = Ok env' ->
  cr_tag cbp = true /\ is_cap_sealed cbp = false
  /\ cr_tag r = true
  /\ cr_base r = cr_base ctp /\ _cr_top r = _cr_top ctp
  /\ cr_offset r = cr_offset ctp
  /\ cr_perms r = cr_perms ctp /\ cr_uperms r = cr_uperms ctp
  /\ cr_otype r = (if cap_is_sealed_entry ctp then CAP_OTYPE_SENTRY
                   else CAP_OTYPE_UNSEALED)
  /\ cr_base cbp <= cr_base r /\ cap_get_top r <= cap_get_top cbp
  /\ Z.land (cr_perms r) (cr_perms cbp) = cr_perms r
  /\ Z.land (cr_uperms r) (cr_uperms cbp) = cr_uperms r
  /\ (cb <> 0%nat -> helper_ctestsubset env' cb cd = 1).
Proof.
  intros cbp ctp r Hcd. subst r. unfold helper_cbuildcap. fold cbp. fold ctp.
  destruct (cr_tag cbp) eqn:Htag; simpl; [|discriminate].
  destruct (is_cap_sealed cbp) eqn:Hs; [discriminate|].
  destruct (Z.ltb_spec (cr_base ctp) (cr_base cbp)) as [|Hb]; [discriminate|].
  destruct (Z.ltb_spec (cap_get_top cbp) (cap_get_top ctp)) as [|Ht];
    [discriminate|].
  destruct (Z.eqb_spec (Z.land (cr_perms ctp) (cr_perms cbp)) (cr_perms ctp))
    as [Hp|]; simpl; [|discriminate].
  destruct (Z.eqb_spec (Z.land (cr_uperms ctp) (cr_uperms cbp))
                       (cr_uperms ctp)) as [Hu|]; simpl; [|discriminate].
  intros H. injection H as <-.
  match goal with
  | |- context [write_capreg env cd ?x] => set (result := x)
  end.
  assert (get_readonly_capreg (active_tc (write_capreg env cd result)) cd
          = result) as Hread by (apply get_readonly_capreg_write_eq; exact Hcd).
  assert (cr_tag result = true /\ cr_base result = cr_base ctp
          /\ _cr_top result = _cr_top ctp /\ cr_offset result = cr_offset ctp
          /\ cr_perms result = cr_perms ctp
          /\ cr_uperms result = cr_uperms ctp
          /\ cr_otype result = (if cap_is_sealed_entry ctp
                                then CAP_OTYPE_SENTRY else CAP_OTYPE_UNSEALED))
    as (R1 & R2 & R3 & R4 & R5 & R6 & R7).
  { subst result. destruct (cap_is_sealed_entry ctp); simpl;
      repeat split; exact Htag. }
  assert (cap_get_top result = cap_get_top ctp) as Rtop
      by (unfold cap_get_top, cap_get_top65; rewrite R3; reflexivity).
  rewrite Hread.
  split; [reflexivity|]. split; [reflexivity|].
  split; [exact R1|]. split; [exact R2|]. split; [exact R3|].
  split; [exact R4|]. split; [exact R5|]. split; [exact R6|].
  split; [exact R7|]. split; [lia|]. split; [lia|].
  split; [rewrite R5; exact Hp|]. split; [rewrite R6; exact Hu|].
  intros Hcb. apply ctestsubset_spec. rewrite Hread.
  assert (get_capreg_0_is_ddc (active_tc env) cb
          = get_readonly_capreg (active_tc env) cb) as Hsame
      by (destruct cb; [contradiction|reflexivity]).
  fold cbp in Hsame.
  destruct (Nat.eq_dec cd cb) as [->|Hne].
  - rewrite Hread. rewrite !Z.land_diag. repeat split; lia.
  - rewrite get_readonly_capreg_write_ne by exact Hne. rewrite <- Hsame.
    split; [congruence|]. split; [lia|]. split; [lia|].
    rewrite R5, R6. split; assumption.
Qed.

(** X15: what CBuildCap gives lies within its authorising capability
    [cb], except at the very top of the address space.
    When it completes, [cb] (DDC for register 0) was tagged and not
    sealed, and the destination (one of registers 1 to 31) is tagged and
    has the base, the top, the offset, the permissions and the user
    permissions of [ct]; the base is not below that of [cb] and no
    permission is one that [cb] lacks.  The tops have been compared as
    [cap_get_top] gives them, with 2^64 replaced by 2^64 - 1, while the
    top written is the top of [ct] itself: a top of at most 2^64 - 1 is
    not above that of [cb], and the top written can be above that of [cb]
    only if the top of [cb] is 2^64 - 1 or more.  The destination is a
    sentry if [ct] is one and unsealed otherwise; and when [cb] is not
    register 0, CTestSubset of [cb] and the destination gives 1. *)
Theorem cbuildcap_result_within_saturated_bounds (env env' : CPUMIPSState)
    (cd cb ct : nat) :
  let cbp := get_capreg_0_is_ddc (active_tc env) cb in
  let ctp := get_readonly_capreg (active_tc env) ct in
  let r := get_readonly_capreg (active_tc env') cd in
  (0 < cd < List.length (_CGPR (active_tc env)))%nat ->
  helper_cbuildcap env cd cb ct = Ok env' ->
  cr_tag cbp = true /\ is_cap_sealed cbp = false
  /\ cr_tag r = true
  /\ cr_base r = cr_base ctp /\ _cr_top r = _cr_top ctp
  /\ cr_offset r = cr_offset ctp
  /\ cr_perms r = cr_perms ctp /\ cr_uperms r = cr_uperms ctp
  /\ cr_otype r = (if cap_is_sealed_entry ctp then CAP_OTYPE_SENTRY
                   else CAP_OTYPE_UNSEALED)
  /\ cr_base cbp <= cr_base r
  /\ Z.min (_cr_top r) (2 ^ 64 - 1) <= Z.min (_cr_top cbp) (2 ^ 64 - 1)
  /\ (_cr_top r <= 2 ^ 64 - 1 -> _cr_top r <= _cr_top cbp)
  /\ (_cr_top cbp < _cr_top r -> 2 ^ 64 - 1 <= _cr_top cbp)
  /\ Z.land (cr_perms r) (cr_perms cbp) = cr_perms r
  /\ Z.land (cr_uperms r) (cr_uperms cbp) = cr_uperms r
  /\ (cb <> 0%nat -> helper_ctestsubset env' cb cd = 1).
Proof.
  intros cbp ctp r Hcd Hrun.
  destruct (cbuildcap_ok env env' cd cb ct Hcd Hrun)
    as (H1 & H2 & H3 & H4 & H5 & H6 & H7 & H8 & H9 & H10 & H11 & H12 & H13
        & H14).
  fold cbp ctp r in H1, H2, H3, H4, H5, H6, H7, H8, H9, H10, H11, H12, H13.
  assert (forall c, cap_get_top c = Z.min (_cr_top c) (2 ^ 64 - 1)) as Htop
      by reflexivity.
  rewrite !Htop in H11.
  repeat (split; [assumption|]).
  split; [lia|]. split; [lia|].
  repeat (split; [assumption|]). exact H14.
Qed.

(** ** Sealed capabilities *)

Lemma get_capreg_0_is_ddc_S (tc : TCState) (n : nat) :
  n <> 0%nat -> get_capreg_0_is_ddc tc n = get_readonly_capreg tc n.
Proof. destruct n; [contradiction|reflexivity]. Qed.

(** A register that holds a tagged sealed capability cannot be changed or
    dereferenced through. *)
Lemma sealed_register_is_refused (env : CPUMIPSState) (cb : nat) :
  let cbp := get_readonly_capreg (active_tc env) cb in
  cb <> 0%nat -> cr_tag cbp = true -> is_cap_sealed cbp = true ->
  (forall cd rt,
      helper_candperm env cd cb rt = Trap (C2E CP2Ca_SEAL cb) env)
  /\ (forall must_be_exact cd len,
      do_setbounds must_be_exact env cd cb len = Trap (C2E CP2Ca_SEAL cb) env)
  /\ (forall cd rt,
      helper_csetoffset env cd cb rt = Trap (C2E CP2Ca_SEAL cb) env)
  /\ (forall cd rt, rt <> 0 ->
      helper_cincoffset env cd cb rt = Trap (C2E CP2Ca_SEAL cb) env)
  /\ (forall cd rt, rt <> 0 ->
      helper_cfromptr env cd cb rt = Trap (C2E CP2Ca_SEAL cb) env)
  /\ (forall cd ct,
      helper_cbuildcap env cd cb ct = Trap (C2E CP2Ca_SEAL cb) env)
  /\ (forall rt offset size,
      helper_cload env cb rt offset size = Trap (C2E CP2Ca_SEAL cb) env)
  /\ (forall rt offset size,
      helper_cstore env cb rt offset size = Trap (C2E CP2Ca_SEAL cb) env)
  /\ (forall cd rt offset,
      get_clc_addr env cd cb rt offset = Trap (C2E CP2Ca_SEAL cb) env)
  /\ (forall cs rt offset,
      helper_csc_without_tcg env cs cb rt offset
      = Trap (C2E CP2Ca_SEAL cb) env).
Proof.
  intros cbp Hcb Htag Hs.
  pose proof (get_capreg_0_is_ddc_S (active_tc env) cb Hcb) as Hddc.
  repeat match goal with |- _ /\ _ => split end; intros.
  - unfold helper_candperm. fold cbp. rewrite Htag, Hs. reflexivity.
  - unfold do_setbounds. fold cbp. rewrite Htag, Hs. reflexivity.
  - unfold helper_csetoffset. fold cbp. rewrite Htag, Hs. reflexivity.
  - unfold helper_cincoffset, cincoffset_impl. fold cbp. rewrite Htag, Hs.
    unfold nonzero. rewrite (proj2 (Z.eqb_neq rt 0)) by assumption.
    reflexivity.
  - unfold helper_cfromptr. rewrite Hddc. fold cbp.
    rewrite (proj2 (Z.eqb_neq rt 0)) by assumption.
    rewrite Htag, Hs. reflexivity.
  - unfold helper_cbuildcap. rewrite Hddc. fold cbp.
    rewrite Htag, Hs. reflexivity.
  - unfold helper_cload. rewrite Hddc. fold cbp. rewrite Htag, Hs.
    reflexivity.
  - unfold helper_cstore. rewrite Hddc. fold cbp. rewrite Htag, Hs.
    reflexivity.
  - unfold get_clc_addr. rewrite Hddc. fold cbp. rewrite Htag, Hs.
    reflexivity.
  - unfold helper_csc_without_tcg, get_csc_addr. rewrite Hddc. fold cbp.
    rewrite Htag, Hs. reflexivity.
Qed.

Lemma wrap32_le (x : Z) : 0 <= x -> 0 <= wrap32 x <= x.
Proof.
  intros Hx. unfold wrap32. split.
  - apply Z.mod_pos_bound. lia.
  - apply Z.mod_le; lia.
Qed.

(** What [cseal_common] has checked and written when an unconditional
    CSeal returns. *)
Lemma cseal_ok (env env' : CPUMIPSState) (cd cs ct : nat) :
  let csp := get_readonly_capreg (active_tc env) cs in
  let ctp := get_readonly_capreg (active_tc env) ct in
  helper_cseal env cd cs ct = Ok env' ->
  env' = write_capreg env cd
           (cap_set_sealed csp (wrap32 (cap_get_cursor ctp)))
  /\ cr_tag csp = true /\ cr_tag ctp = true
  /\ is_cap_sealed csp = false /\ is_cap_sealed ctp = false
  /\ has_perm ctp CAP_PERM_SEAL = true
  /\ cap_is_in_bounds ctp (cap_get_cursor ctp) 1 = true
  /\ cap_get_cursor ctp <= CAP_MAX_SEALED_OTYPE.
Proof.
  intros csp ctp. unfold helper_cseal, cseal_common. fold csp. fold ctp.
  destruct (cr_tag csp); simpl; [|discriminate].
  destruct (cr_tag ctp); simpl; [|discriminate].
  destruct (is_cap_sealed csp); [discriminate|].
  destruct (is_cap_sealed ctp); [discriminate|].
  destruct (has_perm ctp CAP_PERM_SEAL); simpl; [|discriminate].
  destruct (cap_is_in_bounds ctp (cap_get_cursor ctp) 1); simpl;
    [|discriminate].
  destruct (Z.ltb_spec CAP_MAX_SEALED_OTYPE (cap_get_cursor ctp));
    [discriminate|].
  destruct (is_representable_cap_when_sealed csp (cap_get_offset csp));
    simpl; [|discriminate].
  intros Heq. injection Heq as <-. repeat split; assumption.
Qed.

(** X16: what CSeal produces is sealed and, from then on, refused by
    every helper that would change it or reach memory through it.  When
    CSeal completes, the destination (one of registers 1 to 31) holds the
    source with the cursor of [ct] as its otype, a user type between 0 and
    CAP_MAX_SEALED_OTYPE, and with every other field unchanged; CGetSealed
    gives 1 for it; and CAndPerm, CSetBounds, CSetBoundsExact, CSetOffset,
    CIncOffset and CFromPtr with a non-zero operand, CBuildCap, the data
    loads and stores, and the capability loads and stores through it all
    raise SEAL on that register. *)
Theorem cseal_result_is_sealed (env env' : CPUMIPSState) (cd cs ct : nat) :
  let csp := get_readonly_capreg (active_tc env) cs in
  let ctp := get_readonly_capreg (active_tc env) ct in
  let r := get_readonly_capreg (active_tc env') cd in
  (0 < cd < List.length (_CGPR (active_tc env)))%nat ->
  helper_cseal env cd cs ct = Ok env' ->
  r = set_cr_otype (wrap32 (cap_get_cursor ctp)) csp
  /\ cr_tag r = true
  /\ 0 <= cr_otype r <= CAP_MAX_SEALED_OTYPE
  /\ cap_is_sealed_with_type r = true
  /\ helper_cgetsealed env' cd = 1
  /\ (forall cd' rt,
      helper_candperm env' cd' cd rt = Trap (C2E CP2Ca_SEAL cd) env')
  /\ (forall must_be_exact cd' len,
      do_setbounds must_be_exact env' cd' cd len
      = Trap (C2E CP2Ca_SEAL cd) env')
  /\ (forall cd' rt,
      helper_csetoffset env' cd' cd rt = Trap (C2E CP2Ca_SEAL cd) env')
  /\ (forall cd' rt, rt <> 0 ->
      helper_cincoffset env' cd' cd rt = Trap (C2E CP2Ca_SEAL cd) env')
  /\ (forall cd' rt, rt <> 0 ->
      helper_cfromptr env' cd' cd rt = Trap (C2E CP2Ca_SEAL cd) env')
  /\ (forall cd' ct',
      helper_cbuildcap env' cd' cd ct' = Trap (C2E CP2Ca_SEAL cd) env')
  /\ (forall rt offset size,
      helper_cload env' cd rt offset size = Trap (C2E CP2Ca_SEAL cd) env')
  /\ (forall rt offset size,
      helper_cstore env' cd rt offset size = Trap (C2E CP2Ca_SEAL cd) env')
  /\ (forall cd' rt offset,
      get_clc_addr env' cd' cd rt offset = Trap (C2E CP2Ca_SEAL cd) env')
  /\ (forall cs' rt offset,
      helper_csc_without_tcg env' cs' cd rt offset
      = Trap (C2E CP2Ca_SEAL cd) env').
Proof.
  intros csp ctp r Hcd Hrun. subst r.
  destruct (cseal_ok _ _ _ _ _ Hrun)
    as (-> & Hts & Htt & _ & _ & _ & _ & Hmax).
  fold csp in Hts. fold ctp in Htt, Hmax. fold csp. fold ctp.
  set (result := cap_set_sealed csp (wrap32 (cap_get_cursor ctp))).
  assert (get_readonly_capreg (active_tc (write_capreg env cd result)) cd
          = result) as Hread by (apply get_readonly_capreg_write_eq; exact Hcd).
  assert (0 <= cap_get_cursor ctp) as Hnn by apply wrap64_range.
  pose proof (wrap32_le _ Hnn) as Hw.
  assert (cap_is_sealed_with_type result = true) as Hsealed.
  { unfold cap_is_sealed_with_type. subst result. simpl.
    apply andb_true_iff. split; [apply Z.leb_le|apply Z.leb_le]; lia. }
  assert (cd <> 0%nat) as Hcd0 by lia.
  pose proof (sealed_register_is_refused (write_capreg env cd result) cd Hcd0)
    as Hrefused.
  rewrite Hread in Hrefused.
  specialize (Hrefused Hts).
  assert (is_cap_sealed result = true) as His
      by (unfold is_cap_sealed; rewrite Hsealed; reflexivity).
  specialize (Hrefused His).
  rewrite Hread.
  split; [reflexivity|]. split; [exact Hts|].
  split; [subst result; simpl; lia|]. split; [exact Hsealed|].
  split; [|exact Hrefused].
  unfold helper_cgetsealed. rewrite Hread, Hsealed. reflexivity.
Qed.

Lemma set_cr_otype_same (c : cap_register) :
  set_cr_otype (cr_otype c) c = c.
Proof. destruct c; reflexivity. Qed.

Lemma set_cr_otype_twice (c : cap_register) (t1 t2 : Z) :
  set_cr_otype t2 (set_cr_otype t1 c) = set_cr_otype t2 c.
Proof. reflexivity. Qed.

(** X17: CSealEntry makes a sentry, which can only be jumped to.  When it
    completes, the source was tagged, unsealed and executable, and the
    destination (one of registers 1 to 31) holds it with the sentry otype;
    CGetSealed gives 1 for it, and the helpers that would change it or
    reach memory through it raise SEAL.  The sentry otype not being a user
    type, CJR and CJALR accept the sentry when the source was global,
    in bounds for an instruction and 4-byte aligned: the branch target
    they install is the source as it was before sealing, the address they
    return is its cursor, and the link capability that CJALR writes to a
    register other than the sentry's is PCC, 8 bytes on, made a sentry. *)
Theorem csealentry_makes_a_sentry (env env' : CPUMIPSState) (cd cs cl : nat) :
  let csp := get_readonly_capreg (active_tc env) cs in
  let r := get_readonly_capreg (active_tc env') cd in
  let pcc := PCC (active_tc env') in
  let link :=
    cap_make_sealed_entry (set_cr_offset (wrap64 (cr_offset pcc + 8)) pcc) in
  (0 < cd < List.length (_CGPR (active_tc env)))%nat ->
  helper_csealentry env cd cs = Ok env' ->
  cr_tag csp = true /\ cap_is_unsealed csp = true
  /\ has_perm csp CAP_PERM_EXECUTE = true
  /\ r = set_cr_otype CAP_OTYPE_SENTRY csp
  /\ helper_cgetsealed env' cd = 1
  /\ (forall cd' rt,
      helper_candperm env' cd' cd rt = Trap (C2E CP2Ca_SEAL cd) env')
  /\ (forall must_be_exact cd' len,
      do_setbounds must_be_exact env' cd' cd len
      = Trap (C2E CP2Ca_SEAL cd) env')
  /\ (forall cd' rt,
      helper_csetoffset env' cd' cd rt = Trap (C2E CP2Ca_SEAL cd) env')
  /\ (forall rt offset size,
      helper_cload env' cd rt offset size = Trap (C2E CP2Ca_SEAL cd) env')
  /\ (forall rt offset size,
      helper_cstore env' cd rt offset size = Trap (C2E CP2Ca_SEAL cd) env')
  /\ (cap_is_sealed_with_type (set_cr_otype CAP_OTYPE_SENTRY csp) = false ->
      has_perm csp CAP_PERM_GLOBAL = true ->
      cap_is_in_bounds csp (cap_get_cursor csp) 4 = true ->
      align_of 4 (cap_get_cursor csp) = 0 ->
      helper_cjr env' cd
      = Ok (set_active_tc (set_CapBranchTarget csp (active_tc env')) env',
            cap_get_cursor csp)
      /\ (cl <> cd ->
          helper_cjalr env' cl cd
          = Ok (set_active_tc
                  (update_capreg
                     (set_CapBranchTarget csp (active_tc env')) cl link)
                  env',
                cap_get_cursor csp))).
Proof.
  intros csp r pcc link Hcd. subst r. unfold helper_csealentry. fold csp.
  destruct (cr_tag csp) eqn:Htag; simpl; [|discriminate].
  destruct (cap_is_unsealed csp) eqn:Hun; simpl; [|discriminate].
  destruct (has_perm csp CAP_PERM_EXECUTE) eqn:Hexe; simpl; [|discriminate].
  intros H. injection H as <-.
  set (result := cap_make_sealed_entry csp).
  set (env' := write_capreg env cd result) in *.
  assert (get_readonly_capreg (active_tc env') cd = result) as Hread
      by (apply get_readonly_capreg_write_eq; exact Hcd).
  assert (cap_is_sealed_entry result = true) as Hentry
      by (unfold cap_is_sealed_entry; subst result; simpl; apply Z.eqb_refl).
  assert (is_cap_sealed result = true) as His
      by (unfold is_cap_sealed; rewrite Hentry; apply orb_true_r).
  assert (cd <> 0%nat) as Hcd0 by lia.
  pose proof (sealed_register_is_refused env' cd Hcd0) as Hrefused.
  rewrite Hread in Hrefused.
  destruct (Hrefused Htag His)
    as (R1 & R2 & R3 & _ & _ & _ & R7 & R8 & _).
  rewrite Hread.
  do 3 (split; [reflexivity|]). split; [reflexivity|].
  split; [unfold helper_cgetsealed; rewrite Hread, Hentry, orb_true_r;
          reflexivity|].
  split; [exact R1|]. split; [exact R2|]. split; [exact R3|].
  split; [exact R7|]. split; [exact R8|].
  intros Hnotuser Hglobal Hin Halign.
  assert (cap_unseal_entry result = csp) as Hback.
  { unfold cap_unseal_entry. subst result. unfold cap_make_sealed_entry.
    rewrite set_cr_otype_twice. apply Z.eqb_eq in Hun. rewrite <- Hun.
    apply set_cr_otype_same. }
  assert (cap_get_cursor result = cap_get_cursor csp) as Hcur by reflexivity.
  assert (has_perm result CAP_PERM_EXECUTE = true) as Hexe' by exact Hexe.
  assert (has_perm result CAP_PERM_GLOBAL = true) as Hglobal' by exact Hglobal.
  assert (cap_is_in_bounds result (cap_get_cursor result) 4 = true) as Hin'
      by exact Hin.
  assert (cap_is_sealed_with_type result = false) as Hnot by exact Hnotuser.
  assert (cr_tag result = true) as Htag' by exact Htag.
  split.
  - unfold helper_cjr. rewrite Hread.
    rewrite Htag', Hnot, Hexe', Hglobal', Hin', Hcur, Halign, Hentry. simpl.
    rewrite Hback. reflexivity.
  - intros Hcl. unfold helper_cjalr. rewrite Hread.
    rewrite Htag', Hnot, Hexe', Hglobal', Hin', Hcur, Halign, Hentry. simpl.
    rewrite Hback.
    rewrite get_readonly_capreg_update_ne by exact Hcl.
    rewrite !get_readonly_capreg_set_CapBranchTarget.
    rewrite get_readonly_capreg_update_eq by exact Hcd.
    rewrite Hcur. reflexivity.
Qed.

Lemma lor_absorb (p g : Z) : Z.land p g = g -> Z.lor p g = p.
Proof.
  intros H. apply Z.bits_inj'. intros n _.
  apply (f_equal (fun x => Z.testbit x n)) in H.
  rewrite Z.land_spec in H. rewrite Z.lor_spec.
  destruct (Z.testbit p n), (Z.testbit g n); simpl in *; congruence.
Qed.

Lemma land_lnot_absorb (p g : Z) : Z.land p g = 0 -> Z.land p (Z.lnot g) = p.
Proof.
  intros H. apply Z.bits_inj'. intros n Hn.
  apply (f_equal (fun x => Z.testbit x n)) in H.
  rewrite Z.land_spec, Z.bits_0 in H.
  rewrite Z.land_spec, Z.lnot_spec by exact Hn.
  destruct (Z.testbit p n), (Z.testbit g n); simpl in *; congruence.
Qed.

Lemma set_cr_perms_same (c : cap_register) : set_cr_perms (cr_perms c) c = c.
Proof. destruct c; reflexivity. Qed.

(** Unsealing what was sealed from an unsealed capability with an
    all-or-nothing GLOBAL gives the capability back, when the unsealing
    capability is global. *)
Lemma cunseal_result_restores (csp ctp : cap_register) (t : Z) :
  cap_is_unsealed csp = true ->
  has_perm ctp CAP_PERM_GLOBAL = true ->
  Z.land (cr_perms csp) CAP_PERM_GLOBAL = CAP_PERM_GLOBAL
  \/ Z.land (cr_perms csp) CAP_PERM_GLOBAL = 0 ->
  cunseal_result (set_cr_otype t csp) ctp = csp.
Proof.
  intros Hun Hg Hall. unfold cunseal_result. rewrite Hg.
  unfold has_perm. simpl.
  assert (cap_set_unsealed (set_cr_otype t csp) = csp) as Hback.
  { unfold cap_set_unsealed. rewrite set_cr_otype_twice.
    apply Z.eqb_eq in Hun. rewrite <- Hun. apply set_cr_otype_same. }
  rewrite andb_true_r.
  destruct (nonzero (Z.land (cr_perms csp) CAP_PERM_GLOBAL)) eqn:Hhas.
  - assert (Z.land (cr_perms csp) CAP_PERM_GLOBAL = CAP_PERM_GLOBAL) as Hl.
    { destruct Hall as [H|H]; [exact H|].
      unfold nonzero in Hhas. rewrite H in Hhas. discriminate. }
    rewrite (lor_absorb _ _ Hl).
    transitivity (cap_set_unsealed (set_cr_otype t csp)); [|exact Hback].
    destruct csp; reflexivity.
  - assert (Z.land (cr_perms csp) CAP_PERM_GLOBAL = 0) as Hl.
    { unfold nonzero in Hhas. apply negb_false_iff, Z.eqb_eq in Hhas.
      exact Hhas. }
    rewrite (land_lnot_absorb _ _ Hl).
    transitivity (cap_set_unsealed (set_cr_otype t csp)); [|exact Hback].
    destruct csp; reflexivity.
Qed.

(** X18: CUnseal undoes CSeal.  After a CSeal that completed, into one of
    registers 1 to 31 other than [ct], a CUnseal of the result with the
    same [ct] completes, provided [ct] is unsealed, has the UNSEAL
    permission and its cursor is not CAP_MAX_SEALED_OTYPE itself (user
    types being 32-bit numbers).  The capability it writes is unsealed
    and has the tag, bounds, offset, user permissions and permissions
    other than GLOBAL of the capability that was sealed, and GLOBAL if
    both that capability and [ct] have it; it is the capability that was
    sealed when that was unsealed, [ct] is global and GLOBAL is a
    permission that a capability has as a whole or not at all. *)
Theorem cseal_cunseal_round_trip (env env1 : CPUMIPSState)
    (cd cs ct cd' : nat) :
  let csp := get_readonly_capreg (active_tc env) cs in
  let ctp := get_readonly_capreg (active_tc env) ct in
  (0 < cd < List.length (_CGPR (active_tc env)))%nat ->
  (0 < cd' < List.length (_CGPR (active_tc env)))%nat ->
  cd <> ct ->
  CAP_MAX_SEALED_OTYPE < 2 ^ 32 ->
  helper_cseal env cd cs ct = Ok env1 ->
  cap_is_unsealed ctp = true ->
  has_perm ctp CAP_PERM_UNSEAL = true ->
  cap_get_cursor ctp <> CAP_MAX_SEALED_OTYPE ->
  exists env2,
    helper_cunseal env1 cd' cd ct = Ok env2
    /\ let r := get_readonly_capreg (active_tc env2) cd' in
       cap_is_unsealed r = true
       /\ cr_tag r = true
       /\ cr_base r = cr_base csp /\ _cr_top r = _cr_top csp
       /\ cr_offset r = cr_offset csp /\ cr_uperms r = cr_uperms csp
       /\ Z.land (cr_perms r) (Z.lnot CAP_PERM_GLOBAL)
          = Z.land (cr_perms csp) (Z.lnot CAP_PERM_GLOBAL)
       /\ has_perm r CAP_PERM_GLOBAL
          = has_perm csp CAP_PERM_GLOBAL && has_perm ctp CAP_PERM_GLOBAL
       /\ (cap_is_unsealed csp = true ->
           has_perm ctp CAP_PERM_GLOBAL = true ->
           Z.land (cr_perms csp) CAP_PERM_GLOBAL = CAP_PERM_GLOBAL
           \/ Z.land (cr_perms csp) CAP_PERM_GLOBAL = 0 ->
           r = csp).
Proof.
  intros csp ctp Hcd Hcd' Hne Hmax32 Hseal Hctun Hperm Hnotmax.
  destruct (cseal_ok _ _ _ _ _ Hseal)
    as (-> & Hts & Htt & _ & _ & _ & Hin & Hmax).
  fold csp in Hts. fold ctp in Htt, Hin, Hmax. fold csp. fold ctp.
  assert (0 <= cap_get_cursor ctp) as Hnn by apply wrap64_range.
  assert (wrap32 (cap_get_cursor ctp) = cap_get_cursor ctp) as Hw
      by (unfold wrap32; apply Z.mod_small; lia).
  rewrite Hw.
  set (sealed := cap_set_sealed csp (cap_get_cursor ctp)).
  set (env1 := write_capreg env cd sealed).
  assert (get_readonly_capreg (active_tc env1) cd = sealed) as Hread
      by (apply get_readonly_capreg_write_eq; exact Hcd).
  assert (get_readonly_capreg (active_tc env1) ct = ctp) as Hreadt
      by (apply get_readonly_capreg_write_ne; exact Hne).
  pose proof otype_unsealed_above_sealed as Habove.
  assert (helper_cunseal env1 cd' cd ct
          = Ok (write_capreg env1 cd' (cunseal_result sealed ctp))) as Hrun.
  { unfold helper_cunseal. rewrite Hread, Hreadt.
    assert (cr_tag sealed = true) as -> by exact Hts.
    rewrite Htt. simpl.
    assert (cap_is_unsealed sealed = false) as ->.
    { unfold cap_is_unsealed. subst sealed. simpl. apply Z.eqb_neq. lia. }
    rewrite Hctun. simpl.
    rewrite Z.eqb_refl. simpl.
    assert (cap_is_sealed_with_type sealed = true) as ->.
    { unfold cap_is_sealed_with_type. subst sealed. simpl.
      apply andb_true_iff. split; apply Z.leb_le; lia. }
    simpl. rewrite Hperm, Hin. simpl.
    rewrite (proj2 (Z.leb_gt CAP_MAX_SEALED_OTYPE (cap_get_cursor ctp)))
      by lia.
    reflexivity. }
  eexists. split; [exact Hrun|]. cbv zeta.
  assert (List.length (_CGPR (active_tc env1))
          = List.length (_CGPR (active_tc env))) as Hlen.
  { subst env1. rewrite active_tc_write_capreg. unfold update_capreg.
    destruct cd; [reflexivity|]. simpl. apply length_insert. }
  rewrite get_readonly_capreg_write_eq by (rewrite Hlen; exact Hcd').
  destruct (cunseal_result_spec sealed ctp)
    as (_ & S2 & S3 & S4 & S5 & S6 & S7 & _ & S9 & S10).
  split; [exact S2|]. split; [rewrite S3; exact Hts|].
  split; [exact S4|]. split; [exact S5|]. split; [exact S6|].
  split; [exact S7|]. split; [exact S9|]. split; [exact S10|].
  intros Hun Hg Hall. apply cunseal_result_restores; assumption.
Qed.

(** X19: the last user type can be sealed with but not unsealed.  CSeal
    accepts a [ct] whose cursor is CAP_MAX_SEALED_OTYPE, while CUnseal
    completes only if the cursor of its [ct] is strictly below it.  So
    after a CSeal that completed with that cursor, into one of registers 1
    to 31, no CUnseal of the result completes, whatever capability is
    offered to unseal it. *)
Theorem cunseal_refuses_the_last_otype (env env1 : CPUMIPSState)
    (cd cs ct : nat) :
  let ctp := get_readonly_capreg (active_tc env) ct in
  (0 < cd < List.length (_CGPR (active_tc env)))%nat ->
  CAP_MAX_SEALED_OTYPE < 2 ^ 32 ->
  helper_cseal env cd cs ct = Ok env1 ->
  cap_get_cursor ctp = CAP_MAX_SEALED_OTYPE ->
  cr_otype (get_readonly_capreg (active_tc env1) cd) = CAP_MAX_SEALED_OTYPE
  /\ forall cd' ct' env2, helper_cunseal env1 cd' cd ct' <> Ok env2.
Proof.
  intros ctp Hcd Hmax32 Hseal Hcur.
  destruct (cseal_ok _ _ _ _ _ Hseal) as (-> & _).
  fold ctp. rewrite Hcur.
  assert (0 <= cap_get_cursor ctp) as Hnn by apply wrap64_range.
  assert (wrap32 CAP_MAX_SEALED_OTYPE = CAP_MAX_SEALED_OTYPE) as Hw
      by (unfold wrap32; apply Z.mod_small; lia).
  rewrite Hw.
  rewrite get_readonly_capreg_write_eq by exact Hcd.
  split; [reflexivity|].
  intros cd' ct' env2. unfold helper_cunseal.
  rewrite get_readonly_capreg_write_eq by exact Hcd.
  match goal with
  | |- context [cap_get_cursor ?c] => set (ctp' := c)
  end.
  set (sealed := cap_set_sealed _ CAP_MAX_SEALED_OTYPE).
  assert (cr_otype sealed = CAP_MAX_SEALED_OTYPE) as Hty by reflexivity.
  rewrite Hty.
  destruct (negb (cr_tag sealed)); [discriminate|].
  destruct (negb (cr_tag ctp')); [discriminate|].
  destruct (cap_is_unsealed sealed); [discriminate|].
  destruct (negb (cap_is_unsealed ctp')); [discriminate|].
  destruct (Z.eqb_spec (cap_get_cursor ctp') CAP_MAX_SEALED_OTYPE)
    as [Heq|]; simpl; [|discriminate].
  destruct (negb (cap_is_sealed_with_type sealed)); [discriminate|].
  destruct (negb (has_perm ctp' CAP_PERM_UNSEAL)); [discriminate|].
  destruct (negb (cap_is_in_bounds ctp' (cap_get_cursor ctp') 1));
    [discriminate|].
  rewrite Heq, Z.leb_refl. discriminate.
Qed.

(** ** Jumps *)

Lemma align_of_4 (addr : Z) : align_of 4 addr = Z.land addr 3.
Proof. reflexivity. Qed.

(** X20: CJR and CJALR make the same checks and the same jump.  Either
    both leave through the same exception, with the state as it was, or
    both complete.  They complete only for a capability that is tagged,
    not sealed with a user type, executable and global, whose cursor is a
    multiple of 4 with the 4 bytes from it inside the bounds.  Both then
    return that cursor (CJALR when its link register is not the jump
    register itself) and install the capability as the branch target,
    with the sentry otype replaced by the unsealed one if it was a
    sentry; CJR changes nothing else, and CJALR writes to its link
    register PCC with 8 added to the offset, made a sentry if the target
    was one. *)
Theorem cjalr_jumps_like_cjr (env : CPUMIPSState) (cd cb : nat) :
  let tc := active_tc env in
  let cbp := get_readonly_capreg tc cb in
  let target_cap :=
    if cap_is_sealed_entry cbp then cap_unseal_entry cbp else cbp in
  let pcc8 := set_cr_offset (wrap64 (cr_offset (PCC tc) + 8)) (PCC tc) in
  let link :=
    if cap_is_sealed_entry cbp then cap_make_sealed_entry pcc8 else pcc8 in
  (forall e env1,
      helper_cjr env cb = Trap e env1 <-> helper_cjalr env cd cb = Trap e env1)
  /\ (forall e env1, helper_cjr env cb = Trap e env1 -> env1 = env)
  /\ ((exists r, helper_cjr env cb = Ok r)
      <-> cr_tag cbp = true /\ cap_is_sealed_with_type cbp = false
          /\ has_perm cbp CAP_PERM_EXECUTE = true
          /\ has_perm cbp CAP_PERM_GLOBAL = true
          /\ cap_is_in_bounds cbp (cap_get_cursor cbp) 4 = true
          /\ Z.land (cap_get_cursor cbp) 3 = 0)
  /\ (forall r, helper_cjr env cb = Ok r ->
      r = (set_active_tc (set_CapBranchTarget target_cap tc) env,
           cap_get_cursor cbp)
      /\ exists target,
           helper_cjalr env cd cb
           = Ok (set_active_tc
                   (update_capreg (set_CapBranchTarget target_cap tc) cd link)
                   env,
                 target)
           /\ (cd <> cb -> target = cap_get_cursor cbp)).
Proof.
  intros tc cbp target_cap pcc8 link.
  unfold helper_cjr, helper_cjalr. fold tc. fold cbp. fold pcc8.
  rewrite align_of_4. unfold nonzero.
  assert (forall (e0 : exception) (P : Prop),
            ~ P ->
            (forall e env1,
                @Trap (CPUMIPSState * Z) e0 env = Trap e env1
                <-> @Trap (CPUMIPSState * Z) e0 env = Trap e env1)
            /\ (forall e env1,
                   @Trap (CPUMIPSState * Z) e0 env = Trap e env1 -> env1 = env)
            /\ ((exists r, @Trap (CPUMIPSState * Z) e0 env = Ok r) <-> P)
            /\ (forall r, @Trap (CPUMIPSState * Z) e0 env = Ok r ->
                r = (set_active_tc (set_CapBranchTarget target_cap tc) env,
                     cap_get_cursor cbp)
                /\ exists target,
                     @Trap (CPUMIPSState * Z) e0 env
                     = Ok (set_active_tc
                             (update_capreg
                                (set_CapBranchTarget target_cap tc) cd link)
                             env,
                           target)
                     /\ (cd <> cb -> target = cap_get_cursor cbp)))
    as Htrap.
  { intros e0 P HP. split; [intros e env1; tauto|].
    split; [intros e env1 H; injection H as _ <-; reflexivity|].
    split; [split; [intros [r Hr]; discriminate|intros HP'; contradiction]|].
    intros r Hr. discriminate. }
  destruct (cr_tag cbp); simpl;
    [|apply Htrap; intros (? & _); discriminate].
  destruct (cap_is_sealed_with_type cbp); simpl;
    [apply Htrap; intros (_ & ? & _); discriminate|].
  destruct (has_perm cbp CAP_PERM_EXECUTE); simpl;
    [|apply Htrap; intros (_ & _ & ? & _); discriminate].
  destruct (has_perm cbp CAP_PERM_GLOBAL); simpl;
    [|apply Htrap; intros (_ & _ & _ & ? & _); discriminate].
  destruct (cap_is_in_bounds cbp (cap_get_cursor cbp) 4); simpl;
    [|apply Htrap; intros (_ & _ & _ & _ & ? & _); discriminate].
  destruct (Z.eqb_spec (Z.land (cap_get_cursor cbp) 3) 0) as [Hal|Hal]; simpl;
    [|apply Htrap; intros (_ & _ & _ & _ & _ & ?); contradiction].
  clear Htrap.
  split; [intros e env1; split; discriminate|].
  split; [discriminate|].
  split; [split; [intros _; repeat split; assumption|intros _; eauto]|].
  intros r H. injection H as <-.
  subst target_cap link.
  destruct (cap_is_sealed_entry cbp);
    (split; [reflexivity|]); eexists; (split; [reflexivity|]);
    intros Hne; rewrite get_readonly_capreg_update_ne by exact Hne;
    rewrite ?get_readonly_capreg_set_CapBranchTarget; reflexivity.
Qed.

(** X21: CJALR reads the address it returns through its pointer to the
    jump register after it has written the link register.  So when the
    link register is the jump register itself (one of registers 1 to 31)
    and CJALR completes, the address returned is that of the link
    capability, the cursor of PCC plus 8, whereas the branch target
    installed is still the capability that was jumped to. *)
Theorem cjalr_with_link_in_jump_register (env env' : CPUMIPSState)
    (cd : nat) (target : Z) :
  let tc := active_tc env in
  let cbp := get_readonly_capreg tc cd in
  (0 < cd < List.length (_CGPR tc))%nat ->
  helper_cjalr env cd cd = Ok (env', target) ->
  target = wrap64 (cap_get_cursor (PCC tc) + 8)
  /\ CapBranchTarget (active_tc env')
     = (if cap_is_sealed_entry cbp then cap_unseal_entry cbp else cbp)
  /\ cap_get_cursor (CapBranchTarget (active_tc env')) = cap_get_cursor cbp.
Proof.
  intros tc cbp Hcd. unfold helper_cjalr. fold tc. fold cbp.
  destruct (cr_tag cbp); simpl; [|discriminate].
  destruct (cap_is_sealed_with_type cbp); simpl; [discriminate|].
  destruct (has_perm cbp CAP_PERM_EXECUTE); simpl; [|discriminate].
  destruct (has_perm cbp CAP_PERM_GLOBAL); simpl; [|discriminate].
  destruct (cap_is_in_bounds cbp (cap_get_cursor cbp) 4); simpl;
    [|discriminate].
  destruct (nonzero (align_of 4 (cap_get_cursor cbp))); [discriminate|].
  intros H. injection H as <- <-.
  rewrite active_tc_set_active_tc.
  rewrite get_readonly_capreg_update_eq
    by (destruct (cap_is_sealed_entry cbp); exact Hcd).
  assert (forall c : cap_register,
            cap_get_cursor (set_cr_offset (wrap64 (cr_offset c + 8)) c)
            = wrap64 (cap_get_cursor c + 8)) as Hlink.
  { intros c. rewrite cursor_set_cr_offset.
    apply wrap64_base_plus_wrapped_offset. }
  destruct (cap_is_sealed_entry cbp);
    (split; [apply (Hlink (PCC tc))|]); split; destruct cd; reflexivity.
Qed.

(** ** Loads and stores through a capability *)

Lemma align_of_is_zero (size addr : Z) :
  nonzero (align_of size addr) = false ->
  In size [1; 2; 4; 8; 16; 32; 64; 128] /\ addr mod size = 0.
Proof.
  unfold align_of, nonzero.
  assert (forall k : Z, 0 <= k ->
            (negb (Z.land addr (Z.ones k) =? 0) = false ->
             addr mod 2 ^ k = 0)) as Hmask.
  { intros k Hk H. apply negb_false_iff, Z.eqb_eq in H.
    rewrite Z.land_ones in H by exact Hk. exact H. }
  destruct (Z.eqb_spec size 1) as [->|_];
    [intros _; split; [simpl; tauto|apply Z.mod_1_r]|].
  destruct (Z.eqb_spec size 2) as [->|_];
    [intros H; split; [simpl; tauto|apply (Hmask 1); [lia|exact H]]|].
  destruct (Z.eqb_spec size 4) as [->|_];
    [intros H; split; [simpl; tauto|apply (Hmask 2); [lia|exact H]]|].
  destruct (Z.eqb_spec size 8) as [->|_];
    [intros H; split; [simpl; tauto|apply (Hmask 3); [lia|exact H]]|].
  destruct (Z.eqb_spec size 16) as [->|_];
    [intros H; split; [simpl; tauto|apply (Hmask 4); [lia|exact H]]|].
  destruct (Z.eqb_spec size 32) as [->|_];
    [intros H; split; [simpl; tauto|apply (Hmask 5); [lia|exact H]]|].
  destruct (Z.eqb_spec size 64) as [->|_];
    [intros H; split; [simpl; tauto|apply (Hmask 6); [lia|exact H]]|].
  destruct (Z.eqb_spec size 128) as [->|_];
    [intros H; split; [simpl; tauto|apply (Hmask 7); [lia|exact H]]|].
  simpl. discriminate.
Qed.

Lemma cap_is_in_bounds_true (c : cap_register) (addr n : Z) :
  cap_is_in_bounds c addr n = true ->
  cr_base c <= addr /\ addr + n <= _cr_top c.
Proof.
  unfold cap_is_in_bounds, cap_get_base, cap_get_top65.
  rewrite andb_true_iff, !Z.leb_le. tauto.
Qed.

(** X22: a data load, store or store conditional through a capability
    returns an address only after the whole access has been checked.
    When CLoad, CStore or CStoreCond returns an address, the capability
    used (DDC for register 0) is tagged and not sealed and has the LOAD,
    respectively the STORE, permission; the address is the cursor plus
    the register and immediate operands, modulo 2^64 (the cursor itself
    for the store conditional); all the bytes of the access lie between
    the base and the top; the size is one of 1, 2, 4, 8, 16, 32, 64 and
    128 and the address is a multiple of it.  The state is as it was. *)
Theorem data_access_through_capability_is_checked (env : CPUMIPSState)
    (cb : nat) (rt offset size : Z) :
  let cbp := get_capreg_0_is_ddc (active_tc env) cb in
  let checked := fun (perm addr : Z) =>
    cr_tag cbp = true /\ is_cap_sealed cbp = false
    /\ has_perm cbp perm = true
    /\ cr_base cbp <= addr /\ addr + size <= _cr_top cbp
    /\ In size [1; 2; 4; 8; 16; 32; 64; 128] /\ addr mod size = 0 in
  (forall addr, helper_cload env cb rt offset size = Ok addr ->
     addr = wrap64 (cap_get_cursor cbp + rt + int32_of_uint32 offset)
     /\ checked CAP_PERM_LOAD addr)
  /\ (forall addr, helper_cstore env cb rt offset size = Ok addr ->
      addr = wrap64 (cap_get_cursor cbp + rt + int32_of_uint32 offset)
      /\ checked CAP_PERM_STORE addr)
  /\ (forall addr, helper_cstorecond env cb size = Ok addr ->
      addr = cap_get_cursor cbp /\ checked CAP_PERM_STORE addr)
  /\ (forall e env', helper_cload env cb rt offset size = Trap e env' ->
      env' = env)
  /\ (forall e env', helper_cstore env cb rt offset size = Trap e env' ->
      env' = env)
  /\ (forall e env', helper_cstorecond env cb size = Trap e env' ->
      env' = env).
Proof.
  intros cbp checked. subst checked. cbv beta.
  unfold helper_cload, helper_cstore, helper_cstorecond. fold cbp.
  destruct (cr_tag cbp); simpl.
  2: { repeat split; intros; first [discriminate | congruence]. }
  destruct (is_cap_sealed cbp).
  1: { repeat split; intros; first [discriminate | congruence]. }
  split; [|split; [|split; [|split; [|split]]]].
  - intros addr.
    destruct (has_perm cbp CAP_PERM_LOAD); simpl; [|discriminate].
    destruct (cap_is_in_bounds cbp _ size) eqn:Hin; simpl; [|discriminate].
    destruct (nonzero (align_of size _)) eqn:Hal; [discriminate|].
    intros H. injection H as <-.
    apply cap_is_in_bounds_true in Hin. apply align_of_is_zero in Hal.
    repeat split; tauto.
  - intros addr.
    destruct (has_perm cbp CAP_PERM_STORE); simpl; [|discriminate].
    destruct (cap_is_in_bounds cbp _ size) eqn:Hin; simpl; [|discriminate].
    destruct (nonzero (align_of size _)) eqn:Hal; [discriminate|].
    intros H. injection H as <-.
    apply cap_is_in_bounds_true in Hin. apply align_of_is_zero in Hal.
    repeat split; tauto.
  - intros addr.
    destruct (has_perm cbp CAP_PERM_STORE); simpl; [|discriminate].
    destruct (cap_is_in_bounds cbp _ size) eqn:Hin; simpl; [|discriminate].
    destruct (nonzero (align_of size _)) eqn:Hal; [discriminate|].
    intros H. injection H as <-.
    apply cap_is_in_bounds_true in Hin. apply align_of_is_zero in Hal.
    repeat split; tauto.
  - intros e env'. repeat (match goal with
                           | |- context [if ?b then _ else _] => destruct b
                           end; simpl); intros H; congruence.
  - intros e env'. repeat (match goal with
                           | |- context [if ?b then _ else _] => destruct b
                           end; simpl); intros H; congruence.
  - intros e env'. repeat (match goal with
                           | |- context [if ?b then _ else _] => destruct b
                           end; simpl); intros H; congruence.
Qed.

Lemma tag_line_of_aligned (addr : Z) :
  addr mod CHERI_CAP_SIZE = 0 ->
  tag_line (addr + CHERI_CAP_SIZE - 1) = tag_line addr.
Proof.
  intros Hal. unfold tag_line. pose proof CHERI_CAP_SIZE_pos as Hpos.
  assert (CHERI_CAP_SIZE <> 0) as Hnz by lia.
  pose proof (Z.div_mod addr CHERI_CAP_SIZE Hnz) as Hdm.
  rewrite Hal in Hdm.
  replace (addr + CHERI_CAP_SIZE - 1)
    with (addr / CHERI_CAP_SIZE * CHERI_CAP_SIZE + (CHERI_CAP_SIZE - 1))
    by lia.
  rewrite Z.div_add_l by lia.
  rewrite (Z.div_small (CHERI_CAP_SIZE - 1)) by lia. lia.
Qed.

(** X23: the address of a capability load or store is that of one whole,
    aligned capability inside the bounds.  When [get_clc_addr],
    [get_csc_addr] or [get_cscc_addr] returns an address, the capability
    used (DDC for register 0) is tagged and not sealed and has LOAD,
    respectively STORE and STORE_CAP (and STORE_LOCAL too unless the
    capability to store is untagged or global); the address is a multiple
    of the capability size, which is one of the sizes that [align_of]
    knows; the bytes of the capability lie between the base and the top
    and in one line of the tag memory.  The load does not ask for
    LOAD_CAP. *)
Theorem capability_access_is_aligned (env : CPUMIPSState) (cd cs cb : nat)
    (rt offset : Z) :
  let cbp := get_capreg_0_is_ddc (active_tc env) cb in
  let csp := get_readonly_capreg (active_tc env) cs in
  let checked := fun addr : Z =>
    cr_tag cbp = true /\ is_cap_sealed cbp = false
    /\ cr_base cbp <= addr /\ addr + CHERI_CAP_SIZE <= _cr_top cbp
    /\ In CHERI_CAP_SIZE [1; 2; 4; 8; 16; 32; 64; 128]
    /\ addr mod CHERI_CAP_SIZE = 0
    /\ tag_line (addr + CHERI_CAP_SIZE - 1) = tag_line addr in
  let may_store :=
    has_perm cbp CAP_PERM_STORE = true
    /\ has_perm cbp CAP_PERM_STORE_CAP = true
    /\ (has_perm cbp CAP_PERM_STORE_LOCAL = true \/ cr_tag csp = false
        \/ has_perm csp CAP_PERM_GLOBAL = true) in
  (forall addr, get_clc_addr env cd cb rt offset = Ok addr ->
     addr = wrap64 (cap_get_cursor cbp + rt + int32_of_uint32 offset)
     /\ has_perm cbp CAP_PERM_LOAD = true /\ checked addr)
  /\ (forall addr, get_csc_addr env cs cb rt offset = Ok addr ->
      addr = wrap64 (cap_get_cursor cbp + rt + int32_of_uint32 offset)
      /\ may_store /\ checked addr)
  /\ (forall addr, get_cscc_addr env cs cb = Ok addr ->
      addr = cap_get_cursor cbp /\ may_store /\ checked addr)
  /\ (cr_tag cbp = true -> is_cap_sealed cbp = false ->
      has_perm cbp CAP_PERM_LOAD = true ->
      has_perm cbp CAP_PERM_LOAD_CAP = false ->
      let addr := wrap64 (cap_get_cursor cbp + rt + int32_of_uint32 offset) in
      cap_is_in_bounds cbp addr CHERI_CAP_SIZE = true ->
      align_of CHERI_CAP_SIZE addr = 0 ->
      get_clc_addr env cd cb rt offset = Ok addr).
Proof.
  intros cbp csp checked may_store. subst checked may_store. cbv beta.
  unfold get_clc_addr, get_csc_addr, get_cscc_addr. fold cbp. fold csp.
  assert (forall addr,
            cap_is_in_bounds cbp addr CHERI_CAP_SIZE = true ->
            nonzero (align_of CHERI_CAP_SIZE addr) = false ->
            cr_base cbp <= addr /\ addr + CHERI_CAP_SIZE <= _cr_top cbp
            /\ In CHERI_CAP_SIZE [1; 2; 4; 8; 16; 32; 64; 128]
            /\ addr mod CHERI_CAP_SIZE = 0
            /\ tag_line (addr + CHERI_CAP_SIZE - 1) = tag_line addr) as Hchk.
  { intros addr Hin Hal.
    apply cap_is_in_bounds_true in Hin. apply align_of_is_zero in Hal.
    destruct Hin, Hal. repeat split; try assumption.
    apply tag_line_of_aligned. assumption. }
  split; [|split; [|split]].
  - intros addr.
    destruct (cr_tag cbp); simpl; [|discriminate].
    destruct (is_cap_sealed cbp); [discriminate|].
    destruct (has_perm cbp CAP_PERM_LOAD); simpl; [|discriminate].
    destruct (cap_is_in_bounds cbp _ CHERI_CAP_SIZE) eqn:Hin; simpl;
      [|discriminate].
    destruct (nonzero (align_of CHERI_CAP_SIZE _)) eqn:Hal; [discriminate|].
    intros H. injection H as <-.
    repeat split; try reflexivity; apply (Hchk _ Hin Hal).
  - intros addr.
    destruct (cr_tag cbp); simpl; [|discriminate].
    destruct (is_cap_sealed cbp); [discriminate|].
    destruct (has_perm cbp CAP_PERM_STORE); simpl; [|discriminate].
    destruct (has_perm cbp CAP_PERM_STORE_CAP); simpl; [|discriminate].
    destruct (negb (has_perm cbp CAP_PERM_STORE_LOCAL) && cr_tag csp
              && negb (has_perm csp CAP_PERM_GLOBAL)) eqn:Hlocal;
      [discriminate|].
    destruct (cap_is_in_bounds cbp _ CHERI_CAP_SIZE) eqn:Hin; simpl;
      [|discriminate].
    destruct (nonzero (align_of CHERI_CAP_SIZE _)) eqn:Hal; [discriminate|].
    intros H. injection H as <-.
    split; [reflexivity|]. split.
    + split; [reflexivity|]. split; [reflexivity|].
      destruct (has_perm cbp CAP_PERM_STORE_LOCAL); [left; reflexivity|].
      destruct (cr_tag csp); [|right; left; reflexivity].
      destruct (has_perm csp CAP_PERM_GLOBAL); [right; right; reflexivity|].
      discriminate.
    + repeat split; try reflexivity; apply (Hchk _ Hin Hal).
  - intros addr.
    destruct (cr_tag cbp); simpl; [|discriminate].
    destruct (is_cap_sealed cbp); [discriminate|].
    destruct (has_perm cbp CAP_PERM_STORE); simpl; [|discriminate].
    destruct (has_perm cbp CAP_PERM_STORE_CAP); simpl; [|discriminate].
    destruct (negb (has_perm cbp CAP_PERM_STORE_LOCAL) && cr_tag csp
              && negb (has_perm csp CAP_PERM_GLOBAL)) eqn:Hlocal;
      [discriminate|].
    destruct (cap_is_in_bounds cbp _ CHERI_CAP_SIZE) eqn:Hin; simpl;
      [|discriminate].
    destruct (nonzero (align_of CHERI_CAP_SIZE _)) eqn:Hal; [discriminate|].
    intros H. injection H as <-.
    split; [reflexivity|]. split.
    + split; [reflexivity|]. split; [reflexivity|].
      destruct (has_perm cbp CAP_PERM_STORE_LOCAL); [left; reflexivity|].
      destruct (cr_tag csp); [|right; left; reflexivity].
      destruct (has_perm csp CAP_PERM_GLOBAL); [right; right; reflexivity|].
      discriminate.
    + repeat split; try reflexivity; apply (Hchk _ Hin Hal).
  - intros Htag Hs Hload _ Hin Hal.
    rewrite Htag, Hs, Hload. simpl. rewrite Hin, Hal.
    reflexivity.
Qed.

(** ** Legacy loads and stores *)

(** [check_ddc] for a permission that the switch of [check_cap] knows,
    for an instruction that is available. *)
Lemma check_ddc_spec (env : CPUMIPSState) (perm : Z) (cause : CP2Cause)
    (offset len : Z) :
  let ddc := DDC (CHWR (active_tc env)) in
  let addr := wrap64 (offset + cap_get_cursor ddc) in
  let checked :=
    cr_tag ddc = true /\ is_cap_sealed ddc = false
    /\ Z.land (cr_perms ddc) perm = perm
    /\ cr_base ddc <= addr /\ addr + len <= _cr_top ddc in
  check_cap_perm_cause perm = Some cause ->
  (checked -> check_ddc env perm offset len true = Ok addr)
  /\ (~ checked ->
      exists c,
        check_ddc env perm offset len true
        = Trap (C2E c 0) (set_BadVAddr addr env)
        /\ In c [CP2Ca_TAG; CP2Ca_SEAL; cause; CP2Ca_LENGTH]).
Proof.
  intros ddc addr checked Hcause. subst checked.
  unfold check_ddc, check_cap, check_cap_exception. fold ddc. fold addr.
  rewrite Hcause.
  destruct (cr_tag ddc); simpl.
  2: { split; [intros (? & _); discriminate|].
       intros _. eexists. split; [reflexivity|]. simpl. tauto. }
  destruct (is_cap_sealed ddc); simpl.
  1: { split; [intros (_ & ? & _); discriminate|].
       intros _. eexists. split; [reflexivity|]. simpl. tauto. }
  destruct (Z.eqb_spec (Z.land (cr_perms ddc) perm) perm) as [Hp|Hp]; simpl.
  2: { split; [intros (_ & _ & ? & _); contradiction|].
       intros _. eexists. split; [reflexivity|]. simpl. tauto. }
  destruct (cap_is_in_bounds ddc addr len) eqn:Hin; simpl.
  2: { split.
       - intros (_ & _ & _ & Hb & Ht).
         unfold cap_is_in_bounds, cap_get_base, cap_get_top65 in Hin.
         rewrite (proj2 (Z.leb_le _ _) Hb), (proj2 (Z.leb_le _ _) Ht) in Hin.
         discriminate.
       - intros _. eexists. split; [reflexivity|]. simpl. tauto. }
  apply cap_is_in_bounds_true in Hin.
  split.
  - intros _. destruct (negb (caps_have_same_type _ ddc)); reflexivity.
  - intros Hnot. exfalso. apply Hnot. repeat split; tauto.
Qed.

(** X24: a legacy load or store is checked against DDC and nothing else.
    [helper_ccheck_load] and [helper_ccheck_store] return the cursor of
    DDC plus the offset, modulo 2^64, exactly when DDC is tagged, not
    sealed, has the LOAD, respectively the STORE, permission and all the
    bytes of the access lie between its base and its top.  Otherwise they
    leave through a TAG, SEAL, permission or LENGTH exception on register
    0, having recorded the address as the bad virtual address and changed
    nothing else: the otype of DDC is never a reason for an exception. *)
Theorem legacy_access_is_checked_against_ddc (env : CPUMIPSState)
    (offset len : Z) :
  let ddc := DDC (CHWR (active_tc env)) in
  let addr := wrap64 (offset + cap_get_cursor ddc) in
  let checked := fun perm : Z =>
    cr_tag ddc = true /\ is_cap_sealed ddc = false
    /\ Z.land (cr_perms ddc) perm = perm
    /\ cr_base ddc <= addr /\ addr + len <= _cr_top ddc in
  let refused := fun (perm_cause : CP2Cause) (r : outcome Z) =>
    exists c,
      r = Trap (C2E c 0) (set_BadVAddr addr env)
      /\ In c [CP2Ca_TAG; CP2Ca_SEAL; perm_cause; CP2Ca_LENGTH] in
  (checked CAP_PERM_LOAD -> helper_ccheck_load env offset len = Ok addr)
  /\ (~ checked CAP_PERM_LOAD ->
      refused CP2Ca_PERM_LD (helper_ccheck_load env offset len))
  /\ (checked CAP_PERM_STORE -> helper_ccheck_store env offset len = Ok addr)
  /\ (~ checked CAP_PERM_STORE ->
      refused CP2Ca_PERM_ST (helper_ccheck_store env offset len)).
Proof.
  intros ddc addr checked refused. subst checked refused. cbv beta.
  unfold helper_ccheck_load, helper_ccheck_store.
  destruct (check_ddc_spec env CAP_PERM_LOAD CP2Ca_PERM_LD offset len
              check_cap_perm_cause_LOAD) as [L1 L2].
  destruct (check_ddc_spec env CAP_PERM_STORE CP2Ca_PERM_ST offset len
              check_cap_perm_cause_STORE) as [S1 S2].
  repeat split; assumption.
Qed.

Lemma land_plus_land_lnot (a m : Z) :
  Z.land a m + Z.land a (Z.lnot m) = a.
Proof.
  assert (Z.land (Z.land a m) (Z.land a (Z.lnot m)) = 0) as Hdisj.
  { apply Z.bits_inj'. intros n Hn.
    rewrite !Z.land_spec, Z.lnot_spec, Z.bits_0 by exact Hn.
    destruct (Z.testbit a n), (Z.testbit m n); reflexivity. }
  rewrite Z.add_nocarry_lxor by exact Hdisj.
  apply Z.bits_inj'. intros n Hn.
  rewrite Z.lxor_spec, !Z.land_spec, Z.lnot_spec by exact Hn.
  destruct (Z.testbit a n), (Z.testbit m n); reflexivity.
Qed.

Lemma land_wrap32_small (a m : Z) :
  0 <= m < 2 ^ 32 -> Z.land (wrap32 a) m = Z.land a m.
Proof.
  intros Hm. apply Z.bits_inj'. intros n Hn.
  rewrite !Z.land_spec, testbit_wrap32 by exact Hn.
  destruct (Z.ltb_spec n 32); [reflexivity|].
  rewrite (testbit_below_pow2 m 32 n) by lia.
  rewrite !andb_false_r. reflexivity.
Qed.

(** X25: the checks of the right-hand partial loads and stores (lwr,
    ldr, swr, sdr) check the bytes from the aligned address up to the
    byte addressed, and return the address of the byte addressed.  For an
    access length between 1 and 2^32 - 1, with [low] the offset ANDed
    with the length minus one, [helper_ccheck_load_right] and
    [helper_ccheck_store_right] do what [helper_ccheck_load] and
    [helper_ccheck_store] do for the offset without [low] and the length
    [low + 1], and when those return an address they return that address
    plus [low], which is the cursor of DDC plus the whole offset, modulo
    2^64. *)
Theorem right_access_checks_the_bytes_touched (env : CPUMIPSState)
    (offset len : Z) :
  let ddc := DDC (CHWR (active_tc env)) in
  let low := Z.land offset (len - 1) in
  1 <= len < 2 ^ 32 ->
  0 <= low <= len - 1
  /\ helper_ccheck_load_right env offset len
     = (addr ← helper_ccheck_load env (offset - low) (low + 1);
        Ok (wrap64 (addr + low)))
  /\ helper_ccheck_store_right env offset len
     = (addr ← helper_ccheck_store env (offset - low) (low + 1);
        Ok (wrap64 (addr + low)))
  /\ (forall addr, helper_ccheck_load_right env offset len = Ok addr ->
      addr = wrap64 (offset + cap_get_cursor ddc))
  /\ (forall addr, helper_ccheck_store_right env offset len = Ok addr ->
      addr = wrap64 (offset + cap_get_cursor ddc)).
Proof.
  intros ddc low Hlen.
  assert (0 <= low <= len - 1) as Hlow.
  { subst low. rewrite Z.land_comm. apply land_le_l. lia. }
  assert (wrap32 (len - 1) = len - 1) as Hw1
      by (unfold wrap32; apply Z.mod_small; lia).
  assert (wrap64 (len - 1) = len - 1) as Hw2
      by (unfold wrap64; apply Z.mod_small; lia).
  assert (Z.land (wrap32 offset) (wrap32 (len - 1)) = low) as Hlowbits.
  { rewrite Hw1. apply land_wrap32_small. lia. }
  assert (wrap32 (low + 1) = low + 1) as Hbytes
      by (unfold wrap32; apply Z.mod_small; lia).
  assert (Z.land offset (Z.lnot (wrap64 (len - 1))) = offset - low) as Hrest.
  { rewrite Hw2. pose proof (land_plus_land_lnot offset (len - 1)).
    subst low. lia. }
  assert (forall perm,
            (addr ← check_ddc env perm (offset - low) (low + 1) true;
             Ok (wrap64 (addr + low)))
            = (addr ← check_ddc env perm (offset - low) (low + 1) true;
               Ok (wrap64 (offset + cap_get_cursor ddc)))) as Haddr.
  { intros perm. unfold check_ddc. fold ddc.
    destruct (check_cap env ddc perm _ 0 (low + 1) true); simpl;
      try reflexivity.
    f_equal. unfold wrap64. rewrite Zplus_mod_idemp_l. f_equal. lia. }
  split; [exact Hlow|].
  unfold helper_ccheck_load_right, helper_ccheck_store_right,
         helper_ccheck_load, helper_ccheck_store.
  rewrite Hlowbits, Hbytes, Hrest.
  split; [reflexivity|]. split; [reflexivity|].
  split; intros addr; rewrite Haddr;
    (destruct (check_ddc env _ (offset - low) (low + 1) true); simpl;
     [intros H; injection H as <-; reflexivity|discriminate|discriminate]).
Qed.

(** X26: the capability registers are read-only for the debugger.  For
    every register number, [mips_gdb_set_cheri_reg] leaves the state as it
    is and reports the size that [mips_gdb_get_cheri_reg] sends for the
    same number: the size of a capability below 42, eight bytes for 42 and
    43, nothing above. *)
Theorem gdb_cheri_registers_are_read_only (env : CPUMIPSState)
    (wbuf rbuf : gmap Z Z) (n : Z) :
  fst (mips_gdb_set_cheri_reg env wbuf n) = env /\
  snd (mips_gdb_set_cheri_reg env wbuf n)
  = snd (snd (mips_gdb_get_cheri_reg env rbuf n)) /\
  fst (mips_gdb_get_cheri_reg env rbuf n) = env.
Proof.
  unfold mips_gdb_set_cheri_reg, mips_gdb_get_cheri_reg, gdb_get_capreg,
    gdb_get_regl.
  destruct (Z.ltb_spec n 42) as [H42 | H42].
  - repeat match goal with
           | |- context [if ?b then _ else _] =>
               lazymatch b with
               | CHERI_128 => fail
               | _ => destruct b eqn:?
               end
           end;
      try (destruct CHERI_128; repeat split; reflexivity);
      rewrite ?Z.ltb_ge, ?Z.eqb_neq in *; lia.
  - destruct (Z.ltb_spec n 32); [lia |].
    repeat match goal with
           | |- context [n =? ?k] => destruct (Z.eqb_spec n k); try lia
           end;
      simpl; repeat split; reflexivity.
Qed.

(** The loop of [out_of_bounds_stat_index] never goes past the end of the
    buckets it is given. *)
Lemma out_of_bounds_stat_index_from_le (buckets : list Z) (i : nat)
    (howmuch : Z) :
  (i <= out_of_bounds_stat_index_from i buckets howmuch <= i + length buckets)%nat.
Proof.
  revert i. induction buckets as [| b rest IH]; intros i; simpl.
  - lia.
  - destruct (howmuch <=? b); [lia |]. specialize (IH (S i)). lia.
Qed.

(** The loop stops at the first bucket that holds [howmuch]. *)
Lemma out_of_bounds_stat_index_from_spec (buckets : list Z) (i : nat)
    (howmuch : Z) (j : nat) (b : Z) :
  buckets !! j = Some b ->
  ((j < out_of_bounds_stat_index_from i buckets howmuch - i)%nat -> b < howmuch) /\
  (out_of_bounds_stat_index_from i buckets howmuch = (i + j)%nat -> howmuch <= b).
Proof.
  revert i j. induction buckets as [| b0 rest IH]; intros i j Hj; [discriminate |].
  simpl. destruct (Z.leb_spec howmuch b0) as [Hle | Hgt].
  - split; [lia |].
    intros Heq. assert (j = 0%nat) by lia. subst j.
    simpl in Hj. injection Hj as <-. exact Hle.
  - pose proof (out_of_bounds_stat_index_from_le rest (S i) howmuch) as Hge.
    destruct j as [| j].
    + simpl in Hj. injection Hj as <-. split; [intros _; exact Hgt | lia].
    + simpl in Hj. destruct (IH (S i) j Hj) as [IH1 IH2]. split.
      * intros Hlt. apply IH1. lia.
      * intros Heq. apply IH2. lia.
Qed.

(** In a list of buckets that grows, a larger distance falls into the
    same bucket or a later one. *)
Lemma out_of_bounds_stat_index_from_mono (buckets : list Z) (i : nat)
    (h1 h2 : Z) :
  h1 <= h2 ->
  (out_of_bounds_stat_index_from i buckets h1
   <= out_of_bounds_stat_index_from i buckets h2)%nat.
Proof.
  intros Hle. revert i. induction buckets as [| b rest IH]; intros i; simpl.
  - lia.
  - destruct (Z.leb_spec h1 b); destruct (Z.leb_spec h2 b); try lia.
    + pose proof (out_of_bounds_stat_index_from_le rest (S i) h2). lia.
    + apply IH.
Qed.

(** X27: the index that [out_of_bounds_stat_index] gives for a distance
    is an index of the counter arrays, which have one entry per bucket and
    one more; it is the first bucket whose bound is not below the
    distance, every bucket before it has a bound below the distance, it is
    the last entry exactly for a distance of more than 64 MiB, and it does
    not go down when the distance goes up. *)
Theorem out_of_bounds_stat_index_is_first_bucket (howmuch : Z) :
  (out_of_bounds_stat_index howmuch <= length bounds_buckets)%nat /\
  (forall j b, bounds_buckets !! j = Some b ->
     ((j < out_of_bounds_stat_index howmuch)%nat -> b < howmuch) /\
     (j = out_of_bounds_stat_index howmuch -> howmuch <= b)) /\
  (out_of_bounds_stat_index howmuch = length bounds_buckets
   <-> 64 * 1024 * 1024 < howmuch) /\
  (forall howmuch', howmuch <= howmuch' ->
     (out_of_bounds_stat_index howmuch
      <= out_of_bounds_stat_index howmuch')%nat).
Proof.
  unfold out_of_bounds_stat_index. split; [| split; [| split]].
  - pose proof (out_of_bounds_stat_index_from_le bounds_buckets 0 howmuch). lia.
  - intros j b Hj.
    destruct (out_of_bounds_stat_index_from_spec bounds_buckets 0 howmuch j b Hj)
      as [H1 H2].
    split.
    + intros Hlt. apply H1. lia.
    + intros Heq. apply H2. simpl. symmetry. exact Heq.
  - split.
    + intros Heq.
      destruct (out_of_bounds_stat_index_from_spec bounds_buckets 0 howmuch 12
                  (64 * 1024 * 1024) eq_refl) as [H1 _].
      apply H1. rewrite Heq. simpl. lia.
    + intros Hgt. unfold bounds_buckets. simpl.
      repeat match goal with
             | |- context [howmuch <=? ?b] =>
                 destruct (Z.leb_spec howmuch b); [lia |]
             end.
      reflexivity.
  - intros howmuch' Hle. apply out_of_bounds_stat_index_from_mono. exact Hle.
Qed.

(** The mode bit that a write to register 37 leaves in [hflags]. *)
Lemma isa_mode_bit_set (h m : Z) : m <> 0 -> nonzero (Z.land (Z.lor h m) m) = true.
Proof.
  intros Hm. unfold nonzero.
  replace (Z.land (Z.lor h m) m) with m.
  - apply negb_true_iff, Z.eqb_neq. exact Hm.
  - apply Z.bits_inj'. intros i Hi.
    rewrite Z.land_spec, Z.lor_spec. destruct (Z.testbit m i), (Z.testbit h i); reflexivity.
Qed.

Lemma isa_mode_bit_clear (h m : Z) : nonzero (Z.land (Z.land h (Z.lnot m)) m) = false.
Proof.
  unfold nonzero.
  replace (Z.land (Z.land h (Z.lnot m)) m) with 0; [reflexivity |].
  apply Z.bits_inj'. intros i Hi.
  rewrite !Z.land_spec, Z.lnot_spec, Z.bits_0 by exact Hi.
  destruct (Z.testbit m i), (Z.testbit h i); reflexivity.
Qed.

(** An address and its lowest bit make up the word they were cut from. *)
Lemma lor_clear_low_bit (v : Z) :
  Z.lor (Z.land v (Z.lnot 1)) (Z_of_bool (nonzero (Z.land v 1))) = v.
Proof.
  assert (Hlow : Z_of_bool (nonzero (Z.land v 1)) = Z.land v 1).
  { change 1 with (Z.ones 1) at 1 2. rewrite Z.land_ones by lia.
    change (2 ^ 1) with 2. unfold nonzero, Z_of_bool.
    pose proof (Z.mod_pos_bound v 2 ltac:(lia)).
    destruct (Z.eqb_spec (v mod 2) 0); simpl; lia. }
  rewrite Hlow. apply Z.bits_inj'. intros i Hi.
  rewrite Z.lor_spec, !Z.land_spec, Z.lnot_spec by exact Hi.
  destruct (Z.testbit v i), (Z.testbit 1 i); reflexivity.
Qed.

(** X28: what the debugger writes to a general-purpose register, to LO,
    HI, BadVAddr or to the program counter is what it reads back.  The
    write takes eight bytes and the read sends eight; for the program
    counter (register 37) the lowest bit of the word goes to the MIPS16
    flag of [hflags] and comes back from it. *)
Theorem gdb_integer_register_round_trip {U : GdbStub.Cpu}
    (env : GdbStub.CPUMIPSState) (wbuf rbuf : gmap Z Z) (n v : Z) :
  GdbStub.MIPS_HFLAG_M16 <> 0 ->
  length (GdbStub.gpr env) = 32%nat ->
  0 <= n < 32 \/ n = 33 \/ n = 34 \/ n = 35 \/ n = 37 ->
  wbuf !! 0 = Some v ->
  0 <= v <= UINT64_MAX ->
  snd (GdbStub.mips_cpu_gdb_write_register env wbuf n) = 8 /\
  GdbStub.mips_cpu_gdb_read_register
    (fst (GdbStub.mips_cpu_gdb_write_register env wbuf n)) rbuf n
  = (<[0 := v]> rbuf, 8).
Proof.
  intros Hm16 Hlen Hn Hbuf Hv.
  assert (Hw : wrap64 v = v) by (apply wrap64_small; exact Hv).
  unfold GdbStub.mips_cpu_gdb_write_register, GdbStub.mips_cpu_gdb_read_register,
    GdbStub.ldtul_p, GdbStub.ldq_p, gdb_get_regl, stq_p.
  rewrite Hbuf. simpl default.
  destruct (Z.ltb_spec n 32) as [Hlt | Hge].
  - simpl. split; [reflexivity |].
    rewrite list_lookup_insert_eq by lia. simpl. rewrite Hw. reflexivity.
  - assert (Hfp : forall b, b && (38 <=? n) && (n <? 72) = false).
    { intros b. destruct (Z.leb_spec 38 n); [lia |].
      rewrite andb_false_r. reflexivity. }
    rewrite !Hfp.
    destruct Hn as [Hn | [-> | [-> | [-> | ->]]]]; [lia | | | |]; simpl;
      try (rewrite Hw; split; reflexivity).
    destruct (nonzero (Z.land v 1)) eqn:Hbit; simpl; split; try reflexivity.
    + rewrite isa_mode_bit_set by exact Hm16.
      pose proof (lor_clear_low_bit v) as Hv1. rewrite Hbit in Hv1.
      rewrite Hv1, Hw. reflexivity.
    + rewrite isa_mode_bit_clear.
      pose proof (lor_clear_low_bit v) as Hv1. rewrite Hbit in Hv1.
      rewrite Hv1, Hw. reflexivity.
Qed.

(** X29: a write of the debugger to a general-purpose register, to LO,
    HI, BadVAddr or to the program counter changes what is read from no
    other register below 38: the other general-purpose registers, Status,
    LO, HI, BadVAddr, Cause and the program counter read as before. *)
Theorem gdb_integer_register_write_leaves_the_others {U : GdbStub.Cpu}
    (env : GdbStub.CPUMIPSState) (wbuf rbuf : gmap Z Z) (n m : Z) :
  0 <= n < 32 \/ n = 33 \/ n = 34 \/ n = 35 \/ n = 37 ->
  0 <= m < 38 ->
  m <> n ->
  GdbStub.mips_cpu_gdb_read_register
    (fst (GdbStub.mips_cpu_gdb_write_register env wbuf n)) rbuf m
  = GdbStub.mips_cpu_gdb_read_register env rbuf m.
Proof.
  intros Hn Hm Hne.
  unfold GdbStub.mips_cpu_gdb_write_register, GdbStub.mips_cpu_gdb_read_register.
  assert (Hfp : forall b k, k < 38 -> b && (38 <=? k) && (k <? 72) = false).
  { intros b k Hk. destruct (Z.leb_spec 38 k); [lia |].
    rewrite andb_false_r. reflexivity. }
  rewrite !(Hfp _ m) by lia.
  destruct (Z.ltb_spec n 32) as [Hlt | Hge].
  - simpl fst. destruct (Z.ltb_spec m 32) as [Hmlt | Hmge]; [| reflexivity].
    simpl. rewrite list_lookup_insert_ne by lia. reflexivity.
  - rewrite (Hfp _ n) by lia.
    destruct Hn as [Hn | [-> | [-> | [-> | ->]]]]; [lia | | | |]; simpl fst;
      destruct (Z.ltb_spec m 32); try reflexivity;
      repeat match goal with
             | |- context [m =? ?k] => destruct (Z.eqb_spec m k); try lia
             end;
      try reflexivity.
    all: destruct (nonzero (Z.land (GdbStub.ldtul_p wbuf) 1)); reflexivity.
Qed.

(** A cursor is a 64-bit number. *)
Lemma cap_get_cursor_wrapped (c : cap_register) :
  wrap64 (cap_get_cursor c) = cap_get_cursor c.
Proof.
  unfold cap_get_cursor, wrap64. apply Z.mod_mod. lia.
Qed.

(** X30: CSub gives the distance from the cursor of [ct] to that of [cb],
    modulo 2^64, whatever the tags and bounds of the two are.  It is 0
    exactly when CGetAddr gives the same for both, exchanging the
    registers negates it, and a CIncOffset of [ct] by it that completes
    leaves in the destination (one of registers 1 to 31) a capability at
    the address of [cb]. *)
Theorem csub_is_the_distance_cincoffset_covers (env : CPUMIPSState)
    (cd cb ct : nat) :
  (0 < cd < length (_CGPR (active_tc env)))%nat ->
  0 <= helper_csub env cb ct <= UINT64_MAX
  /\ (helper_csub env cb ct = 0
      <-> helper_cgetaddr env cb = helper_cgetaddr env ct)
  /\ helper_csub env ct cb = wrap64 (- helper_csub env cb ct)
  /\ (forall env',
        helper_cincoffset env cd ct (helper_csub env cb ct) = Ok env' ->
        helper_cgetaddr env' cd = helper_cgetaddr env cb).
Proof.
  intros Hcd. unfold helper_csub, helper_cgetaddr.
  set (cbp := get_readonly_capreg (active_tc env) cb).
  set (ctp := get_readonly_capreg (active_tc env) ct).
  assert (Hb : 0 <= cap_get_cursor cbp < 2 ^ 64)
    by (unfold cap_get_cursor, wrap64; apply Z.mod_pos_bound; lia).
  assert (Ht : 0 <= cap_get_cursor ctp < 2 ^ 64)
    by (unfold cap_get_cursor, wrap64; apply Z.mod_pos_bound; lia).
  split; [| split; [| split]].
  - unfold wrap64, UINT64_MAX.
    pose proof (Z.mod_pos_bound (cap_get_cursor cbp - cap_get_cursor ctp)
                  (2 ^ 64) ltac:(lia)).
    lia.
  - unfold wrap64. split.
    + intros H0.
      destruct (Z.le_gt_cases (cap_get_cursor ctp) (cap_get_cursor cbp)).
      * rewrite Z.mod_small in H0 by lia. lia.
      * replace (cap_get_cursor cbp - cap_get_cursor ctp)
          with (cap_get_cursor cbp - cap_get_cursor ctp + 2 ^ 64 + (-1) * 2 ^ 64)
          in H0 by lia.
        rewrite Z.mod_add in H0 by lia.
        rewrite Z.mod_small in H0 by lia. lia.
    + intros ->. rewrite Z.sub_diag. reflexivity.
  - unfold wrap64.
    rewrite <- (Z.sub_0_l ((cap_get_cursor cbp - cap_get_cursor ctp) mod 2 ^ 64)).
    rewrite Zminus_mod_idemp_r. f_equal. lia.
  - intros env' Hrun. unfold helper_cincoffset in Hrun.
    destruct (cincoffset_impl_ok _ _ _ _ _ Hrun)
      as (env1 & result & -> & Htc & _ & _ & Hcur & _).
    rewrite (get_readonly_capreg_write_eq' env) by assumption.
    rewrite Hcur. fold ctp. rewrite wrap64_plus_difference.
    apply cap_get_cursor_wrapped.
Qed.

End Proofs.

(** * The claims on concrete states *)

(** ** C1 *)


(** [check_cap] on a load through a capability without LOAD. *)
Example check_cap_missing_load_example :
  raised_cause
    (check_cap reset_env (set_cr_perms CAP_PERM_STORE data_cap)
               CAP_PERM_LOAD 4112 1 8 true)
  = Some CP2Ca_PERM_LD.
Proof. reflexivity. Qed.

(** ** C2 *)

(** C2, as stated, fails: the capability over the whole address space
    with its cursor at 1 is tagged and unsealed, its cursor is above its
    base and cursor + (2^64 - 1) is its top, yet both SetBounds and
    SetBoundsExact raise a LENGTH violation and write nothing, in the
    uncompressed and in a compressed build alike. *)
Lemma setbounds_refuses_top_of_address_space :
  let env := env_with (max_perms_capability 1) null_capability in
  let cbp := get_readonly_capreg (active_tc env) 1 in
  (cr_tag cbp = true /\ cap_is_unsealed cbp = true
   /\ cr_base cbp <= cap_get_cursor cbp
   /\ cap_get_cursor cbp + (2 ^ 64 - 1) <= _cr_top cbp)
  /\ helper_csetbounds env 2 1 (2 ^ 64 - 1) = Trap (C2E CP2Ca_LENGTH 1) env
  /\ helper_csetboundsexact env 2 1 (2 ^ 64 - 1) = Trap (C2E CP2Ca_LENGTH 1) env
  /\ helper_csetbounds (E := units_of_8_codec) env 2 1 (2 ^ 64 - 1)
     = Trap (C2E CP2Ca_LENGTH 1) env
  /\ helper_csetboundsexact (E := units_of_8_codec) env 2 1 (2 ^ 64 - 1)
     = Trap (C2E CP2Ca_LENGTH 1) env
  /\ ~ setbounds_as_stated.
Proof.
  intros env cbp.
  split; [vm_compute; repeat split; discriminate|].
  split; [vm_compute; reflexivity|]. split; [vm_compute; reflexivity|].
  split; [vm_compute; reflexivity|]. split; [vm_compute; reflexivity|].
  intros H.
  assert (0 <= 2 ^ 64 - 1 <= UINT64_MAX) as Hlen
      by (vm_compute; split; discriminate).
  assert (cr_tag cbp = true) as Ht by reflexivity.
  assert (cap_is_unsealed cbp = true) as Hs by reflexivity.
  assert (cr_base cbp <= cap_get_cursor cbp) as Hb by (vm_compute; discriminate).
  assert (cap_get_cursor cbp + (2 ^ 64 - 1) <= _cr_top cbp) as Htop
      by (vm_compute; discriminate).
  destruct (H env 2%nat 1%nat (2 ^ 64 - 1) Hlen Ht Hs Hb Htop)
    as [(env' & result & Hrun & _) _].
  vm_compute in Hrun. discriminate Hrun.
Qed.

(** The amended C2 at work: SetBoundsExact of 256 bytes on [data_cap]. *)
Lemma setbounds_never_enlarges_witness :
  let env := env_with data_cap null_capability in
  let cbp := get_readonly_capreg (active_tc env) 1 in
  (cr_tag cbp = true /\ is_cap_sealed cbp = false
   /\ cr_base cbp <= cap_get_cursor cbp
   /\ cap_get_cursor cbp + 256 <= _cr_top cbp
   /\ cap_get_cursor cbp + 256 <= UINT64_MAX)
  /\ exists env', do_setbounds true env 2 1 256 = Ok env'.
Proof.
  intros env cbp.
  assert (cr_tag cbp = true) as Ht by reflexivity.
  assert (is_cap_sealed cbp = false) as Hs by reflexivity.
  assert (cr_base cbp <= cap_get_cursor cbp) as Hb by (vm_compute; discriminate).
  assert (cap_get_cursor cbp + 256 <= _cr_top cbp) as Htop
      by (vm_compute; discriminate).
  assert (cap_get_cursor cbp + 256 <= UINT64_MAX) as Hmax
      by (vm_compute; discriminate).
  split; [repeat split; assumption|].
  destruct (setbounds_never_enlarges true env 2 1 256 Ht Hs Hb Htop Hmax)
    as (_ & Hok & _).
  apply Hok. reflexivity.
Defined.

(** Scenario 1 of the specification: exact bounds of 256 bytes at 4096,
    then a request that exceeds them. *)
Example setboundsexact_scenario :
  let env := env_with (max_perms_capability 4096) null_capability in
  exists env',
    helper_csetboundsexact env 2 1 256 = Ok env'
    /\ cr_base (get_readonly_capreg (active_tc env') 2) = 4096
    /\ _cr_top (get_readonly_capreg (active_tc env') 2) = 4352
    /\ cr_tag (get_readonly_capreg (active_tc env') 2) = true
    /\ helper_csetboundsexact env' 3 2 512 = Trap (C2E CP2Ca_LENGTH 2) env'.
Proof. eexists. split; [reflexivity|]. vm_compute. repeat split. Qed.

(** The compressed build: ten bytes at 4112 are no multiple of the unit,
    so SetBounds widens the request within the source and SetBoundsExact
    raises INEXACT. *)
Example setbounds_compressed_example :
  let env := env_with data_cap null_capability in
  (exists env',
      helper_csetbounds (E := units_of_8_codec) env 2 1 10 = Ok env'
      /\ cr_base (get_readonly_capreg (active_tc env') 2) = 4112
      /\ _cr_top (get_readonly_capreg (active_tc env') 2) = 4128)
  /\ raised_cause (helper_csetboundsexact (E := units_of_8_codec) env 2 1 10)
     = Some CP2Ca_INEXACT.
Proof. split; [eexists; split; [reflexivity|]|]; vm_compute; repeat split. Qed.

(** ** C3 *)

(** C3, as stated, fails: with the null capability in register 1,
    [helper_cbez] returns 1 and [helper_cbnz] returns 0. *)
Lemma cbnz_cbez_differ_on_null :
  helper_cbez reset_env 1 0 = 1
  /\ helper_cbnz reset_env 1 0 = 0
  /\ ~ cbnz_as_stated.
Proof.
  split; [reflexivity|]. split; [reflexivity|].
  intros H. destruct (H reset_env 1%nat 0) as (Hsame & _).
  vm_compute in Hsame. discriminate Hsame.
Qed.

(** ** C4 *)


(** A store of a local capability through a capability with STORE_CAP but
    without STORE_LOCAL. *)
Example csc_store_local_example :
  helper_csc_without_tcg (env_with store_global_caps_only_cap local_cap) 2 1 0 0
  = Trap (C2E CP2Ca_PERM_ST_LC_CAP 1)
         (env_with store_global_caps_only_cap local_cap).
Proof. reflexivity. Qed.

(** A store that succeeds: the line at 4096 is tagged and the second word
    stored is the cursor of [data_cap]. *)
Example csc_store_tagged_example :
  exists env',
    helper_csc_without_tcg (env_with store_global_caps_only_cap data_cap) 2 1 0 0
    = Ok env'
    /\ cheri_tag_get env' 4096 = true
    /\ memory env' !! 4104 = Some 4112.
Proof. eexists. split; [reflexivity|]. split; vm_compute; reflexivity. Qed.

(** ** C5 *)

(** C5 at work: [sealed_cap] is unsealed by [unsealer_cap]. *)
Lemma cunseal_success_witness :
  let env := env_with sealed_cap unsealer_cap in
  let env' := write_capreg env 3 (set_cr_otype CAP_OTYPE_UNSEALED sealed_cap) in
  helper_cunseal env 3 1 2 = Ok env'
  /\ cap_get_cursor (get_readonly_capreg (active_tc env) 2)
     = cr_otype (get_readonly_capreg (active_tc env) 1).
Proof.
  intros env env'.
  assert (helper_cunseal env 3 1 2 = Ok env') as Hrun by reflexivity.
  split; [exact Hrun|].
  apply (cunseal_success env env' 3 1 2 Hrun).
Defined.

(** ** C6 *)

(** CFromPtr of 0 through a sealed capability. *)
Example cfromptr_zero_example :
  helper_cfromptr (env_with sealed_cap data_cap) 2 1 0
  = Ok (write_capreg (env_with sealed_cap data_cap) 2 null_capability).
Proof. reflexivity. Qed.

(** ** C7 *)

(** C7, as stated, fails.  CAndPerm accepts an argument with bit 63 set,
    which is no permission, and writes its result; CCheckPerm lets bit 13,
    which is neither among the twelve permission bits nor among the user
    permission bits 15 to 18, pass on a capability with all permissions,
    and on an untagged capability it raises TAG, not USRDEFINE. *)
Lemma candperm_ccheckperm_accept_undefined_bits :
  let env := env_with data_cap null_capability in
  (undefined_perm_bits (2 ^ 63) <> 0
   /\ helper_candperm env 2 1 (2 ^ 63)
      = Ok (write_capreg env 2 (set_cr_uperms 0 (set_cr_perms 0 data_cap))))
  /\ (undefined_perm_bits (2 ^ 13) <> 0
      /\ helper_ccheckperm env 1 (2 ^ 13) = Ok env)
  /\ helper_ccheckperm env 2 (2 ^ 63) = Trap (C2E CP2Ca_TAG 2) env
  /\ ~ usrdefine_as_stated.
Proof.
  intros env.
  split; [vm_compute; split; [discriminate | reflexivity]|].
  split; [vm_compute; split; [discriminate | reflexivity]|].
  split; [reflexivity|].
  intros H.
  assert (0 <= 2 ^ 63 <= UINT64_MAX) as Hrt by (vm_compute; split; discriminate).
  assert (undefined_perm_bits (2 ^ 63) <> 0) as Hbits by (vm_compute; discriminate).
  destruct (H env 2%nat 1%nat 1%nat (2 ^ 63) Hrt Hbits) as (Hand & _).
  vm_compute in Hand. discriminate Hand.
Qed.

(** ** C8 *)

(** Register 43 with DDC and PCC tagged and [data_cap] in register 1:
    bits 0, 1 and 32. *)
Example gdb_register_43_example :
  mips_gdb_get_cheri_reg (env_with data_cap null_capability) ∅ 43
  = (env_with data_cap null_capability, (<[0 := 2 ^ 32 + 3]> ∅, 8)).
Proof. vm_compute. reflexivity. Qed.

(** ** C9 *)

(** C9 at work: an untagged capability sealed with type 7 is moved. *)
Lemma untagged_offset_update_never_traps_witness :
  let env := env_with untagged_sealed_cap null_capability in
  cr_tag (get_readonly_capreg (active_tc env) 1) = false
  /\ (exists result,
        cincoffset_impl env 2 1 32 = Ok (write_capreg env 2 result)
        /\ cap_get_cursor result = 4144)
  /\ (exists result,
        helper_csetoffset env 2 1 32 = Ok (write_capreg env 2 result)
        /\ cap_get_cursor result = 4128).
Proof.
  intros env.
  assert (cr_tag (get_readonly_capreg (active_tc env) 1) = false) as Ht
      by reflexivity.
  split; [exact Ht|].
  destruct (untagged_offset_update_never_traps env 2 1 32 Ht)
    as [(r1 & Hrun1 & _ & Hcur1 & _) (r2 & Hrun2 & _ & Hcur2 & _)].
  split; [exists r1 | exists r2]; (split; [assumption|]).
  - rewrite Hcur1. reflexivity.
  - rewrite Hcur2. reflexivity.
Defined.

(** The compressed build: an untagged, sealed capability moved far out of
    its bounds is marked unrepresentable and keeps the requested cursor. *)
Example cincoffset_unrepresentable_example :
  let env := env_with untagged_sealed_cap null_capability in
  exists result,
    cincoffset_impl (E := units_of_8_codec) env 2 1 (2 ^ 40)
    = Ok (write_capreg env 2 result)
    /\ cr_tag result = false
    /\ cap_get_cursor result = 4112 + 2 ^ 40
    /\ representable_near_bounds untagged_sealed_cap (16 + 2 ^ 40) = false.
Proof. eexists. split; [reflexivity|]. vm_compute. repeat split. Qed.

(** ** C10 *)

(** C10 at work: [cs] is tagged and sealed, [ct] is the null capability. *)
Lemma ccseal_copies_where_cseal_traps_witness :
  let env := env_with sealed_cap null_capability in
  (cr_tag (get_readonly_capreg (active_tc env) 1) = true
   /\ cr_tag (get_readonly_capreg (active_tc env) 2) = false)
  /\ helper_ccseal env 3 1 2 = Ok (write_capreg env 3 sealed_cap)
  /\ get_readonly_capreg (active_tc (write_capreg env 3 sealed_cap)) 3
     = sealed_cap
  /\ helper_cseal env 3 1 2 = Trap (C2E CP2Ca_TAG 2) env.
Proof.
  intros env.
  assert (cr_tag (get_readonly_capreg (active_tc env) 1) = true) as Hs
      by reflexivity.
  assert (cr_tag (get_readonly_capreg (active_tc env) 2) = false) as Ht
      by reflexivity.
  split; [split; assumption|].
  destruct (ccseal_copies_where_cseal_traps env 3 1 2 Hs Ht)
    as (Hcc & Hread & Hc).
  split; [exact Hcc|]. split; [|exact Hc].
  apply Hread. vm_compute. lia.
Defined.

(** * Further properties on concrete states *)

(** X5 at work: CClearTag of [data_cap] into register 2. *)
Lemma ccleartag_clears_only_the_tag_witness :
  let env := env_with data_cap null_capability in
  (0 < 2 < length (_CGPR (active_tc env)))%nat
  /\ helper_cgettag (helper_ccleartag env 2 1) 2 = 0
  /\ helper_cgetaddr (helper_ccleartag env 2 1) 2 = 4112.
Proof.
  intros env.
  assert (0 < 2 < length (_CGPR (active_tc env)))%nat as Hcd
      by (vm_compute; lia).
  split; [exact Hcd|].
  destruct (ccleartag_clears_only_the_tag env 2 1 Hcd) as (Ht & Ha & _).
  split; [exact Ht|]. rewrite Ha. reflexivity.
Defined.

(** X8 at work: CSetAddr moves the cursor of [data_cap] to 5000. *)
Lemma csetaddr_reaches_address_witness :
  let env := env_with data_cap null_capability in
  (0 < 2 < length (_CGPR (active_tc env)))%nat
  /\ 0 <= 5000 <= UINT64_MAX
  /\ exists env', helper_csetaddr env 2 1 5000 = Ok env'
                  /\ helper_cgetaddr env' 2 = 5000.
Proof.
  intros env.
  assert (0 < 2 < length (_CGPR (active_tc env)))%nat as Hcd
      by (vm_compute; lia).
  assert (0 <= 5000 <= UINT64_MAX) as Ha by (vm_compute; split; discriminate).
  split; [exact Hcd|]. split; [exact Ha|].
  destruct (csetaddr_reaches_address env 2 1 5000 0 Hcd Ha) as (Hset & _).
  eexists. split; [reflexivity|]. apply Hset. reflexivity.
Defined.

(** X9 at work: the pointer that CToPtr gives for [data_cap] relative to
    DDC is 4112, and CFromPtr makes a capability at that address of it. *)
Lemma ctoptr_cfromptr_round_trip_witness :
  let env := env_with data_cap null_capability in
  (0 < 2 < length (_CGPR (active_tc env)))%nat
  /\ cr_tag (get_capreg_0_is_ddc (active_tc env) 0) = true
  /\ helper_ctoptr env 1 0 = Ok 4112
  /\ exists env', helper_cfromptr env 2 0 4112 = Ok env'
                  /\ helper_cgetaddr env' 2 = 4112.
Proof.
  intros env.
  assert (0 < 2 < length (_CGPR (active_tc env)))%nat as Hcd
      by (vm_compute; lia).
  assert (cr_tag (get_capreg_0_is_ddc (active_tc env) 0) = true) as Ht
      by reflexivity.
  split; [exact Hcd|]. split; [exact Ht|].
  destruct (ctoptr_cfromptr_round_trip env 2 1 0 Hcd Ht) as (_ & Hin).
  destruct Hin as (Hptr & Hback).
  { split; [reflexivity|]. vm_compute. split; discriminate. }
  split; [exact Hptr|].
  destruct Hback as (Haddr & _); [vm_compute; discriminate|].
  eexists. split; [reflexivity|]. apply Haddr. reflexivity.
Defined.

(** X13 at work: CAndPerm of [data_cap] with LOAD and STORE. *)
Lemma candperm_only_removes_permissions_witness :
  let env := env_with data_cap null_capability in
  (0 < 2 < length (_CGPR (active_tc env)))%nat
  /\ exists env', helper_candperm env 2 1 12 = Ok env'
                  /\ helper_ctestsubset env' 1 2 = 1.
Proof.
  intros env.
  assert (0 < 2 < length (_CGPR (active_tc env)))%nat as Hcd
      by (vm_compute; lia).
  split; [exact Hcd|].
  eexists. split; [reflexivity|].
  eapply (candperm_only_removes_permissions env _ 2 1 12);
    [exact Hcd | reflexivity].
Defined.

(** X14 at work: SetBoundsExact of 256 bytes on [data_cap]. *)
Lemma setbounds_result_is_subset_witness :
  let env := env_with data_cap null_capability in
  (0 < 2 < length (_CGPR (active_tc env)))%nat
  /\ (forall c cursor top,
        let c' := fst (cc128_setbounds c cursor top) in
        cr_tag c' = cr_tag c /\ cr_perms c' = cr_perms c
        /\ cr_uperms c' = cr_uperms c)
  /\ exists env', do_setbounds true env 2 1 256 = Ok env'
                  /\ helper_ctestsubset env' 1 2 = 1.
Proof.
  intros env.
  assert (0 < 2 < length (_CGPR (active_tc env)))%nat as Hcd
      by (vm_compute; lia).
  assert (forall c cursor top,
            let c' := fst (cc128_setbounds c cursor top) in
            cr_tag c' = cr_tag c /\ cr_perms c' = cr_perms c
            /\ cr_uperms c' = cr_uperms c) as Hcodec
      by (intros c cursor top; repeat split; reflexivity).
  split; [exact Hcd|]. split; [exact Hcodec|].
  eexists. split; [reflexivity|].
  eapply (setbounds_result_is_subset true env _ 2 1 256);
    [exact Hcd | exact Hcodec | reflexivity].
Defined.

(** X15 at work, at the top of the address space: under the authority
    of a capability over [0, 2^64 - 1), CBuildCap gives a tag to a pattern
    whose top is 2^64.  A load of the last byte of the address space
    completes through the result and raises LENGTH through the
    authorising capability. *)
Lemma cbuildcap_result_within_saturated_bounds_witness :
  let env := env_with cap_below_last_byte untagged_cap_to_the_end in
  (0 < 3 < length (_CGPR (active_tc env)))%nat
  /\ exists env', helper_cbuildcap env 3 1 2 = Ok env'
                  /\ cr_tag (get_readonly_capreg (active_tc env') 3) = true
                  /\ _cr_top (get_readonly_capreg (active_tc env) 1)
                     = 2 ^ 64 - 1
                  /\ _cr_top (get_readonly_capreg (active_tc env') 3) = 2 ^ 64
                  /\ helper_ctestsubset env' 1 3 = 1
                  /\ helper_cload env' 3 0 0 1 = Ok (2 ^ 64 - 1)
                  /\ helper_cload env' 1 (2 ^ 64 - 1) 0 1
                     = Trap (C2E CP2Ca_LENGTH 1) env'.
Proof.
  intros env.
  assert (0 < 3 < length (_CGPR (active_tc env)))%nat as Hcd
      by (vm_compute; lia).
  split; [exact Hcd|].
  assert (exists env', helper_cbuildcap env 3 1 2 = Ok env') as [env' Hrun]
      by (eexists; vm_compute; reflexivity).
  exists env'. split; [exact Hrun|].
  destruct (cbuildcap_result_within_saturated_bounds env env' 3 1 2 Hcd Hrun)
    as (_ & _ & Ht & _ & Htop & _ & _ & _ & _ & _ & _ & _ & _ & _ & _ & Hsub).
  split; [exact Ht|]. split; [reflexivity|]. split; [exact Htop|].
  split; [apply Hsub; discriminate|].
  vm_compute in Hrun. injection Hrun as <-.
  split; vm_compute; reflexivity.
Defined.

(** X16 at work: [data_cap] sealed with object type 7 cannot be given
    other permissions. *)
Lemma cseal_result_is_sealed_witness :
  let env := env_with data_cap sealer_cap in
  (0 < 3 < length (_CGPR (active_tc env)))%nat
  /\ exists env', helper_cseal env 3 1 2 = Ok env'
                  /\ helper_cgetsealed env' 3 = 1
                  /\ helper_candperm env' 4 3 0 = Trap (C2E CP2Ca_SEAL 3) env'.
Proof.
  intros env.
  assert (0 < 3 < length (_CGPR (active_tc env)))%nat as Hcd
      by (vm_compute; lia).
  split; [exact Hcd|].
  assert (exists env', helper_cseal env 3 1 2 = Ok env') as [env' Hrun]
      by (eexists; vm_compute; reflexivity).
  exists env'. split; [exact Hrun|].
  destruct (cseal_result_is_sealed env env' 3 1 2 Hcd Hrun)
    as (_ & _ & _ & _ & Hs & Hperm & _).
  split; [exact Hs | apply Hperm].
Defined.

(** X17 at work: CSealEntry turns [data_cap] into a sealed entry. *)
Lemma csealentry_makes_a_sentry_witness :
  let env := env_with data_cap null_capability in
  (0 < 3 < length (_CGPR (active_tc env)))%nat
  /\ exists env', helper_csealentry env 3 1 = Ok env'
                  /\ helper_cgetsealed env' 3 = 1
                  /\ get_readonly_capreg (active_tc env') 3
                     = set_cr_otype CAP_OTYPE_SENTRY data_cap.
Proof.
  intros env.
  assert (0 < 3 < length (_CGPR (active_tc env)))%nat as Hcd
      by (vm_compute; lia).
  split; [exact Hcd|].
  assert (exists env', helper_csealentry env 3 1 = Ok env') as [env' Hrun]
      by (eexists; vm_compute; reflexivity).
  exists env'. split; [exact Hrun|].
  destruct (csealentry_makes_a_sentry env env' 3 1 4 Hcd Hrun)
    as (_ & _ & _ & Hr & Hs & _).
  split; [exact Hs | exact Hr].
Defined.

(** X18 at work: [data_cap] sealed with object type 7 and unsealed by the
    same capability is [data_cap] again. *)
Lemma cseal_cunseal_round_trip_witness :
  let env := env_with data_cap sealer_cap in
  ((0 < 3 < length (_CGPR (active_tc env)))%nat
   /\ (0 < 4 < length (_CGPR (active_tc env)))%nat
   /\ 3%nat <> 2%nat
   /\ CAP_MAX_SEALED_OTYPE < 2 ^ 32
   /\ cap_is_unsealed (get_readonly_capreg (active_tc env) 2) = true
   /\ has_perm (get_readonly_capreg (active_tc env) 2) CAP_PERM_UNSEAL = true
   /\ cap_get_cursor (get_readonly_capreg (active_tc env) 2)
      <> CAP_MAX_SEALED_OTYPE)
  /\ exists env1 env2,
       helper_cseal env 3 1 2 = Ok env1
       /\ helper_cunseal env1 4 3 2 = Ok env2
       /\ get_readonly_capreg (active_tc env2) 4 = data_cap.
Proof.
  intros env.
  assert (0 < 3 < length (_CGPR (active_tc env)))%nat as Hcd
      by (vm_compute; lia).
  assert (0 < 4 < length (_CGPR (active_tc env)))%nat as Hcd'
      by (vm_compute; lia).
  assert (3%nat <> 2%nat) as Hne by discriminate.
  assert (CAP_MAX_SEALED_OTYPE < 2 ^ 32) as Hmax by reflexivity.
  assert (cap_is_unsealed (get_readonly_capreg (active_tc env) 2) = true)
    as Hu by reflexivity.
  assert (has_perm (get_readonly_capreg (active_tc env) 2) CAP_PERM_UNSEAL
          = true) as Hp by reflexivity.
  assert (cap_get_cursor (get_readonly_capreg (active_tc env) 2)
          <> CAP_MAX_SEALED_OTYPE) as Hc by (vm_compute; discriminate).
  split; [tauto|].
  assert (exists env1, helper_cseal env 3 1 2 = Ok env1) as [env1 Hrun]
      by (eexists; vm_compute; reflexivity).
  exists env1.
  destruct (cseal_cunseal_round_trip env env1 3 1 2 4 Hcd Hcd' Hne Hmax Hrun
              Hu Hp Hc)
    as (env2 & Hun & _ & _ & _ & _ & _ & _ & _ & _ & Hsame).
  exists env2. split; [exact Hrun|]. split; [exact Hun|].
  apply Hsame; [reflexivity | reflexivity | left; reflexivity].
Defined.

(** X19 at work: [data_cap] sealed with the last object type stays
    sealed. *)
Lemma cunseal_refuses_the_last_otype_witness :
  let env := env_with data_cap last_otype_sealer_cap in
  ((0 < 3 < length (_CGPR (active_tc env)))%nat
   /\ CAP_MAX_SEALED_OTYPE < 2 ^ 32
   /\ cap_get_cursor (get_readonly_capreg (active_tc env) 2)
      = CAP_MAX_SEALED_OTYPE)
  /\ exists env1,
       helper_cseal env 3 1 2 = Ok env1
       /\ forall env2, helper_cunseal env1 4 3 2 <> Ok env2.
Proof.
  intros env.
  assert (0 < 3 < length (_CGPR (active_tc env)))%nat as Hcd
      by (vm_compute; lia).
  assert (CAP_MAX_SEALED_OTYPE < 2 ^ 32) as Hmax by reflexivity.
  assert (cap_get_cursor (get_readonly_capreg (active_tc env) 2)
          = CAP_MAX_SEALED_OTYPE) as Hc by reflexivity.
  split; [tauto|].
  assert (exists env1, helper_cseal env 3 1 2 = Ok env1) as [env1 Hrun]
      by (eexists; vm_compute; reflexivity).
  exists env1. split; [exact Hrun|].
  destruct (cunseal_refuses_the_last_otype env env1 3 1 2 Hcd Hmax Hrun Hc)
    as (_ & Hno).
  intros env2. apply Hno.
Defined.

(** X21 at work: CJALR with register 1 as link and as target jumps to
    the link address. *)
Lemma cjalr_with_link_in_jump_register_witness :
  let env := env_with data_cap null_capability in
  (0 < 1 < length (_CGPR (active_tc env)))%nat
  /\ exists env', helper_cjalr env 1 1 = Ok (env', 8)
                  /\ CapBranchTarget (active_tc env') = data_cap.
Proof.
  intros env.
  assert (0 < 1 < length (_CGPR (active_tc env)))%nat as Hcd
      by (vm_compute; lia).
  split; [exact Hcd|].
  assert (exists env', helper_cjalr env 1 1 = Ok (env', 8)) as [env' Hrun]
      by (eexists; vm_compute; reflexivity).
  exists env'. split; [exact Hrun|].
  destruct (cjalr_with_link_in_jump_register env env' 1 8 Hcd Hrun)
    as (_ & Ht & _).
  exact Ht.
Defined.

(** X25 at work: a four-byte right access at 4099 checks the bytes 4096
    to 4099 against DDC. *)
Lemma right_access_checks_the_bytes_touched_witness :
  1 <= 4 < 2 ^ 32
  /\ helper_ccheck_load_right reset_env 4099 4
     = (addr ← helper_ccheck_load reset_env 4096 4; Ok (wrap64 (addr + 3))).
Proof.
  assert (1 <= 4 < 2 ^ 32) as Hlen by (split; [discriminate | reflexivity]).
  split; [exact Hlen|].
  destruct (right_access_checks_the_bytes_touched reset_env 4099 4 Hlen)
    as (_ & Hload & _).
  exact Hload.
Defined.

(** X28 at work: the odd word 4097 written to the program counter comes
    back, by way of the MIPS16 flag. *)
Lemma gdb_integer_register_round_trip_witness :
  (@GdbStub.MIPS_HFLAG_M16 cpu_without_fpu <> 0
   /\ length (GdbStub.gpr gdb_reset_env) = 32%nat
   /\ ({[ 0 := 4097 ]} : gmap Z Z) !! 0 = Some 4097
   /\ 0 <= 4097 <= UINT64_MAX)
  /\ GdbStub.PC
       (fst (GdbStub.mips_cpu_gdb_write_register (U := cpu_without_fpu)
               gdb_reset_env {[ 0 := 4097 ]} 37)) = 4096
  /\ GdbStub.mips_cpu_gdb_read_register (U := cpu_without_fpu)
       (fst (GdbStub.mips_cpu_gdb_write_register (U := cpu_without_fpu)
               gdb_reset_env {[ 0 := 4097 ]} 37)) ∅ 37
     = (<[0 := 4097]> ∅, 8).
Proof.
  assert (@GdbStub.MIPS_HFLAG_M16 cpu_without_fpu <> 0) as Hm by discriminate.
  assert (length (GdbStub.gpr gdb_reset_env) = 32%nat) as Hl by reflexivity.
  assert (({[ 0 := 4097 ]} : gmap Z Z) !! 0 = Some 4097) as Hb by reflexivity.
  assert (0 <= 4097 <= UINT64_MAX) as Hv by (vm_compute; split; discriminate).
  split; [tauto|].
  split; [reflexivity|].
  apply (gdb_integer_register_round_trip (U := cpu_without_fpu)
           gdb_reset_env {[ 0 := 4097 ]} ∅ 37 4097 Hm Hl);
    [right; right; right; right; reflexivity | exact Hb | exact Hv].
Defined.

(** X29 at work: the write of 4097 to the program counter leaves
    register 31 as it was. *)
Lemma gdb_integer_register_write_leaves_the_others_witness :
  ((0 <= 37 < 32 \/ 37 = 33 \/ 37 = 34 \/ 37 = 35 \/ 37 = 37)
   /\ 0 <= 31 < 38 /\ 31 <> 37)
  /\ GdbStub.mips_cpu_gdb_read_register (U := cpu_without_fpu)
       (fst (GdbStub.mips_cpu_gdb_write_register (U := cpu_without_fpu)
               gdb_reset_env {[ 0 := 4097 ]} 37)) ∅ 31
     = GdbStub.mips_cpu_gdb_read_register (U := cpu_without_fpu)
         gdb_reset_env ∅ 31.
Proof.
  assert (0 <= 37 < 32 \/ 37 = 33 \/ 37 = 34 \/ 37 = 35 \/ 37 = 37) as Hn
      by (right; right; right; right; reflexivity).
  assert (0 <= 31 < 38) as Hm by (split; [discriminate | reflexivity]).
  assert (31 <> 37) as Hne by discriminate.
  split; [tauto|].
  apply (gdb_integer_register_write_leaves_the_others (U := cpu_without_fpu)
           gdb_reset_env {[ 0 := 4097 ]} ∅ 37 31 Hn Hm Hne).
Defined.

(** X30 at work: [data_cap] is 4105 bytes beyond [sealer_cap], and
    CIncOffset carries a copy of the latter there. *)
Lemma csub_is_the_distance_cincoffset_covers_witness :
  let env := env_with data_cap sealer_cap in
  (0 < 3 < length (_CGPR (active_tc env)))%nat
  /\ helper_csub env 1 2 = 4105
  /\ exists env', helper_cincoffset env 3 2 4105 = Ok env'
                  /\ helper_cgetaddr env' 3 = 4112.
Proof.
  intros env.
  assert (0 < 3 < length (_CGPR (active_tc env)))%nat as Hcd
      by (vm_compute; lia).
  split; [exact Hcd|]. split; [reflexivity|].
  destruct (csub_is_the_distance_cincoffset_covers env 3 1 2 Hcd)
    as (_ & _ & _ & Hinc).
  assert (exists env', helper_cincoffset env 3 2 4105 = Ok env') as [env' Hrun]
      by (eexists; vm_compute; reflexivity).
  exists env'. split; [exact Hrun|].
  rewrite (Hinc env' Hrun). reflexivity.
Defined.
